(** * Catalyst8-Signal: the signal generator (lib/signalGenerator.js)

    A shallow embedding of the candle source fallback generator, the
    technical indicators and the regime-aware scoring engine, with the
    properties of the specification proved (or refuted) on it.

    JavaScript numbers are IEEE-754 binary64 values.  The embedding is
    written once over an interface [Number] of the operations the source
    uses, and is instantiated twice:

    - [Float64]: Rocq's primitive binary64 floats, bit for bit what the
      JavaScript engine computes.  What is proved of the numbers the code
      computes is proved on this instance, from the specification of its
      operations: by evaluation on concrete inputs, by trying every
      outcome of the scoring rules, whose points are literals, and from
      the sign and the monotonicity of rounding;
    - [Exact]: the rationals [Q], the idealised reading of the same
      formulas without rounding, NaN or infinities; it appears only where
      a statement says so, next to the binary64 one. *)

From Stdlib Require Import ZArith QArith Qabs Qround Qpower Lia Lqa List Bool String
  Ascii.
From Stdlib Require Import Floats Uint63.
Import ListNotations.

Set Implicit Arguments.
Local Open Scope Z_scope.

(** ** Failures

    [TypeError] is a JavaScript exception (a property read on [undefined], a
    destructuring of a value that is not iterable).  [UndefinedRead] marks
    a place where JavaScript continues and the embedding stops: an array
    read outside the array whose result the source would use as a number.
    "No failure" thus also means "no read of an absent element". *)

Inductive failure : Type :=
| TypeError (what : string)
| UndefinedRead (what : string).

Inductive result (A : Type) : Type :=
| Ok (a : A)
| Fail (e : failure).

Arguments Ok {A} a.
Arguments Fail {A} e.

Definition bind {A B : Type} (r : result A) (k : A -> result B) : result B :=
  match r with
  | Ok a => k a
  | Fail e => Fail e
  end.

Notation "x <- r ;; k" := (bind r (fun x => k))
  (at level 61, r at next level, right associativity).
Notation "' p <- r ;; k" := (bind r (fun x => match x with p => k end))
  (at level 61, p pattern, r at next level, right associativity).

(** ** Arrays

    Array indices and lengths are integers; [get] is [a[i]] where the source
    uses the element as a number, [slice] is [Array.prototype.slice] with its
    treatment of negative and out-of-range bounds ([slice(-0)] is the whole
    array). *)

Definition len {A : Type} (l : list A) : Z := Z.of_nat (List.length l).

Definition at_index {A : Type} (l : list A) (i : Z) : option A :=
  if i <? 0 then None else nth_error l (Z.to_nat i).

Definition get {A : Type} (l : list A) (i : Z) : result A :=
  match at_index l i with
  | Some a => Ok a
  | None => Fail (UndefinedRead "array element")
  end.

Definition rel_index (n k : Z) : Z :=
  if k <? 0 then Z.max (n + k) 0 else Z.min k n.

Definition slice {A : Type} (l : list A) (start : Z) (stop : option Z) : list A :=
  let from := rel_index (len l) start in
  let to := match stop with
            | None => len l
            | Some e => rel_index (len l) e
            end in
  firstn (Z.to_nat (to - from)) (skipn (Z.to_nat from) l).

(** [for (let i = lo; i < hi; i++) s = body(i, s)] *)

Fixpoint iterate {S : Type} (body : Z -> S -> result S) (n : nat) (i : Z) (s : S)
  : result S :=
  match n with
  | O => Ok s
  | Datatypes.S n' => s' <- body i s ;; iterate body n' (i + 1) s'
  end.

Definition for_range {S : Type} (lo hi : Z) (body : Z -> S -> result S) (s : S)
  : result S :=
  iterate body (Z.to_nat (hi - lo)) lo s.

(** ** Object literals used as lookup tables

    [table[key]] on an object literal finds the literal's own properties and,
    for every other key, whatever [Object.prototype] holds under that name (a
    function or an object, truthy and not a number or an array). *)

Inductive lookup (A : Type) : Type :=
| Own (a : A)
| Inherited
| Missing.

Arguments Own {A} a.
Arguments Inherited {A}.
Arguments Missing {A}.

Definition object_prototype_keys : list string :=
  [ "constructor"; "__proto__"; "toString"; "toLocaleString"; "valueOf";
    "hasOwnProperty"; "isPrototypeOf"; "propertyIsEnumerable";
    "__defineGetter__"; "__defineSetter__"; "__lookupGetter__";
    "__lookupSetter__" ]%string.

Fixpoint assoc {A : Type} (key : string) (t : list (string * A)) : option A :=
  match t with
  | [] => None
  | (k, v) :: t' => if String.eqb key k then Some v else assoc key t'
  end.

Definition inherited (key : string) : bool :=
  existsb (String.eqb key) object_prototype_keys.

Definition property {A : Type} (t : list (string * A)) (key : string) : lookup A :=
  match assoc key t with
  | Some v => Own v
  | None => if inherited key then Inherited else Missing
  end.

(** ** Numbers *)

Class Number (T : Type) : Type := {
  of_Z : Z -> T;                 (* an integer literal or an array length *)
  add : T -> T -> T;
  sub : T -> T -> T;
  mul : T -> T -> T;
  div : T -> T -> T;
  neg : T -> T;                  (* unary minus *)
  Math_sqrt : T -> T;
  Math_abs : T -> T;
  Math_max : T -> T -> T;
  Math_min : T -> T -> T;
  ltb : T -> T -> bool;          (* a < b *)
  leb : T -> T -> bool;          (* a <= b *)
  eqb : T -> T -> bool;          (* a === b *)
  truthy : T -> bool;            (* neither 0 nor NaN *)
  toFixed : nat -> T -> T        (* +x.toFixed(d) *)
}.

Declare Scope js_scope.
Delimit Scope js_scope with js.
Infix "+" := add : js_scope.
Infix "-" := sub : js_scope.
Infix "*" := mul : js_scope.
Infix "/" := div : js_scope.
Notation "a <? b" := (ltb a b) : js_scope.
Notation "a <=? b" := (leb a b) : js_scope.
Notation "a >? b" := (ltb b a) : js_scope.
Notation "a >=? b" := (leb b a) : js_scope.
Notation "a === b" := (eqb a b) (at level 70, no associativity) : js_scope.

(** A decimal literal [n / 10^k] of the source, e.g. [0.012] is [dec 12 1000]:
    the quotient of two exactly representable integers, correctly rounded,
    is the binary64 value the literal denotes. *)

Definition dec {T : Type} `{Number T} (n d : Z) : T := div (of_Z n) (of_Z d).

(** *** Binary64 *)

Module Float64.

(** Exact for the integers the source writes or counts (below 2^53). *)
Definition of_Z (z : Z) : float :=
  if z <? 0 then PrimFloat.opp (PrimFloat.of_uint63 (Uint63.of_Z (- z)))
  else PrimFloat.of_uint63 (Uint63.of_Z z).

Definition truthy (x : float) : bool :=
  negb (PrimFloat.is_zero x || PrimFloat.is_nan x).

(** [Math.max]: NaN if either argument is, and [+0] above [-0]. *)
Definition max (a b : float) : float :=
  if PrimFloat.is_nan a || PrimFloat.is_nan b then PrimFloat.nan
  else if PrimFloat.ltb a b then b
  else if PrimFloat.ltb b a then a
  else if PrimFloat.get_sign a then b else a.

Definition min (a b : float) : float :=
  if PrimFloat.is_nan a || PrimFloat.is_nan b then PrimFloat.nan
  else if PrimFloat.ltb a b then a
  else if PrimFloat.ltb b a then b
  else if PrimFloat.get_sign a then a else b.

(** [x.toFixed(d)] takes the integer [n] closest to [|x| * 10^d] (the larger
    one at a tie) and prints [n / 10^d] with the sign of [x]; the unary plus
    reads the decimal back as the nearest binary64 value.  NaN, the
    infinities and magnitudes from [1e21] on print as themselves. *)
Definition nearest_times (d : nat) (m : positive) (e : Z) : Z :=
  let p := 10 ^ Z.of_nat d in
  if 0 <=? e then Zpos m * 2 ^ e * p
  else (2 * (Zpos m * p) + 2 ^ (- e)) / (2 * 2 ^ (- e)).

Definition toFixed (d : nat) (x : float) : float :=
  match Prim2SF x with
  | S754_finite s m e =>
      if PrimFloat.leb 1e21 (PrimFloat.abs x) then x
      else
        match nearest_times d m e with
        | Zpos n =>
            SF2Prim (SFdiv prec emax (S754_finite s n 0)
                       (S754_finite false (Z.to_pos (10 ^ Z.of_nat d)) 0))
        | _ => if s then PrimFloat.neg_zero else PrimFloat.zero
        end
  | S754_zero _ => PrimFloat.zero
  | _ => x
  end.

#[global] Instance number : Number float := {
  of_Z := of_Z;
  add := PrimFloat.add;
  sub := PrimFloat.sub;
  mul := PrimFloat.mul;
  div := PrimFloat.div;
  neg := PrimFloat.opp;
  Math_sqrt := PrimFloat.sqrt;
  Math_abs := PrimFloat.abs;
  Math_max := max;
  Math_min := min;
  ltb := PrimFloat.ltb;
  leb := PrimFloat.leb;
  eqb := PrimFloat.eqb;
  truthy := truthy;
  toFixed := toFixed
}.

End Float64.

(** *** Exact rationals *)

Module Exact.

(** Every result is kept in lowest terms, so that long recurrences stay
    computable; [Qred q == q]. *)
Definition add (a b : Q) : Q := Qred (a + b).
Definition sub (a b : Q) : Q := Qred (a - b).
Definition mul (a b : Q) : Q := Qred (a * b).
Definition div (a b : Q) : Q := Qred (a / b).

Definition ltb (a b : Q) : bool := negb (Qle_bool b a).

(** There is no rational square root: the exact instance rounds it down to
    twelve decimals. *)
Definition sqrt (q : Q) : Q :=
  let s := 10 ^ 12 in
  Qred (Z.sqrt (Qnum q * Zpos (Qden q) * (s * s)) # (Qden q * Z.to_pos s)).

Definition toFixed (d : nat) (x : Q) : Q :=
  let p := 10 ^ Z.of_nat d in
  let n := Qfloor (Qabs x * inject_Z p + (1 # 2)) in
  Qred (if Qle_bool 0 x then n # Z.to_pos p else (- n) # Z.to_pos p).

#[global] Instance number : Number Q := {
  of_Z := inject_Z;
  add := add;
  sub := sub;
  mul := mul;
  div := div;
  neg := Qopp;
  Math_sqrt := sqrt;
  Math_abs := Qabs;
  Math_max := fun a b => if Qle_bool a b then b else a;
  Math_min := fun a b => if Qle_bool a b then a else b;
  ltb := ltb;
  leb := Qle_bool;
  eqb := Qeq_bool;
  truthy := fun x => negb (Qeq_bool x 0);
  toFixed := toFixed
}.

End Exact.

(** ** Timestamps

    The timestamp of a candle is a number of milliseconds in every answer
    of a source.  [generateDemoData] counts it in steps of
    [msMap[timeframe] || 14400000], which is a number of milliseconds or,
    for a timeframe that names a property of [Object.prototype], that
    property: a function or an object.  A product with it is [NaN], and
    [ts += intervalMs] then appends the text of the property to the text of
    [ts], so that a timestamp is a number, [NaN] or a text: the text of a
    number ([NaN] for [None]) followed by the texts of the intervals added
    to it.  The numbers are integers below 2^53 in magnitude, on which the
    arithmetic of binary64 is exact. *)

Inductive Interval : Type :=
| Ms (ms : Z)
| Prototype (key : string).

Inductive Timestamp : Type :=
| Time (ms : Z)
| NaN_time
| Text (start : option Z) (parts : list Interval).

Coercion Time : Z >-> Timestamp.

(** [ts + intervalMs] *)
Definition advance (ts : Timestamp) (intervalMs : Interval) : Timestamp :=
  match ts, intervalMs with
  | Time t, Ms ms => Time (t + ms)
  | NaN_time, Ms _ => NaN_time
  | Time t, Prototype _ => Text (Some t) [intervalMs]
  | NaN_time, Prototype _ => Text None [intervalMs]
  | Text start parts, _ => Text start (parts ++ [intervalMs])
  end.

(** [now - limit * intervalMs] *)
Definition back_from (now limit : Z) (intervalMs : Interval) : Timestamp :=
  match intervalMs with
  | Ms ms => Time (now - limit * ms)
  | Prototype _ => NaN_time
  end.

(** ** Candles and indicator values *)

Record Candle (T : Type) : Type := {
  timestamp : Timestamp;
  open : T;
  high : T;
  low : T;
  close : T;
  volume : T
}.

Record Macd (T : Type) : Type := {
  line : option T;
  signal : option T;
  histogram : option T
}.

Record Bands (T : Type) : Type := {
  upper : option T;
  middle : option T;
  lower : option T
}.

Arguments Build_Macd {T} _ _ _.
Arguments Build_Bands {T} _ _ _.

(** ** Technical indicators

    [null] is [None].  A default parameter ([period = 14]) is passed by the
    caller. *)

Section Indicators.

Context {T : Type} `{Number T}.
Local Open Scope js_scope.

Notation "0" := (of_Z 0) : js_scope.
Notation "1" := (of_Z 1) : js_scope.
Notation "2" := (of_Z 2) : js_scope.
Notation "100" := (of_Z 100) : js_scope.

(** [xs.reduce((s, v) => s + v, 0)] *)
Definition sum (xs : list T) : T := fold_left (fun s v => s + v) xs 0.

(** null coerces to 0 in arithmetic *)
Definition num (o : option T) : T :=
  match o with
  | Some v => v
  | None => 0
  end.

Definition sma (prices : list T) (period : Z) : option T :=
  if (len prices <? period)%Z then None
  else Some (sum (slice prices (- period) None) / of_Z period).

Definition ema (prices : list T) (period : Z) : result (option T) :=
  if (len prices <? period)%Z then Ok None
  else
    let k := 2 / (of_Z period + 1) in
    let e := sum (slice prices 0%Z (Some period)) / of_Z period in
    e <- for_range period (len prices)
           (fun i e => p <- get prices i ;; Ok (p * k + e * (1 - k))) e ;;
    Ok (Some e).

Definition rsi (prices : list T) (period : Z) : result (option T) :=
  if (len prices <? period + 1)%Z then Ok None
  else
    '(avgGain, avgLoss) <-
      for_range (len prices - period) (len prices)
        (fun i '(avgGain, avgLoss) =>
           p <- get prices i ;;
           q <- get prices (i - 1)%Z ;;
           let d := p - q in
           Ok (if d >? 0 then (avgGain + d, avgLoss) else (avgGain, avgLoss - d)))
        (0, 0) ;;
    let avgGain := avgGain / of_Z period in
    let avgLoss := avgLoss / of_Z period in
    if avgLoss === 0 then Ok (Some 100)
    else Ok (Some (100 - 100 / (1 + avgGain / avgLoss))).

Definition no_macd : Macd T := Build_Macd None None None.

Definition macd (prices : list T) : result (Macd T) :=
  if (len prices <? 26)%Z then Ok no_macd
  else
    ema12 <- ema prices 12 ;;
    ema26 <- ema prices 26 ;;
    match ema12, ema26 with
    | Some ema12, Some ema26 =>
        let line := ema12 - ema26 in
        let k12 := 2 / of_Z 13 in
        let k26 := 2 / of_Z 27 in
        let e12 := sum (slice prices 0%Z (Some 12%Z)) / of_Z 12 in
        let e26 := sum (slice prices 0%Z (Some 26%Z)) / of_Z 26 in
        e12 <- for_range 12 26
                 (fun i e12 => p <- get prices i ;; Ok (p * k12 + e12 * (1 - k12)))
                 e12 ;;
        '(_, _, macdHistory) <-
          for_range 26 (len prices)
            (fun i '(e12, e26, macdHistory) =>
               p <- get prices i ;;
               let e12 := p * k12 + e12 * (1 - k12) in
               let e26 := p * k26 + e26 * (1 - k26) in
               Ok (e12, e26, macdHistory ++ [e12 - e26]))
            (e12, e26, []) ;;
        signalLine <-
          (if (len macdHistory >=? 9)%Z then
             let k9 := 2 / of_Z 10 in
             let s := sum (slice macdHistory 0%Z (Some 9%Z)) / of_Z 9 in
             s <- for_range 9 (len macdHistory)
                    (fun i s => m <- get macdHistory i ;; Ok (m * k9 + s * (1 - k9)))
                    s ;;
             Ok (Some s)
           else Ok None) ;;
        Ok (Build_Macd (Some line) signalLine
              match signalLine with
              | Some s => Some (line - s)
              | None => None
              end)
    | _, _ => Ok no_macd
    end.

(** [(v - mid) ** 2] is written [(v - mid) * (v - mid)]. *)
Definition sq (x : T) : T := x * x.

Definition bollingerBands (prices : list T) (period : Z) (stdDev : T) : Bands T :=
  if (len prices <? period)%Z then Build_Bands None None None
  else
    let mid := sma prices period in
    let slice := slice prices (- period) None in
    let variance :=
      fold_left (fun s v => s + sq (v - num mid)) slice 0 / of_Z period in
    let sd := Math_sqrt variance in
    Build_Bands (Some (num mid + stdDev * sd)) mid (Some (num mid - stdDev * sd)).

Definition avg (values : list T) : option T :=
  if (len values =? 0)%Z then None
  else Some (sum values / of_Z (len values)).

Definition stdDev (values : list T) : option T :=
  if (len values =? 0)%Z then None
  else
    let mean := avg values in
    let variance :=
      fold_left (fun s v => s + sq (v - num mean)) values 0 / of_Z (len values) in
    Some (Math_sqrt variance).

Definition clamp (value lo hi : T) : T := Math_max lo (Math_min hi value).

(** [if (!base) return null] also covers a [base] read outside the array. *)
Definition momentum (prices : list T) (period : Z) : result (option T) :=
  if (len prices <=? period)%Z then Ok None
  else
    match at_index prices (len prices - 1 - period) with
    | None => Ok None
    | Some base =>
        if truthy base then
          last <- get prices (len prices - 1) ;;
          Ok (Some ((last - base) / base))
        else Ok None
    end.

(** [ohlcv[i].high] on an absent candle is a TypeError. *)
Definition candle (ohlcv : list (Candle T)) (i : Z) : result (Candle T) :=
  match at_index ohlcv i with
  | Some c => Ok c
  | None => Fail (TypeError "cannot read properties of undefined")
  end.

Definition atr (ohlcv : list (Candle T)) (period : Z) : result (option T) :=
  if (len ohlcv <? period + 1)%Z then Ok None
  else
    trs <- for_range (len ohlcv - period) (len ohlcv)
             (fun i trs =>
                c <- candle ohlcv i ;;
                prev <- candle ohlcv (i - 1) ;;
                let high := high c in
                let low := low c in
                let prevClose := close prev in
                let tr := Math_max (Math_max (high - low) (Math_abs (high - prevClose)))
                            (Math_abs (low - prevClose)) in
                Ok (trs ++ [tr]))
             [] ;;
    Ok (avg trs).

End Indicators.

(** ** Signal scoring *)

Inductive Side : Type := BUY | SELL | HOLD.

Inductive Regime : Type := uptrend | downtrend | range.

(** A reason is the text of the source's string or template literal; an
    interpolated [${x.toFixed(d)}] is kept as [Fixed d x]. *)

Inductive piece (T : Type) : Type :=
| Str (s : string)
| Fixed (d : nat) (x : T).

Arguments Str {T} s.
Arguments Fixed {T} d x.

Definition Reason (T : Type) : Type := list (piece T).

Record IndicatorSet (T : Type) : Type := {
  currentPrice : option T;       (* undefined for an empty candle array *)
  ind_rsi : option T;
  ind_macd : Macd T;
  ind_bollingerBands : Bands T;
  ema20 : option T;
  ema50 : option T;
  sma200 : option T;
  atr14 : option T;
  momentum3 : option T;
  momentum10 : option T;
  volatility20 : option T;
  latestVolume : T;
  avgVolume : T;
  volumeRatio : option T
}.

Record ScoreState (T : Type) : Type := {
  buyScore : T;
  sellScore : T;
  buyEvidence : Z;
  sellEvidence : Z;
  reasons : list (Reason T)
}.

Record Indicators (T : Type) : Type := {
  out_rsi : option T;
  out_macd : Macd T;
  out_bollingerBands : Bands T;
  out_ema20 : option T;
  out_ema50 : option T;
  out_sma200 : option T;
  out_atr14 : option T;
  out_momentum3 : option T;
  out_momentum10 : option T;
  out_volatility20 : option T;
  out_volumeRatio : option T
}.

Record Signal (T : Type) : Type := {
  sig_signal : Side;
  confidence : T;
  sig_currentPrice : T;
  entryRange : T * T;            (* low, high *)
  takeProfit1 : T;
  takeProfit1Pct : T;
  takeProfit2 : T;
  takeProfit2Pct : T;
  stopLoss : T;
  stopLossPct : T;
  riskReward : T;
  sig_reasons : list (Reason T);
  indicators : Indicators T;
  sig_timestamp : Z;             (* new Date(), as milliseconds *)
  dataSource : string
}.

Record Assessment (T : Type) : Type := {
  as_price : T;
  as_regime : Regime;
  as_scores : ScoreState T;
  as_threshold : option T
}.

Section Scoring.

Context {T : Type} `{Number T}.
Local Open Scope js_scope.

Notation "0" := (of_Z 0) : js_scope.
Notation "1" := (of_Z 1) : js_scope.
Notation "2" := (of_Z 2) : js_scope.

(** [xs.map((x, i) => f(x, i))] *)
Fixpoint mapi_from {A B : Type} (f : A -> Z -> B) (i : Z) (xs : list A) : list B :=
  match xs with
  | [] => []
  | x :: xs' => f x i :: mapi_from f (i + 1)%Z xs'
  end.

Definition mapi {A B : Type} (f : A -> Z -> B) (xs : list A) : list B :=
  mapi_from f 0%Z xs.

Definition analyzeIndicators (ohlcv : list (Candle T)) : result (IndicatorSet T) :=
  let closes := map (@close T) ohlcv in
  let returns :=
    mapi (fun price i =>
            match at_index closes i with
            | Some prev => if truthy prev then (price - prev) / prev else 0
            | None => 0
            end)
         (slice closes 1%Z None) in
  let recentVols := map (@volume T) (slice ohlcv (-20)%Z None) in
  let latestVolume :=
    match at_index ohlcv (len ohlcv - 1) with
    | Some c => volume c
    | None => 0
    end in
  let avgVolume := num (avg recentVols) in
  let price := at_index closes (len closes - 1) in
  rsiVal <- rsi closes 14 ;;
  macdVal <- macd closes ;;
  let bb := bollingerBands closes 20 2 in
  ema20 <- ema closes 20 ;;
  ema50 <- ema closes 50 ;;
  let sma200 := if (len closes >=? 200)%Z then sma closes 200 else None in
  atr14 <- atr ohlcv 14 ;;
  momentum3 <- momentum closes 3 ;;
  momentum10 <- momentum closes 10 ;;
  Ok {| currentPrice := price;
        ind_rsi := rsiVal;
        ind_macd := macdVal;
        ind_bollingerBands := bb;
        ema20 := ema20;
        ema50 := ema50;
        sma200 := sma200;
        atr14 := atr14;
        momentum3 := momentum3;
        momentum10 := momentum10;
        volatility20 := stdDev (slice returns (-20)%Z None);
        latestVolume := latestVolume;
        avgVolume := avgVolume;
        volumeRatio := if avgVolume >? 0 then Some (latestVolume / avgVolume)
                       else None |}.

(** *** The accumulator and its two closures *)

Definition addBuy (points : T) (reason : Reason T) (st : ScoreState T) : ScoreState T :=
  {| buyScore := buyScore st + points;
     sellScore := sellScore st;
     buyEvidence := (buyEvidence st + 1)%Z;
     sellEvidence := sellEvidence st;
     reasons := reasons st ++ [reason] |}.

Definition addSell (points : T) (reason : Reason T) (st : ScoreState T) : ScoreState T :=
  {| buyScore := buyScore st;
     sellScore := sellScore st + points;
     buyEvidence := buyEvidence st;
     sellEvidence := (sellEvidence st + 1)%Z;
     reasons := reasons st ++ [reason] |}.

Definition push (reason : Reason T) (st : ScoreState T) : ScoreState T :=
  {| buyScore := buyScore st;
     sellScore := sellScore st;
     buyEvidence := buyEvidence st;
     sellEvidence := sellEvidence st;
     reasons := reasons st ++ [reason] |}.

(** [buyScore *= f; sellScore *= f] *)
Definition scale (f : T) (st : ScoreState T) : ScoreState T :=
  {| buyScore := buyScore st * f;
     sellScore := sellScore st * f;
     buyEvidence := buyEvidence st;
     sellEvidence := sellEvidence st;
     reasons := reasons st |}.

Definition set_scores (b s : T) (st : ScoreState T) : ScoreState T :=
  {| buyScore := b;
     sellScore := s;
     buyEvidence := buyEvidence st;
     sellEvidence := sellEvidence st;
     reasons := reasons st |}.

Definition initial : ScoreState T :=
  {| buyScore := 0; sellScore := 0; buyEvidence := 0; sellEvidence := 0;
     reasons := [] |}.

(** *** Regime detection *)

Definition trendBias (ema20 ema50 : option T) (price : T) : T :=
  match ema20, ema50 with
  | Some e20, Some e50 => (e20 - e50) / price
  | _, _ => 0
  end.

Definition regimeOf (trendBias : T) : Regime :=
  let strongTrend := Math_abs trendBias >=? dec 12 1000 in
  if strongTrend then (if trendBias >? 0 then uptrend else downtrend) else range.

Definition regimeRule (regime : Regime) (st : ScoreState T) : ScoreState T :=
  push match regime with
       | range =>
           [Str "Market regime: ranging - mean reversion signals weighted higher"]
       | uptrend =>
           [Str "Market regime: uptrend - trend-following signals weighted higher"]
       | downtrend =>
           [Str "Market regime: downtrend - trend-following signals weighted higher"]
       end st.

(** *** Rules, in evaluation order *)

Definition rsiRule (regime : Regime) (rsiVal : option T) (st : ScoreState T)
  : ScoreState T :=
  match rsiVal with
  | None => st
  | Some rsiVal =>
      let r := Fixed 1 rsiVal in
      match regime with
      | uptrend =>
          if rsiVal <? of_Z 38 then
            addBuy (dec 16 10)
              [Str "RSI("; r; Str ") pullback in uptrend - dip-buy setup"] st
          else if rsiVal >? of_Z 78 then
            addSell (dec 12 10)
              [Str "RSI("; r; Str ") extended in uptrend - short-term exhaustion risk"] st
          else push [Str "RSI("; r; Str ") healthy for uptrend continuation"] st
      | downtrend =>
          if rsiVal >? of_Z 62 then
            addSell (dec 16 10)
              [Str "RSI("; r; Str ") bounce in downtrend - sell-the-rally setup"] st
          else if rsiVal <? of_Z 22 then
            addBuy (dec 11 10)
              [Str "RSI("; r; Str ") deeply oversold - relief bounce possible"] st
          else push [Str "RSI("; r; Str ") neutral within downtrend"] st
      | range =>
          if rsiVal <? of_Z 30 then
            addBuy (dec 18 10)
              [Str "RSI("; r; Str ") oversold in range - bullish mean reversion"] st
          else if rsiVal >? of_Z 70 then
            addSell (dec 18 10)
              [Str "RSI("; r; Str ") overbought in range - bearish mean reversion"] st
          else push [Str "RSI("; r; Str ") neutral in ranging market"] st
      end
  end.

Definition macdRule (macdVal prevMacd : Macd T) (st : ScoreState T) : ScoreState T :=
  match histogram macdVal with
  | None => st
  | Some histNow =>
      let histPrev := histogram prevMacd in
      if (histNow >? 0) && (num (line macdVal) >? num (signal macdVal)) then
        match histPrev with
        | Some histPrev =>
            if histPrev <=? 0 then
              addBuy (dec 19 10)
                [Str "MACD fresh bullish crossover - momentum shift upward"] st
            else if histNow >? histPrev then
              addBuy (dec 14 10) [Str "MACD bullish momentum is strengthening"] st
            else addBuy (dec 11 10) [Str "MACD remains bullish"] st
        | None => addBuy (dec 11 10) [Str "MACD remains bullish"] st
        end
      else if (histNow <? 0) && (num (line macdVal) <? num (signal macdVal)) then
        match histPrev with
        | Some histPrev =>
            if histPrev >=? 0 then
              addSell (dec 19 10)
                [Str "MACD fresh bearish crossover - momentum shift downward"] st
            else if histNow <? histPrev then
              addSell (dec 14 10) [Str "MACD bearish momentum is strengthening"] st
            else addSell (dec 11 10) [Str "MACD remains bearish"] st
        | None => addSell (dec 11 10) [Str "MACD remains bearish"] st
        end
      else push [Str "MACD near equilibrium - weak momentum conviction"] st
  end.

Definition bollingerTouchRule (regime : Regime) (bb : Bands T) (price : T)
    (st : ScoreState T) : ScoreState T :=
  match lower bb, middle bb, upper bb with
  | Some lo, Some mid, Some up =>
      if price <=? lo then
        let points := match regime with downtrend => dec 8 10 | _ => dec 14 10 end in
        addBuy points
          [Str "Price touched lower Bollinger Band ($"; Fixed 2 lo;
           Str ") - downside stretch"] st
      else if price >=? up then
        let points := match regime with uptrend => dec 8 10 | _ => dec 14 10 end in
        addSell points
          [Str "Price touched upper Bollinger Band ($"; Fixed 2 up;
           Str ") - upside stretch"] st
      else st
  | _, _, _ => st
  end.

Definition bollingerWidthRule (bb : Bands T) (st : ScoreState T) : ScoreState T :=
  match lower bb, middle bb, upper bb with
  | Some lo, Some mid, Some up =>
      let bandWidth := (up - lo) / mid in
      if bandWidth <? dec 4 100 then
        scale (dec 95 100)
          (push [Str "Bollinger bandwidth compressed - breakout risk rising, confidence moderated"]
             st)
      else st
  | _, _, _ => st
  end.

Definition emaRule (ema20 ema50 : option T) (price : T) (st : ScoreState T)
  : ScoreState T :=
  match ema20, ema50 with
  | Some e20, Some e50 =>
      if (price >? e20) && (e20 >? e50) then
        addBuy (dec 15 10) [Str "Price above EMA20 > EMA50 - bullish structure intact"] st
      else if (price <? e20) && (e20 <? e50) then
        addSell (dec 15 10) [Str "Price below EMA20 < EMA50 - bearish structure intact"] st
      else push [Str "EMA structure mixed - trend conviction reduced"] st
  | _, _ => st
  end.

Definition sma200Rule (sma200 : option T) (price : T) (st : ScoreState T)
  : ScoreState T :=
  match sma200 with
  | Some s =>
      if price >? s then
        addBuy (dec 7 10) [Str "Price above SMA200 - long-term trend support"] st
      else addSell (dec 7 10) [Str "Price below SMA200 - long-term trend pressure"] st
  | None => st
  end.

Definition momentumRule (momentum3 momentum10 : option T) (st : ScoreState T)
  : ScoreState T :=
  match momentum3, momentum10 with
  | Some m3, Some m10 =>
      if (m3 >? 0) && (m10 >? 0) then
        addBuy (dec 11 10) [Str "Short and medium-term momentum aligned upward"] st
      else if (m3 <? 0) && (m10 <? 0) then
        addSell (dec 11 10) [Str "Short and medium-term momentum aligned downward"] st
      else
        push [Str "Momentum mixed across time windows - possible transition phase"] st
  | _, _ => st
  end.

Definition volumeRule (volumeRatio : option T) (st : ScoreState T) : ScoreState T :=
  match volumeRatio with
  | Some v =>
      if v >? dec 16 10 then
        let st := push [Str "Volume spike ("; Fixed 2 v;
                        Str "x avg) - move conviction higher"] st in
        if buyScore st >? sellScore st then
          set_scores (buyScore st + dec 6 10) (sellScore st) st
        else if sellScore st >? buyScore st then
          set_scores (buyScore st) (sellScore st + dec 6 10) st
        else st
      else if v <? dec 75 100 then
        scale (dec 93 100)
          (push [Str "Volume below average ("; Fixed 2 v;
                 Str "x) - breakout reliability lower"] st)
      else st
  | None => st
  end.

(** Contradiction penalty when evidence is split *)
Definition contradictionRule (st : ScoreState T) : ScoreState T :=
  if (buyScore st >? 0) && (sellScore st >? 0) then
    let overlap := Math_min (buyScore st) (sellScore st) * dec 35 100 in
    push [Str "Bullish and bearish evidence both present - applied contradiction penalty"]
      (set_scores (buyScore st - overlap) (sellScore st - overlap) st)
  else st.

(** *** The scoring pass

    The statements of [generateSignal] between the declaration of the
    accumulator and the threshold, one step each, in source order. *)

Definition scoringSteps (ind : IndicatorSet T) (prevMacd : Macd T) (price : T)
    (regime : Regime) : list (ScoreState T -> ScoreState T) :=
  [ regimeRule regime;
    rsiRule regime (ind_rsi ind);
    macdRule (ind_macd ind) prevMacd;
    bollingerTouchRule regime (ind_bollingerBands ind) price;
    bollingerWidthRule (ind_bollingerBands ind);
    emaRule (ema20 ind) (ema50 ind) price;
    sma200Rule (sma200 ind) price;
    momentumRule (momentum3 ind) (momentum10 ind);
    volumeRule (volumeRatio ind);
    contradictionRule ].

Definition run (steps : list (ScoreState T -> ScoreState T)) (st : ScoreState T)
  : ScoreState T :=
  fold_left (fun st step => step st) steps st.

Definition scoringPass (ind : IndicatorSet T) (prevMacd : Macd T) (price : T)
    (regime : Regime) : ScoreState T :=
  run (scoringSteps ind prevMacd price regime) initial.

(** *** Threshold and decision

    A threshold found on [Object.prototype] is not a number ([None]): every
    comparison with it is false. *)

Definition thresholds : list (string * T) :=
  [ ("conservative", dec 49 10); ("moderate", dec 36 10);
    ("aggressive", dec 26 10) ]%string.

Definition thresholdOf (riskTolerance : string) (regime : Regime)
    (volatility20 : option T) : option T :=
  let threshold :=
    match property thresholds riskTolerance with
    | Own t => Some (if truthy t then t else dec 36 10)
    | Inherited => None
    | Missing => Some (dec 36 10)
    end in
  let threshold :=
    match regime with
    | range => option_map (fun t => t + dec 2 10) threshold
    | _ => threshold
    end in
  match volatility20 with
  | Some v =>
      if v >? dec 25 1000 then option_map (fun t => t + dec 2 10) threshold
      else threshold
  | None => threshold
  end.

Definition reaches (score : T) (threshold : option T) : bool :=
  match threshold with
  | Some t => score >=? t
  | None => false
  end.

Definition edgeOf (st : ScoreState T) : T := Math_abs (buyScore st - sellScore st).

Definition decide (st : ScoreState T) (threshold : option T) : Side :=
  let edge := edgeOf st in
  if reaches (buyScore st) threshold && (buyScore st >? sellScore st)
     && (edge >=? dec 9 10) then BUY
  else if reaches (sellScore st) threshold && (sellScore st >? buyScore st)
          && (edge >=? dec 9 10) then SELL
  else HOLD.

Definition confidenceOf (signal : Side) (st : ScoreState T) : T :=
  let edge := edgeOf st in
  let dominantScore := Math_max (buyScore st) (sellScore st) in
  match signal with
  | HOLD => clamp (of_Z 42 + edge * of_Z 6) (of_Z 40) (of_Z 65)
  | _ =>
      let evidenceCount :=
        match signal with BUY => buyEvidence st | _ => sellEvidence st end in
      clamp (dominantScore * of_Z 13 + edge * of_Z 16 + of_Z evidenceCount * 2)
        (of_Z 55) (of_Z 95)
  end.

(** *** Targets *)

Definition targets : list (string * (T * T * T)) :=
  [ ("scalp", (dec 1 100, dec 2 100, dec 5 1000));
    ("swing", (dec 3 100, dec 8 100, dec 15 1000));
    ("position", (dec 10 100, dec 20 100, dec 3 100)) ]%string.

(** [const [tp1Pct, tp2Pct, slPct] = targets[signalType] || targets.swing]:
    a value inherited from [Object.prototype] is truthy and not iterable. *)
Definition targetsOf (signalType : string) : result (T * T * T) :=
  match property targets signalType with
  | Own t => Ok t
  | Missing => Ok (dec 3 100, dec 8 100, dec 15 1000)
  | Inherited => Fail (TypeError "targets[signalType] is not iterable")
  end.

Definition dirOf (signal : Side) : T :=
  match signal with SELL => of_Z (-1) | _ => 1 end.

Definition atrPctOf (atr14 : option T) (price : T) : option T :=
  match atr14 with
  | Some a => Some (a / price)
  | None => None
  end.

Definition entryPadPctOf (atrPct : option T) : T :=
  clamp match atrPct with Some a => a * dec 3 10 | None => dec 2 1000 end
    (dec 15 10000) (dec 8 1000).

Definition dynamicSlPctOf (atrPct : option T) (slPct : T) : T :=
  clamp match atrPct with Some a => Math_max slPct (a * dec 11 10) | None => slPct end
    (slPct * dec 85 100) (slPct * dec 19 10).

(** [x || 0] *)
Definition or_zero (x : T) : T := if truthy x then x else 0.

Definition riskRewardOf (signal : Side) (price tp2 sl : T) : T :=
  match signal with
  | HOLD => 0
  | _ => toFixed 2 (or_zero (Math_abs (tp2 - price) / Math_abs (price - sl)))
  end.

Definition display (ind : IndicatorSet T) : Indicators T :=
  let macdVal := ind_macd ind in
  let bb := ind_bollingerBands ind in
  {| out_rsi := option_map (toFixed 2) (ind_rsi ind);
     out_macd := Build_Macd (option_map (toFixed 4) (line macdVal))
                   (option_map (toFixed 4) (signal macdVal))
                   (option_map (toFixed 4) (histogram macdVal));
     out_bollingerBands := Build_Bands (option_map (toFixed 2) (upper bb))
                             (option_map (toFixed 2) (middle bb))
                             (option_map (toFixed 2) (lower bb));
     out_ema20 := option_map (toFixed 2) (ema20 ind);
     out_ema50 := option_map (toFixed 2) (ema50 ind);
     out_sma200 := option_map (toFixed 2) (sma200 ind);
     out_atr14 := option_map (toFixed 4) (atr14 ind);
     out_momentum3 := option_map (fun m => toFixed 2 (m * of_Z 100)) (momentum3 ind);
     out_momentum10 := option_map (fun m => toFixed 2 (m * of_Z 100)) (momentum10 ind);
     out_volatility20 :=
       option_map (fun v => toFixed 2 (v * of_Z 100)) (volatility20 ind);
     out_volumeRatio := option_map (toFixed 2) (volumeRatio ind) |}.

Definition holdReason : Reason T :=
  [Str "Insufficient directional edge after confluence check - wait for confirmation"].

(** *** generateSignal

    [now] is the clock read by [new Date()].  With an empty candle array
    [price] is [undefined]: every use of it before the [return] is guarded
    by a null indicator or is arithmetic that yields [NaN], and the first
    statement that throws is [price.toFixed(2)] in the returned object,
    after the destructuring of [targets[signalType]]. *)

Definition prevMacdOf (closes : list T) : result (Macd T) :=
  if (len closes >? 30)%Z then macd (slice closes 0%Z (Some (-1)%Z))
  else Ok no_macd.

Definition generateSignal (ohlcv : list (Candle T)) (signalType riskTolerance : string)
    (now : Z) : result (Signal T) :=
  let closes := map (@close T) ohlcv in
  ind <- analyzeIndicators ohlcv ;;
  prevMacd <- prevMacdOf closes ;;
  match currentPrice ind with
  | None =>
      _ <- targetsOf signalType ;;
      Fail (TypeError "cannot read properties of undefined (reading 'toFixed')")
  | Some price =>
      let regime := regimeOf (trendBias (ema20 ind) (ema50 ind) price) in
      let st := scoringPass ind prevMacd price regime in
      let threshold := thresholdOf riskTolerance regime (volatility20 ind) in
      let signal := decide st threshold in
      let confidence := confidenceOf signal st in
      let st := match signal with HOLD => push holdReason st | _ => st end in
      '(tp1Pct, tp2Pct, slPct) <- targetsOf signalType ;;
      let dir := dirOf signal in
      let atrPct := atrPctOf (atr14 ind) price in
      let entryPadPct := entryPadPctOf atrPct in
      let dynamicSlPct := dynamicSlPctOf atrPct slPct in
      let entryLow := toFixed 2 (price * (1 - entryPadPct)) in
      let entryHigh := toFixed 2 (price * (1 + entryPadPct)) in
      let tp1 := toFixed 2 (price * (1 + dir * tp1Pct)) in
      let tp2 := toFixed 2 (price * (1 + dir * tp2Pct)) in
      let sl := toFixed 2 (price * (1 - dir * dynamicSlPct)) in
      let riskReward := riskRewardOf signal price tp2 sl in
      Ok {| sig_signal := signal;
            confidence := toFixed 1 confidence;
            sig_currentPrice := toFixed 2 price;
            entryRange := (entryLow, entryHigh);
            takeProfit1 := tp1;
            takeProfit1Pct := toFixed 2 (dir * tp1Pct * of_Z 100);
            takeProfit2 := tp2;
            takeProfit2Pct := toFixed 2 (dir * tp2Pct * of_Z 100);
            stopLoss := sl;
            stopLossPct := toFixed 2 (neg dir * dynamicSlPct * of_Z 100);
            riskReward := riskReward;
            sig_reasons := reasons st;
            indicators := display ind;
            sig_timestamp := now;
            dataSource := "live" |}
  end.

(** What [generateSignal] holds when it reaches the decision: the raw
    price, the regime, the accumulator after the contradiction penalty
    and the threshold ([None] for an empty candle array). *)
Definition assess (ohlcv : list (Candle T)) (riskTolerance : string)
  : result (option (Assessment T)) :=
  let closes := map (@close T) ohlcv in
  ind <- analyzeIndicators ohlcv ;;
  prevMacd <- prevMacdOf closes ;;
  match currentPrice ind with
  | None => Ok None
  | Some price =>
      let regime := regimeOf (trendBias (ema20 ind) (ema50 ind) price) in
      Ok (Some {| as_price := price;
                  as_regime := regime;
                  as_scores := scoringPass ind prevMacd price regime;
                  as_threshold := thresholdOf riskTolerance regime (volatility20 ind) |})
  end.

End Scoring.

(** ** The synthetic candle generator

    [generateDemoData] is embedded on binary64 itself, since a base price
    found on [Object.prototype] turns every price into [NaN].  [seed] is an
    integer below 2^53 in magnitude throughout, so its arithmetic is exact
    and is done in [Z]; [%] is the remainder with the sign of the dividend
    ([Z.rem]).  Strings are sequences of character codes below 256.  [now]
    is the value of [Date.now()]. *)

Module Demo.

Import Float64.
Local Open Scope js_scope.

Definition toInt32 (z : Z) : Z := ((z + 2 ^ 31) mod 2 ^ 32 - 2 ^ 31)%Z.

Definition charCode (ch : ascii) : Z := Z.of_nat (nat_of_ascii ch).

(** [for (const ch of symbol + timeframe)
       seed = ((seed << 5) - seed + ch.charCodeAt(0)) | 0] *)
Definition hashSeed (text : string) : Z :=
  fold_left (fun seed ch => toInt32 (toInt32 (seed * 32) - seed + charCode ch)%Z)
    (list_ascii_of_string text) 0%Z.

(** [rand]: the new seed and the value returned *)
Definition rand (seed : Z) : Z * float :=
  let seed := Z.rem (seed * 16807 + 0) 2147483647 in
  (seed, of_Z (Z.land seed 2147483647) / of_Z 2147483647).

Definition basePrices : list (string * float) :=
  [ ("BTCUSDT", of_Z 96500); ("ETHUSDT", of_Z 2700); ("SOLUSDT", of_Z 195);
    ("BNBUSDT", of_Z 640); ("XRPUSDT", dec 265 100); ("ADAUSDT", dec 78 100);
    ("AVAXUSDT", of_Z 36); ("DOGEUSDT", dec 26 100) ]%string.

Definition msMap : list (string * Z) :=
  [ ("15m", 900000); ("1h", 3600000); ("4h", 14400000); ("1d", 86400000) ]%string%Z.

Definition basePriceOf (symbol : string) : float :=
  match property basePrices symbol with
  | Own p => if truthy p then p else of_Z 50000
  | Missing => of_Z 50000
  | Inherited => PrimFloat.nan
  end.

Definition intervalMsOf (timeframe : string) : Interval :=
  match property msMap timeframe with
  | Own ms => Ms (if (ms =? 0)%Z then 14400000 else ms)%Z
  | Missing => Ms 14400000%Z
  | Inherited => Prototype timeframe
  end.

(** The variables the loop body assigns: [seed], [price], [ts], [ohlcv]. *)
Record LoopState : Type := {
  seed : Z;
  price : float;
  ts : Timestamp;
  ohlcv : list (Candle float)
}.

Definition step (trend volatility : float) (intervalMs : Interval) (st : LoopState)
  : LoopState :=
  let '(seed, r) := rand (seed st) in
  let change := (r - dec 5 10 + trend * dec 2 1000) * volatility in
  let price := price st * (of_Z 1 + change) in
  let '(seed, r) := rand seed in
  let high := price * (of_Z 1 + r * volatility * dec 5 10) in
  let '(seed, r) := rand seed in
  let low := price * (of_Z 1 - r * volatility * dec 5 10) in
  let '(seed, r) := rand seed in
  let close := low + r * (high - low) in
  let '(seed, r) := rand seed in
  let c := {| timestamp := ts st; open := price; high := high; low := low;
              close := close; volume := of_Z 100000 + r * of_Z 400000 |} in
  {| seed := seed; price := close; ts := advance (ts st) intervalMs;
     ohlcv := ohlcv st ++ [c] |}.

Definition generateDemoData (symbol timeframe : string) (limit now : Z)
  : result (list (Candle float)) :=
  let price := basePriceOf symbol in
  let seed := hashSeed (symbol ++ timeframe) in
  let '(seed, r) := rand seed in
  let trend := if r >? dec 5 10 then of_Z 1 else of_Z (-1) in
  let '(seed, r) := rand seed in
  let volatility := dec 1 100 + r * dec 2 100 in
  let intervalMs := intervalMsOf timeframe in
  let ts := back_from now limit intervalMs in
  st <- for_range 0 limit (fun _ st => Ok (step trend volatility intervalMs st))
          {| seed := seed; price := price; ts := ts; ohlcv := [] |} ;;
  Ok (ohlcv st).

End Demo.

(** ** Sample inputs *)

(** A candle whose five prices are [x], with a given volume. *)
Definition bar {T : Type} (x v : T) : Candle T :=
  {| timestamp := 0; open := x; high := x; low := x; close := x; volume := v |}.

Definition one_candle : list (Candle float) := [bar (Float64.of_Z 100) (Float64.of_Z 1)].

Definition bars {T : Type} `{Number T} (closes : list Z) : list (Candle T) :=
  map (fun x => bar (of_Z x) (of_Z 1)) closes.

(** 300 strictly increasing closes: a rise of 100 a bar from 100000 to
    127900, nineteen bars that gain 1 each, and a last bar that gains 100 on
    a volume a hundred times the usual. *)
Definition slowing_rise_close (i : Z) : Z :=
  if i <? 280 then 100000 + 100 * i
  else if i <? 299 then 127900 + (i - 279)
  else 128019.

Definition slowing_rise {T : Type} `{Number T} : list (Candle T) :=
  map (fun i => bar (of_Z (slowing_rise_close i)) (of_Z (if i =? 299 then 100 else 1)))
      (map Z.of_nat (seq 0 300)).

(** 60 closes, in halves: flat at 92, then sixteen bars that lose 0.5 and
    gain 1.5 in turn and end at 100. *)
Definition rally {T : Type} `{Number T} : list (Candle T) :=
  map (fun x => bar (div (of_Z x) (of_Z 2)) (of_Z 1))
      (repeat 184 44
       ++ [183; 186; 185; 188; 187; 190; 189; 192; 191; 194; 193; 196; 195; 198;
           197; 200]).

(** 50 closes that end a sideways market on a rise: the buy side scores 2.88
    against 2.08, above the threshold of 2.8 and with an edge of 0.8. *)
Definition split_evidence {T : Type} `{Number T} : list (Candle T) :=
  bars [100; 97; 96; 96; 94; 92; 95; 98; 99; 101; 99; 102; 103; 104; 103; 102; 103;
        103; 101; 101; 98; 97; 98; 99; 99; 97; 99; 98; 96; 93; 93; 90; 92; 93; 93; 95;
        97; 97; 100; 98; 99; 98; 100; 99; 98; 100; 99; 101; 104; 106].

(** 40 closes of a decline that levels off: the buy side scores 2.815
    against 0.715. *)
Definition quiet_buy {T : Type} `{Number T} : list (Candle T) :=
  bars [100; 102; 103; 101; 99; 98; 96; 94; 93; 93; 91; 93; 93; 94; 96; 94; 92; 90;
        89; 91; 91; 89; 91; 90; 88; 90; 88; 86; 85; 85; 85; 84; 83; 84; 85; 85; 85; 85;
        83; 84].

(** Strictly increasing, by the source's own [<]. *)
Fixpoint increasing {T : Type} `{Number T} (xs : list T) : bool :=
  match xs with
  | x :: (y :: _) as rest => ltb x y && increasing rest
  | _ => true
  end.

(** A timestamp moved by [d] milliseconds when it is a number, and left as
    it is when it is not. *)
Definition shift (d : Z) (ts : Timestamp) : Timestamp :=
  match ts with
  | Time t => Time (t + d)
  | _ => ts
  end.

Definition shifted {T : Type} (d : Z) (c : Candle T) : Candle T :=
  {| timestamp := shift d (timestamp c); open := open c; high := high c; low := low c;
     close := close c; volume := volume c |}.

Definition numeric (ts : Timestamp) : bool :=
  match ts with
  | Time _ => true
  | _ => false
  end.

(** ** Comparison laws

    What the decision needs of [<] and [<=]: they are never both true in
    opposite directions.  It holds of binary64, NaN included. *)

Class OrderLaws (T : Type) `{Number T} : Prop := {
  ltb_leb : forall a b : T, ltb a b = true -> leb b a = false
}.

Arguments OrderLaws T {_}.

(** Two runs of the loop that differ by the clock only. *)
Definition same_but_clock (d : Z) (s1 s2 : Demo.LoopState) : Prop :=
  Demo.seed s2 = Demo.seed s1 /\ Demo.price s2 = Demo.price s1
  /\ Demo.ts s2 = shift d (Demo.ts s1)
  /\ Demo.ohlcv s2 = map (shifted d) (Demo.ohlcv s1).

(** Whether every timestamp met so far is a number, or none is. *)
Definition stamps (b : bool) (st : Demo.LoopState) : Prop :=
  numeric (Demo.ts st) = b
  /\ Forall (fun c => numeric (timestamp c) = b) (Demo.ohlcv st).

(** ** Insufficient history

    What "an indicator too short to compute is null" says of the indicator
    block of a result computed from [n] candles. *)

Definition nulls_when_short {T : Type} (n : Z) (i : Indicators T) : Prop :=
  (n < 15 -> out_rsi i = None /\ out_atr14 i = None)
  /\ (n < 26 -> out_macd i = Build_Macd None None None)
  /\ (n < 35 -> signal (out_macd i) = None /\ histogram (out_macd i) = None)
  /\ (n < 20 -> out_bollingerBands i = Build_Bands None None None
                /\ out_ema20 i = None)
  /\ (n < 50 -> out_ema50 i = None)
  /\ (n < 200 -> out_sma200 i = None)
  /\ (n <= 3 -> out_momentum3 i = None)
  /\ (n <= 10 -> out_momentum10 i = None)
  /\ (n <= 1 -> out_volatility20 i = None).

(** ** The CoinGecko source

    [fetchFromCoinGecko] after [await res.json()]: [data] is the body of the
    [market_chart] answer, whose [prices] and [total_volumes] are arrays of
    [[timestamp, value]] pairs, either of which may be absent.  The request
    itself (the URL, the status check) is not embedded. *)

Record MarketChart (T : Type) : Type := {
  prices : option (list (Z * T));
  total_volumes : option (list (Z * T))
}.

Section Sources.

Context {T : Type} `{Number T}.
Local Open Scope js_scope.

(** [x || []] *)
Definition or_empty {A : Type} (x : option (list A)) : list A :=
  match x with
  | Some l => l
  | None => []
  end.

Definition fetchFromCoinGecko (data : MarketChart T) (limit : Z) : list (Candle T) :=
  let prices := or_empty (prices data) in
  let volumes := or_empty (total_volumes data) in
  mapi (fun p i =>
          {| timestamp := Time (fst p);
             open := snd p;
             high := snd p * dec 1005 1000;
             low := snd p * dec 995 1000;
             close := snd p;
             volume := match at_index volumes i with
                       | Some v => snd v
                       | None => of_Z 0
                       end |})
       (slice prices (- limit) None).

End Sources.

(** ** The chain of sources

    [fetchOHLCV] with the outcome of its two requests given: each is settled,
    either fulfilled with its answer or rejected (the request failed, the
    status was not ok, the body could not be read).  Binance's answer is
    taken as the candles [fetchFromBinance] builds from it. *)

Inductive settled (A : Type) : Type :=
| fulfilled (value : A)
| rejected.

Arguments fulfilled {A} value.
Arguments rejected {A}.

Definition fetchOHLCV (binance : settled (list (Candle float)))
    (gecko : settled (MarketChart float)) (symbol timeframe : string) (limit now : Z)
  : result (list (Candle float)) :=
  match binance with
  | fulfilled candles => Ok candles
  | rejected =>
      match gecko with
      | fulfilled data => Ok (fetchFromCoinGecko data limit)
      | rejected => Demo.generateDemoData symbol timeframe limit now
      end
  end.

(** ** The request handler's options (pages/api/signal.js)

    A request parameter is absent ([None]) or a string.  [param] is
    [String(x || fallback)] after the destructuring default. *)

Module Handler.

Local Open Scope string_scope.







End Handler.

(** A candle without the two fields no indicator reads. *)
Definition priced {T : Type} `{Number T} (c : Candle T) : Candle T :=
  {| timestamp := 0; open := of_Z 0; high := high c; low := low c; close := close c;
     volume := volume c |}.

(** The regime line, the first reason of every signal. *)
Definition regimeReason {T : Type} (regime : Regime) : Reason T :=
  match regime with
  | range => [Str "Market regime: ranging - mean reversion signals weighted higher"]
  | uptrend => [Str "Market regime: uptrend - trend-following signals weighted higher"]
  | downtrend =>
      [Str "Market regime: downtrend - trend-following signals weighted higher"]
  end%string.

(** A step of the scoring pass leaves the reasons as they are or appends
    one, which is not the reason given for HOLD. *)
Definition appends_at_most_one {T : Type} (step : ScoreState T -> ScoreState T) : Prop :=
  forall st, reasons (step st) = reasons st
             \/ exists r, reasons (step st) = reasons st ++ [r] /\ r <> @holdReason T.

Unset Implicit Arguments.

(** ** The scores a pass can reach

    The points a rule gives are literals: its indicators decide only which
    branch is taken.  [erase] forgets the text of the reasons, and
    [outcomes] lists for each step of the pass what its branches do to an
    accumulator without text, so that [always] can try a property on every
    accumulator the steps can end in. *)

Section Outcomes.

Context {T : Type} `{Number T}.
Local Open Scope js_scope.

Definition erase (st : ScoreState T) : ScoreState T :=
  {| buyScore := buyScore st;
     sellScore := sellScore st;
     buyEvidence := buyEvidence st;
     sellEvidence := sellEvidence st;
     reasons := map (fun _ => []) (reasons st) |}.

Definition keep (st : ScoreState T) : ScoreState T := st.

Definition spike (st : ScoreState T) : ScoreState T :=
  let st := push [] st in
  if buyScore st >? sellScore st then
    set_scores (buyScore st + dec 6 10) (sellScore st) st
  else if sellScore st >? buyScore st then
    set_scores (buyScore st) (sellScore st + dec 6 10) st
  else st.

Definition moderated (f : T) (st : ScoreState T) : ScoreState T := scale f (push [] st).

Definition penalty (st : ScoreState T) : ScoreState T := erase (contradictionRule st).

Definition outcomes (regime : Regime) : list (list (ScoreState T -> ScoreState T)) :=
  [ [push []];
    match regime with
    | uptrend => [keep; addBuy (dec 16 10) []; addSell (dec 12 10) []; push []]
    | downtrend => [keep; addSell (dec 16 10) []; addBuy (dec 11 10) []; push []]
    | range => [keep; addBuy (dec 18 10) []; addSell (dec 18 10) []; push []]
    end;
    [keep; addBuy (dec 19 10) []; addBuy (dec 14 10) []; addBuy (dec 11 10) [];
     addSell (dec 19 10) []; addSell (dec 14 10) []; addSell (dec 11 10) []; push []];
    [keep;
     addBuy (match regime with downtrend => dec 8 10 | _ => dec 14 10 end) [];
     addSell (match regime with uptrend => dec 8 10 | _ => dec 14 10 end) []];
    [keep; moderated (dec 95 100)];
    [keep; addBuy (dec 15 10) []; addSell (dec 15 10) []; push []];
    [keep; addBuy (dec 7 10) []; addSell (dec 7 10) []];
    [keep; addBuy (dec 11 10) []; addSell (dec 11 10) []; push []];
    [keep; spike; moderated (dec 93 100)];
    [penalty] ].

(** Whether [P] holds of every accumulator that the branches of the given
    steps lead to from [st]. *)
Fixpoint always (effects : list (list (ScoreState T -> ScoreState T)))
    (P : ScoreState T -> bool) (st : ScoreState T) : bool :=
  match effects with
  | [] => P st
  | fs :: rest => forallb (fun f => always rest P (f st)) fs
  end.

(** A step of the pass does what one of the listed branches does. *)
Definition follows (step : ScoreState T -> ScoreState T)
    (fs : list (ScoreState T -> ScoreState T)) : Prop :=
  forall st, In (erase (step st)) (map (fun f => f (erase st)) fs).

(** The thresholds a risk tolerance can give in a regime: the three of the
    table, the fallback, and none for a name found on [Object.prototype];
    each as it is and raised for a high volatility. *)
Definition thresholdsIn (regime : Regime) : list (option T) :=
  flat_map (fun riskTolerance =>
              [thresholdOf riskTolerance regime None;
               thresholdOf riskTolerance regime (Some (of_Z 1))])
           ["conservative"; "moderate"; "aggressive"; "constructor"]%string.

End Outcomes.

(** ** What is tried on every outcome *)

Section Checks.

Context {T : Type} `{Number T}.
Local Open Scope js_scope.

Definition regimes : list Regime := [uptrend; downtrend; range].

Definition nonnegative (st : ScoreState T) : bool :=
  (of_Z 0 <=? buyScore st) && (of_Z 0 <=? sellScore st).

Definition confident (st : ScoreState T) : bool :=
  forallb (fun side =>
             let c := toFixed 1 (confidenceOf side st) in
             match side with
             | HOLD => (of_Z 42 <=? c) && (c <=? of_Z 65)
             | _ => (of_Z 55 <=? c) && (c <=? of_Z 95)
             end)
          [BUY; SELL; HOLD].

Definition twice_indicated (regime : Regime) (st : ScoreState T) : bool :=
  forallb (fun threshold =>
             match decide st threshold with
             | BUY => (2 <=? buyEvidence st)%Z && (3 <=? len (reasons st))%Z
             | SELL => (2 <=? sellEvidence st)%Z && (3 <=? len (reasons st))%Z
             | HOLD => true
             end)
          (thresholdsIn regime).

Definition same_trade (stricter looser : Side) : bool :=
  match stricter, looser with
  | HOLD, _ | BUY, BUY | SELL, SELL => true
  | _, _ => false
  end.

Definition graded (regime : Regime) (st : ScoreState T) : bool :=
  forallb (fun v =>
             same_trade (decide st (thresholdOf "conservative" regime v))
                        (decide st (thresholdOf "moderate" regime v))
             && same_trade (decide st (thresholdOf "moderate" regime v))
                           (decide st (thresholdOf "aggressive" regime v)))
          [None; Some (of_Z 1)].

Definition lead_kept (before after : ScoreState T) : bool :=
  implb (sellScore before <? buyScore before) (sellScore after <=? buyScore after)
  && implb (buyScore before <? sellScore before) (buyScore after <=? sellScore after)
  && implb (buyScore before === sellScore before) (buyScore after === sellScore after).

End Checks.

(** ** Signs of binary64 values

    [unsigned]: the sign bit is clear, or the value is NaN; these are +0,
    the positive numbers, +Infinity and NaN.  [plus]: the same without
    NaN. *)

Definition unsigned (x : spec_float) : bool :=
  match x with
  | S754_nan => true
  | S754_zero s | S754_infinity s | S754_finite s _ _ => negb s
  end.

Definition plus (x : spec_float) : bool :=
  match x with
  | S754_nan => false
  | S754_zero s | S754_infinity s | S754_finite s _ _ => negb s
  end.

Definition is_zero (x : spec_float) : bool :=
  match x with
  | S754_zero _ => true
  | _ => false
  end.

(** Two candles whose highs lie below their lows. *)
Definition crossed_candles : list (Candle float) :=
  [ {| timestamp := 0; open := of_Z 5; high := of_Z 4; low := of_Z 6; close := of_Z 5;
       volume := of_Z 1 |};
    {| timestamp := 1; open := of_Z 5; high := of_Z 3; low := of_Z 7; close := of_Z 2;
       volume := of_Z 1 |} ].

(** ** Values of binary64

    [value m e] is the rational number [m * 2^e]. *)

Definition pow2 (e : Z) : Q := (2 ^ e)%Q.

Definition value (m e : Z) : Q := (inject_Z m * pow2 e)%Q.

(** [x] lies from [m * 2^e] up to, and without, the next multiple. *)
Definition within (m e : Z) (x : Q) : Prop :=
  (value m e <= x /\ x < value (m + 1) e)%Q.

(** A shifted mantissa with its two lost-bit flags, as the rounding of
    the specification keeps it: [x] lies within the step above the mantissa,
    and strictly above it when a flag is set. *)
Definition encloses (x : Q) (mrs : shr_record) (e : Z) : Prop :=
  0 <= shr_m mrs
  /\ within (shr_m mrs) e x
  /\ (shr_r mrs || shr_s mrs = true -> (value (shr_m mrs) e < x)%Q).

(** What a rounded result [z] may be when the rounded number is at least,
    or at most, the binary64 number with mantissa [mv] and exponent [ev]. *)
Definition above (mv : positive) (ev : Z) (z : spec_float) : Prop :=
  match z with
  | S754_infinity false => True
  | S754_finite false m e => (value (Zpos mv) ev <= value (Zpos m) e)%Q
  | _ => False
  end.

Definition below (mv : positive) (ev : Z) (z : spec_float) : Prop :=
  match z with
  | S754_zero false => True
  | S754_finite false m e => (value (Zpos m) e <= value (Zpos mv) ev)%Q
  | _ => False
  end.

(** Rounding is monotone: the result of rounding [x] stays on the side of
    every binary64 number on which [x] lies. *)
Definition rounded (x : Q) (z : spec_float) : Prop :=
  forall (mv : positive) (ev : Z),
    bounded prec emax mv ev = true ->
    ((value (Zpos mv) ev <= x)%Q -> above mv ev z)
    /\ ((x <= value (Zpos mv) ev)%Q -> below mv ev z).


(** The sell side has an indication and a score above 0. *)
Definition sell_indicated {T : Type} `{Number T} (st : ScoreState T) : bool :=
  (1 <=? sellEvidence st)%Z && ltb (of_Z 0) (sellScore st).

(** * Properties *)

(** ** Arrays and loops *)

Lemma len_nonneg {A : Type} (l : list A) : 0 <= len l.
Proof. unfold len. lia. Qed.

Lemma len_app {A : Type} (l l' : list A) : len (l ++ l') = len l + len l'.
Proof. unfold len. rewrite length_app. lia. Qed.

Lemma len_map {A B : Type} (f : A -> B) (l : list A) : len (map f l) = len l.
Proof. unfold len. now rewrite length_map. Qed.

Lemma at_index_Some {A : Type} (l : list A) (i : Z) :
  0 <= i < len l -> exists a, at_index l i = Some a.
Proof.
  intros Hi. unfold at_index, len in *.
  destruct (Z.ltb_spec i 0); [lia|].
  destruct (nth_error l (Z.to_nat i)) eqn:E; [eauto|].
  apply nth_error_None in E. lia.
Qed.

Lemma get_in_range {A : Type} (l : list A) (i : Z) :
  0 <= i < len l -> exists a, get l i = Ok a /\ at_index l i = Some a.
Proof.
  intros Hi. destruct (at_index_Some l i Hi) as [a Ha].
  exists a. unfold get. now rewrite Ha.
Qed.

Lemma slice_whole_prefix {A : Type} (l : list A) : slice l 0 (Some (len l)) = l.
Proof.
  unfold slice, rel_index. pose proof (len_nonneg l).
  destruct (Z.ltb_spec (len l) 0); [lia|].
  rewrite Z.min_id. cbn [Z.ltb Z.compare Z.min]. rewrite Z.min_l by lia.
  rewrite Z.sub_0_r. cbn [Z.to_nat skipn]. unfold len. rewrite Nat2Z.id.
  apply firstn_all.
Qed.

Lemma slice_whole_suffix {A : Type} (l : list A) : slice l (- len l) None = l.
Proof.
  unfold slice, rel_index. pose proof (len_nonneg l).
  destruct (Z.ltb_spec (- len l) 0).
  - replace (len l + - len l) with 0 by lia. cbn [Z.max Z.compare].
    rewrite Z.sub_0_r. cbn [Z.to_nat skipn]. unfold len. rewrite Nat2Z.id.
    apply firstn_all.
  - assert (E : len l = 0) by lia. rewrite E. cbn.
    unfold len in E. destruct l; [reflexivity|discriminate].
Qed.

(** A loop whose body keeps an invariant and never fails runs to the end. *)
Lemma iterate_invariant {S : Type} (P : Z -> S -> Prop) (body : Z -> S -> result S)
      (n : nat) (i : Z) (s : S) :
  P i s ->
  (forall j t, i <= j < i + Z.of_nat n -> P j t ->
               exists t', body j t = Ok t' /\ P (j + 1) t') ->
  exists s', iterate body n i s = Ok s' /\ P (i + Z.of_nat n) s'.
Proof.
  revert i s. induction n as [|n IH]; intros i s Hs Hbody.
  - exists s. cbn. rewrite Z.add_0_r. auto.
  - destruct (Hbody i s ltac:(lia) Hs) as [t [Et Ht]].
    destruct (IH (i + 1) t Ht) as [s' [Es' Hs']].
    + intros j u Hj Hu. apply Hbody; [lia|assumption].
    + exists s'. cbn [iterate]. rewrite Et. cbn [bind]. split; [assumption|].
      replace (i + Z.of_nat (Datatypes.S n)) with (i + 1 + Z.of_nat n) by lia.
      assumption.
Qed.

Lemma for_range_invariant {S : Type} (P : Z -> S -> Prop) (body : Z -> S -> result S)
      (lo hi : Z) (s : S) :
  lo <= hi ->
  P lo s ->
  (forall j t, lo <= j < hi -> P j t -> exists t', body j t = Ok t' /\ P (j + 1) t') ->
  exists s', for_range lo hi body s = Ok s' /\ P hi s'.
Proof.
  intros Hle Hs Hbody. unfold for_range.
  destruct (iterate_invariant P body (Z.to_nat (hi - lo)) lo s Hs) as [s' [E H']].
  - intros j t Hj. apply Hbody. lia.
  - exists s'. split; [assumption|].
    replace hi with (lo + Z.of_nat (Z.to_nat (hi - lo))) at 1 by lia. assumption.
Qed.

Lemma for_range_empty {S : Type} (body : Z -> S -> result S) (lo hi : Z) (s : S) :
  hi <= lo -> for_range lo hi body s = Ok s.
Proof.
  intros Hle. unfold for_range. replace (Z.to_nat (hi - lo)) with O by lia. reflexivity.
Qed.

(** ** The indicators return without failure *)

Section IndicatorsTotal.

Context {T : Type} `{Number T}.

Lemma ema_total (prices : list T) (period : Z) :
  0 <= period ->
  exists r, ema prices period = Ok r /\ (r = None <-> len prices < period).
Proof.
  intros Hp. unfold ema. destruct (Z.ltb_spec (len prices) period) as [Hlt|Hge].
  - exists None. split; [reflexivity|]. split; auto.
  - match goal with |- context [for_range _ _ ?b ?e] =>
      destruct (for_range_invariant (fun _ _ => True) b period (len prices) e Hge I)
        as [e' [E _]]
    end.
    + intros j t Hj _. destruct (get_in_range prices j ltac:(lia)) as [a [Ea _]].
      rewrite Ea. cbn. eauto.
    + rewrite E. cbn. eexists. split; [reflexivity|]. split; [discriminate|lia].
Qed.

Lemma ema_defined (prices : list T) (period : Z) :
  0 <= period <= len prices -> exists e, ema prices period = Ok (Some e).
Proof.
  intros Hp. destruct (ema_total prices period ltac:(lia)) as [r [E Hr]].
  destruct r as [e|]; [eauto|]. assert (len prices < period) by now apply Hr. lia.
Qed.

Lemma rsi_total (prices : list T) (period : Z) :
  0 <= period ->
  exists r, rsi prices period = Ok r /\ (r = None <-> len prices < period + 1).
Proof.
  intros Hp. unfold rsi. destruct (Z.ltb_spec (len prices) (period + 1)) as [Hlt|Hge].
  - exists None. split; [reflexivity|]. split; auto.
  - match goal with |- context [for_range ?lo ?hi ?b ?e] =>
      destruct (for_range_invariant (fun _ _ => True) b lo hi e ltac:(lia) I)
        as [[g l] [E _]]
    end.
    + intros j [g l] Hj _.
      destruct (get_in_range prices j ltac:(lia)) as [a [Ea _]].
      destruct (get_in_range prices (j - 1) ltac:(lia)) as [b [Eb _]].
      rewrite Ea. cbn [bind]. rewrite Eb. cbn [bind]. eauto.
    + rewrite E. cbn [bind].
      match goal with |- context [if ?c then _ else _] => destruct c end;
        eexists; (split; [reflexivity|]); (split; [discriminate|lia]).
Qed.

(** [macd] returns, and its fields are null exactly below 26 and 35 closes. *)
Lemma macd_total (prices : list T) :
  exists m, macd prices = Ok m
            /\ (len prices < 26 -> m = no_macd)
            /\ (line m = None <-> len prices < 26)
            /\ (signal m = None <-> len prices < 35)
            /\ (histogram m = None <-> len prices < 35).
Proof.
  unfold macd. destruct (Z.ltb_spec (len prices) 26) as [Hlt|Hge].
  - exists no_macd. cbn. repeat split; auto; intros; lia.
  - destruct (ema_defined prices 12 ltac:(lia)) as [e12 E12].
    destruct (ema_defined prices 26 ltac:(lia)) as [e26 E26].
    rewrite E12. cbn [bind]. rewrite E26. cbn [bind].
    match goal with |- context [for_range 12 26 ?b ?e] =>
      destruct (for_range_invariant (fun _ _ => True) b 12 26 e ltac:(lia) I)
        as [f12 [F12 _]]
    end.
    { intros j t Hj _. destruct (get_in_range prices j ltac:(lia)) as [a [Ea _]].
      rewrite Ea. cbn. eauto. }
    rewrite F12. cbn [bind].
    match goal with |- context [for_range 26 ?hi ?b ?e] =>
      destruct (for_range_invariant
                  (fun j (t : T * T * list T) => len (snd t) = j - 26)
                  b 26 hi e Hge eq_refl)
        as [[[g12 g26] h] [F26 Hh]]
    end.
    { intros j [[a12 a26] h] Hj Hh. cbn [snd] in Hh.
      destruct (get_in_range prices j ltac:(lia)) as [a [Ea _]].
      rewrite Ea. cbn [bind]. eexists. split; [reflexivity|].
      cbn [snd]. rewrite len_app. cbn. lia. }
    rewrite F26. cbn [bind]. cbn [snd] in Hh.
    destruct (Z.geb_spec (len h) 9) as [H9|H9].
    + match goal with |- context [for_range 9 ?hi ?b ?e] =>
        destruct (for_range_invariant (fun _ _ => True) b 9 hi e ltac:(lia) I)
          as [sg [F9 _]]
      end.
      { intros j t Hj _. destruct (get_in_range h j ltac:(lia)) as [a [Ea _]].
        rewrite Ea. cbn. eauto. }
      rewrite F9. cbn [bind]. eexists. split; [reflexivity|]. cbn.
      repeat split; try discriminate; intros; lia.
    + cbn [bind]. eexists. split; [reflexivity|]. cbn.
      repeat split; try discriminate; intros; lia.
Qed.

Lemma momentum_total (prices : list T) (period : Z) :
  0 <= period ->
  exists r, momentum prices period = Ok r /\ (len prices <= period -> r = None).
Proof.
  intros Hp. unfold momentum. destruct (Z.leb_spec (len prices) period) as [Hle|Hgt].
  - exists None. auto.
  - destruct (at_index prices (len prices - 1 - period)) as [base|].
    + destruct (truthy base).
      * destruct (get_in_range prices (len prices - 1) ltac:(lia)) as [a [Ea _]].
        rewrite Ea. cbn. eexists. split; [reflexivity|]. intros; lia.
      * eexists. split; [reflexivity|]. intros; lia.
    + eexists. split; [reflexivity|]. intros; lia.
Qed.

Lemma avg_None (values : list T) : avg values = None <-> values = [].
Proof.
  unfold avg. destruct values as [|v values]; cbn; [tauto|].
  split; discriminate.
Qed.

Lemma atr_total (ohlcv : list (Candle T)) (period : Z) :
  0 < period ->
  exists r, atr ohlcv period = Ok r /\ (r = None <-> len ohlcv < period + 1).
Proof.
  intros Hp. unfold atr. destruct (Z.ltb_spec (len ohlcv) (period + 1)) as [Hlt|Hge].
  - exists None. split; [reflexivity|]. split; auto.
  - match goal with |- context [for_range ?lo ?hi ?b ?e] =>
      destruct (for_range_invariant (fun j (t : list T) => len t = j - lo)
                  b lo hi e ltac:(lia) ltac:(cbn; lia))
        as [trs [E Htrs]]
    end.
    + intros j trs Hj Htrs. unfold candle.
      destruct (at_index_Some ohlcv j ltac:(lia)) as [c Ec].
      destruct (at_index_Some ohlcv (j - 1) ltac:(lia)) as [c' Ec'].
      rewrite Ec. cbn [bind]. rewrite Ec'. cbn [bind].
      eexists. split; [reflexivity|]. rewrite len_app. cbn. lia.
    + rewrite E. cbn [bind]. eexists. split; [reflexivity|].
      split; [|lia]. intros Havg. apply avg_None in Havg. subst trs.
      cbn in Htrs. lia.
Qed.

End IndicatorsTotal.

(** ** [analyzeIndicators] and [generateSignal] return *)

Lemma slice_length {A : Type} (l : list A) (start : Z) (stop : option Z) :
  len (slice l start stop)
  = Z.max 0 (match stop with None => len l | Some e => rel_index (len l) e end
             - rel_index (len l) start).
Proof.
  unfold slice. set (from := rel_index (len l) start).
  set (to := match stop with None => len l | Some e => rel_index (len l) e end).
  assert (Hfrom : 0 <= from <= len l).
  { subst from. unfold rel_index. pose proof (len_nonneg l).
    destruct (Z.ltb_spec start 0); lia. }
  assert (Hto : to <= len l).
  { subst to. destruct stop as [e|]; [|lia]. unfold rel_index.
    pose proof (len_nonneg l). destruct (Z.ltb_spec e 0); lia. }
  unfold len in *. rewrite length_firstn, length_skipn. lia.
Qed.

Lemma mapi_from_length {A B : Type} (f : A -> Z -> B) (i : Z) (xs : list A) :
  List.length (mapi_from f i xs) = List.length xs.
Proof. revert i. induction xs as [|x xs IH]; intros i; cbn; [reflexivity|]. now rewrite IH. Qed.

Lemma mapi_length {A B : Type} (f : A -> Z -> B) (xs : list A) :
  len (mapi f xs) = len xs.
Proof. unfold len, mapi. now rewrite mapi_from_length. Qed.

Section SignalTotal.

Context {T : Type} `{Number T}.

Lemma stdDev_None (values : list T) : len values <= 0 -> stdDev values = None.
Proof.
  intros Hv. unfold stdDev. pose proof (len_nonneg values).
  replace (len values) with 0 by lia. reflexivity.
Qed.

Lemma bollingerBands_None (prices : list T) (period : Z) (k : T) :
  len prices < period -> bollingerBands prices period k = Build_Bands None None None.
Proof.
  intros Hp. unfold bollingerBands.
  destruct (Z.ltb_spec (len prices) period); [reflexivity|lia].
Qed.

(** The raw indicator set: it is computed without failure, the price is
    present exactly for a non-empty array, and fields are null below their
    minimum length. *)
Lemma analyzeIndicators_total (ohlcv : list (Candle T)) :
  exists ind, analyzeIndicators ohlcv = Ok ind
    /\ (currentPrice ind = None <-> ohlcv = [])
    /\ nulls_when_short (len ohlcv) (display ind).
Proof.
  unfold analyzeIndicators.
  set (closes := map (@close T) ohlcv).
  assert (Hc : len closes = len ohlcv) by apply len_map.
  destruct (rsi_total closes 14 ltac:(lia)) as [r [Er Hr]].
  destruct (macd_total closes) as [m [Em [Hm0 [Hm1 [Hm2 Hm3]]]]].
  destruct (ema_total closes 20 ltac:(lia)) as [e20 [E20 H20]].
  destruct (ema_total closes 50 ltac:(lia)) as [e50 [E50 H50]].
  destruct (atr_total ohlcv 14 ltac:(lia)) as [a [Ea Ha]].
  destruct (momentum_total closes 3 ltac:(lia)) as [m3 [E3 H3]].
  destruct (momentum_total closes 10 ltac:(lia)) as [m10 [E10 H10]].
  rewrite Er. cbn [bind]. rewrite Em. cbn [bind]. rewrite E20. cbn [bind].
  rewrite E50. cbn [bind]. rewrite Ea. cbn [bind]. rewrite E3. cbn [bind].
  rewrite E10. cbn [bind].
  eexists. split; [reflexivity|]. split.
  - cbn [currentPrice]. split.
    + intros Hnone. destruct ohlcv as [|c ohlcv]; [reflexivity|].
      destruct (at_index_Some closes (len closes - 1)) as [x Ex].
      * rewrite Hc. unfold len. cbn [List.length]. lia.
      * congruence.
    + intros ->. reflexivity.
  - unfold nulls_when_short, display.
    cbn [out_rsi out_macd out_bollingerBands out_ema20 out_ema50 out_sma200
         out_atr14 out_momentum3 out_momentum10 out_volatility20
         ind_rsi ind_macd ind_bollingerBands ema20 ema50 sma200 atr14
         momentum3 momentum10 volatility20].
    rewrite <- Hc.
    split.
    { intros Hn. assert (E : r = None) by (apply Hr; lia).
      assert (E' : a = None) by (apply Ha; lia). now rewrite E, E'. }
    split.
    { intros Hn. now rewrite (Hm0 Hn). }
    split.
    { intros Hn. cbn [signal histogram].
      assert (E : signal m = None) by (apply Hm2; lia).
      assert (E' : histogram m = None) by (apply Hm3; lia). now rewrite E, E'. }
    split.
    { intros Hn. rewrite bollingerBands_None by lia.
      assert (E : e20 = None) by (apply H20; lia). now rewrite E. }
    split.
    { intros Hn. assert (E : e50 = None) by (apply H50; lia). now rewrite E. }
    split.
    { intros Hn. destruct (Z.geb_spec (len closes) 200); [lia|reflexivity]. }
    split.
    { intros Hn. now rewrite (H3 Hn). }
    split.
    { intros Hn. now rewrite (H10 Hn). }
    intros Hn. rewrite stdDev_None; [reflexivity|].
    rewrite slice_length, mapi_length, slice_length. unfold rel_index.
    pose proof (len_nonneg closes). cbn [Z.ltb Z.compare].
    repeat match goal with |- context [if ?c then _ else _] => destruct c end; lia.
Qed.

Lemma prevMacdOf_total (closes : list T) : exists m, prevMacdOf closes = Ok m.
Proof.
  unfold prevMacdOf. destruct (len closes >? 30).
  - destruct (macd_total (slice closes 0 (Some (-1)))) as [m [Em _]]. eauto.
  - eauto.
Qed.

Lemma targetsOf_total (signalType : string) :
  inherited signalType = false -> exists t, targetsOf signalType = Ok t.
Proof.
  intros Hi. unfold targetsOf, property.
  destruct (assoc signalType targets); [eauto|]. rewrite Hi. eauto.
Qed.

Lemma targetsOf_inherited (signalType : string) :
  inherited signalType = true ->
  assoc signalType (@targets T _) = None ->
  targetsOf (T:=T) signalType
  = Fail (TypeError "targets[signalType] is not iterable").
Proof. intros Hi Ha. unfold targetsOf, property. now rewrite Ha, Hi. Qed.

End SignalTotal.

Lemma SFltb_SFleb (x y : spec_float) : SFltb x y = true -> SFleb y x = false.
Proof.
  unfold SFltb, SFleb.
  destruct x as [sx|sx| |sx mx ex], y as [sy|sy| |sy my ey]; cbn;
    try destruct sx; try destruct sy; cbn; try congruence.
  all: rewrite (Z.compare_antisym ex ey); destruct (ex ?= ey)%Z eqn:E; cbn;
    try congruence.
  all: change (Pos.compare_cont Eq my mx) with (Pos.compare my mx);
    change (Pos.compare_cont Eq mx my) with (Pos.compare mx my);
    rewrite (Pos.compare_antisym mx my); destruct (mx ?= my)%positive; cbn;
    congruence.
Qed.

#[global] Instance float_order : OrderLaws float.
Proof.
  constructor. intros a b. cbn. rewrite FloatAxioms.ltb_spec, FloatAxioms.leb_spec.
  apply SFltb_SFleb.
Qed.

(** ** The decision *)

Section Decision.

Context {T : Type} `{Number T}.
Local Open Scope js_scope.

(** [generateSignal] decides on the assessment, and derives confidence,
    targets and risk/reward from it. *)
Lemma generateSignal_assess (ohlcv : list (Candle T)) (signalType riskTolerance : string)
      (now : Z) (sig : Signal T) :
  generateSignal ohlcv signalType riskTolerance now = Ok sig ->
  exists a, assess ohlcv riskTolerance = Ok (Some a)
    /\ sig_signal sig = decide (as_scores a) (as_threshold a)
    /\ confidence sig = toFixed 1 (confidenceOf (sig_signal sig) (as_scores a))
    /\ riskReward sig
       = riskRewardOf (sig_signal sig) (as_price a) (takeProfit2 sig) (stopLoss sig).
Proof.
  unfold generateSignal, assess.
  destruct (analyzeIndicators ohlcv) as [ind|e]; cbn [bind]; [|discriminate].
  destruct (prevMacdOf (map (@close T) ohlcv)) as [pm|e]; cbn [bind]; [|discriminate].
  destruct (currentPrice ind) as [price|].
  - destruct (targetsOf signalType) as [[[tp1 tp2] sl]|e]; cbn [bind]; [|discriminate].
    intros E. injection E as <-. eexists. split; [reflexivity|].
    cbn. auto.
  - destruct (targetsOf signalType); cbn [bind]; discriminate.
Qed.

Lemma decide_cases (st : ScoreState T) (threshold : option T) :
  (decide st threshold = BUY ->
     reaches (buyScore st) threshold = true
     /\ (buyScore st >? sellScore st) = true
     /\ (edgeOf st >=? dec 9 10) = true)
  /\ (decide st threshold = SELL ->
       reaches (sellScore st) threshold = true
       /\ (sellScore st >? buyScore st) = true
       /\ (edgeOf st >=? dec 9 10) = true).
Proof.
  unfold decide.
  destruct (reaches (buyScore st) threshold), (buyScore st >? sellScore st),
    (edgeOf st >=? dec 9 10), (reaches (sellScore st) threshold),
    (sellScore st >? buyScore st); cbn; split; intros E;
    try discriminate; auto.
Qed.

Lemma decide_small_edge `{!OrderLaws T} (st : ScoreState T) (threshold : option T) :
  (edgeOf st <? dec 9 10) = true -> decide st threshold = HOLD.
Proof.
  intros Hedge. apply ltb_leb in Hedge. unfold decide. rewrite Hedge.
  now rewrite !andb_false_r.
Qed.

End Decision.

(** ** The specification's properties of the indicators *)

(** C8: for a price sequence whose length is exactly the period, [ema] and
    [sma] return the same value: the seed of the exponential average is the
    simple average of the first [period] prices, and no recurrence step is
    taken. *)
Theorem ema_agrees_with_sma_at_seed {T : Type} `{Number T} (closes : list T) :
  ema closes (len closes) = Ok (sma closes (len closes)).
Proof.
  unfold ema, sma. rewrite Z.ltb_irrefl.
  rewrite for_range_empty by lia. cbn [bind].
  now rewrite slice_whole_prefix, slice_whole_suffix.
Qed.

(** C4: [macd] returns the all-null record below 26 closes, and its [signal]
    (hence its [histogram]) is non-null exactly from 35 closes on, that is
    from nine points of MACD history on. *)
Theorem macd_null_fields {T : Type} `{Number T} (closes : list T) :
  exists m, macd closes = Ok m
    /\ (len closes < 26 -> m = Build_Macd None None None)
    /\ (signal m <> None <-> 35 <= len closes)
    /\ (histogram m <> None <-> 35 <= len closes).
Proof.
  destruct (macd_total closes) as [m [Em [H0 [_ [Hs Hh]]]]].
  exists m. split; [assumption|]. split; [assumption|].
  split; split; intros Hx.
  - destruct (Z.lt_ge_cases (len closes) 35) as [Hlt|]; [|assumption].
    elim Hx. now apply Hs.
  - intros Hn. apply Hs in Hn. lia.
  - destruct (Z.lt_ge_cases (len closes) 35) as [Hlt|]; [|assumption].
    elim Hx. now apply Hh.
  - intros Hn. apply Hh in Hn. lia.
Qed.

(** ** The specification's properties of the decision *)

Section DecisionClaims.

Context {T : Type} `{Number T}.
Local Open Scope js_scope.

(** C1: whenever the absolute edge of the final scores is below 0.9 the
    signal is HOLD, whatever the scores; BUY (SELL) is returned only when
    the threshold is a number that the buy (sell) score is at least equal
    to, the score strictly exceeds the other one, and the edge is at least
    0.9.  Conversely these three conditions give BUY, and give SELL when
    the buy score does not exceed the sell score. *)
Theorem hold_without_edge `{!OrderLaws T} (ohlcv : list (Candle T))
        (signalType riskTolerance : string) (now : Z) (sig : Signal T) :
  generateSignal ohlcv signalType riskTolerance now = Ok sig ->
  exists a, assess ohlcv riskTolerance = Ok (Some a)
    /\ let buy := buyScore (as_scores a) in
       let sell := sellScore (as_scores a) in
       let edge := Math_abs (buy - sell) in
       ((edge <? dec 9 10) = true -> sig_signal sig = HOLD)
       /\ (sig_signal sig = BUY ->
           (exists t, as_threshold a = Some t /\ (buy >=? t) = true)
           /\ (buy >? sell) = true /\ (edge >=? dec 9 10) = true)
       /\ (sig_signal sig = SELL ->
           (exists t, as_threshold a = Some t /\ (sell >=? t) = true)
           /\ (sell >? buy) = true /\ (edge >=? dec 9 10) = true)
       /\ (forall t, as_threshold a = Some t ->
           (buy >=? t) = true -> (buy >? sell) = true -> (edge >=? dec 9 10) = true ->
           sig_signal sig = BUY)
       /\ (forall t, as_threshold a = Some t ->
           (sell >=? t) = true -> (sell >? buy) = true -> (edge >=? dec 9 10) = true ->
           (buy >? sell) = false ->
           sig_signal sig = SELL).
Proof.
  intros Hsig. destruct (generateSignal_assess _ _ _ _ _ Hsig) as [a [Ha [Hd _]]].
  exists a. split; [assumption|]. cbv zeta. rewrite Hd.
  destruct (decide_cases (as_scores a) (as_threshold a)) as [Hbuy Hsell].
  split; [apply decide_small_edge|].
  split.
  { intros Hb. destruct (Hbuy Hb) as [Hr [Hgt He]]. unfold reaches in Hr.
    destruct (as_threshold a) as [t|]; [|discriminate]. split; [|auto]. now exists t. }
  split.
  { intros Hs. destruct (Hsell Hs) as [Hr [Hgt He]]. unfold reaches in Hr.
    destruct (as_threshold a) as [t|]; [|discriminate]. split; [|auto]. now exists t. }
  split.
  - intros t Et Hr Hgt He. unfold decide, reaches, edgeOf. rewrite Et, Hr, Hgt, He.
    reflexivity.
  - intros t Et Hr Hgt He Hle. unfold decide, reaches, edgeOf. rewrite Et, Hr, Hgt, He, Hle.
    now rewrite andb_false_r.
Qed.

(** C5: the confidence is computed from the final scores as
    [clamp(42 + edge*6, 40, 65)] for HOLD and as
    [clamp(dominantScore*13 + edge*16 + evidenceCount*2, 55, 95)] for BUY
    and SELL, with the evidence count of the winning side, [clamp(v, lo,
    hi)] being [Math.max(lo, Math.min(hi, v))], and is returned rounded to
    one decimal. *)
Theorem confidence_formula (ohlcv : list (Candle T))
        (signalType riskTolerance : string) (now : Z) (sig : Signal T) :
  generateSignal ohlcv signalType riskTolerance now = Ok sig ->
  exists a, assess ohlcv riskTolerance = Ok (Some a)
    /\ let buy := buyScore (as_scores a) in
       let sell := sellScore (as_scores a) in
       let edge := Math_abs (buy - sell) in
       let dominantScore := Math_max buy sell in
       confidence sig
       = toFixed 1
           match sig_signal sig with
           | HOLD => Math_max (of_Z 40) (Math_min (of_Z 65) (of_Z 42 + edge * of_Z 6))
           | BUY =>
               Math_max (of_Z 55)
                 (Math_min (of_Z 95)
                    (dominantScore * of_Z 13 + edge * of_Z 16
                     + of_Z (buyEvidence (as_scores a)) * of_Z 2))
           | SELL =>
               Math_max (of_Z 55)
                 (Math_min (of_Z 95)
                    (dominantScore * of_Z 13 + edge * of_Z 16
                     + of_Z (sellEvidence (as_scores a)) * of_Z 2))
           end.
Proof.
  intros Hsig. destruct (generateSignal_assess _ _ _ _ _ Hsig) as [a [Ha [_ [Hc _]]]].
  exists a. split; [assumption|]. cbv zeta. rewrite Hc.
  unfold confidenceOf, edgeOf, clamp. now destruct (sig_signal sig).
Qed.

End DecisionClaims.

(** ** Risk/reward *)




(** ** Termination without failure *)

Lemma inherited_not_target {T : Type} `{Number T} (signalType : string) :
  inherited signalType = true -> assoc signalType (@targets T _) = None.
Proof.
  unfold inherited. intros Hi. apply existsb_exists in Hi.
  destruct Hi as [k [Hk Ek]]. apply String.eqb_eq in Ek. subst k.
  cbn in Hk.
  repeat (destruct Hk as [<-|Hk]; [reflexivity|]). contradiction.
Qed.

(** C10 (the failing case): a signal type that names a property of
    [Object.prototype] - "constructor", "toString", ... - is found by
    [targets[signalType]], is truthy and is not iterable: the destructuring
    throws a TypeError, for every candle array. *)
Theorem generateSignal_throws_on_inherited_type {T : Type} `{Number T}
        (ohlcv : list (Candle T)) (signalType riskTolerance : string) (now : Z) :
  inherited signalType = true ->
  generateSignal ohlcv signalType riskTolerance now
  = Fail (TypeError "targets[signalType] is not iterable").
Proof.
  intros Hi. unfold generateSignal.
  destruct (analyzeIndicators_total ohlcv) as [ind [Ei _]].
  destruct (prevMacdOf_total (map (@close T) ohlcv)) as [pm Epm].
  rewrite Ei. cbn [bind]. rewrite Epm. cbn [bind].
  rewrite (targetsOf_inherited signalType Hi (inherited_not_target signalType Hi)).
  now destruct (currentPrice ind).
Qed.

(** For a non-empty candle array, however short, any risk tolerance and any
    signal type that is not the name of a property of [Object.prototype],
    [generateSignal] returns a result: no array is read outside its bounds,
    nothing is thrown, and every indicator the array is too short for is
    null. *)
Theorem generateSignal_returns {T : Type} `{Number T} (ohlcv : list (Candle T))
        (signalType riskTolerance : string) (now : Z) :
  ohlcv <> [] ->
  inherited signalType = false ->
  exists sig, generateSignal ohlcv signalType riskTolerance now = Ok sig
              /\ nulls_when_short (len ohlcv) (indicators sig).
Proof.
  intros Hne Hst. unfold generateSignal.
  destruct (analyzeIndicators_total ohlcv) as [ind [Ei [Hp Hn]]].
  destruct (prevMacdOf_total (map (@close T) ohlcv)) as [pm Epm].
  destruct (targetsOf_total signalType Hst) as [[[tp1 tp2] sl] Et].
  rewrite Ei. cbn [bind]. rewrite Epm. cbn [bind].
  destruct (currentPrice ind) as [price|] eqn:Eprice.
  - rewrite Et. cbn [bind]. eexists. split; [reflexivity|]. exact Hn.
  - exfalso. apply Hne. now apply Hp.
Qed.

Local Open Scope Q_scope.

(** ** The synthetic generator and the clock *)

Local Open Scope Z_scope.

Section DemoClock.

Import Demo.

Lemma shift_advance (d ms : Z) (ts : Timestamp) :
  advance (shift d ts) (Ms ms) = shift d (advance ts (Ms ms)).
Proof. destruct ts as [t| |start parts]; cbn; [f_equal; lia|reflexivity|reflexivity]. Qed.

Lemma step_same_but_clock (trend volatility : float) (ms d : Z) (s1 s2 : LoopState) :
  same_but_clock d s1 s2 ->
  same_but_clock d (step trend volatility (Ms ms) s1) (step trend volatility (Ms ms) s2).
Proof.
  intros [Hseed [Hprice [Hts Hc]]]. unfold step. rewrite Hseed, Hprice, Hts, Hc.
  destruct (rand (seed s1)) as [sd1 r1]. destruct (rand sd1) as [sd2 r2].
  destruct (rand sd2) as [sd3 r3]. destruct (rand sd3) as [sd4 r4].
  destruct (rand sd4) as [sd5 r5]. unfold same_but_clock. cbn [seed price ts ohlcv].
  repeat split; [apply shift_advance|]. rewrite map_app. reflexivity.
Qed.

Lemma iterate_same_but_clock (trend volatility : float) (ms d : Z) (n : nat) :
  forall (i : Z) (s1 s2 : LoopState),
    same_but_clock d s1 s2 ->
    exists t1 t2,
      iterate (fun _ st => Ok (step trend volatility (Ms ms) st)) n i s1 = Ok t1
      /\ iterate (fun _ st => Ok (step trend volatility (Ms ms) st)) n i s2 = Ok t2
      /\ same_but_clock d t1 t2.
Proof.
  induction n as [|n IH]; intros i s1 s2 Hs.
  - exists s1, s2. cbn. auto.
  - cbn [iterate bind]. apply IH. now apply step_same_but_clock.
Qed.

Lemma step_stamps (trend volatility : float) (intervalMs : Interval) (st : LoopState) :
  stamps (match intervalMs with Ms _ => true | Prototype _ => false end) st ->
  stamps (match intervalMs with Ms _ => true | Prototype _ => false end)
         (step trend volatility intervalMs st).
Proof.
  intros [Hts Hall]. unfold step.
  destruct (rand (seed st)) as [sd1 r1]. destruct (rand sd1) as [sd2 r2].
  destruct (rand sd2) as [sd3 r3]. destruct (rand sd3) as [sd4 r4].
  destruct (rand sd4) as [sd5 r5]. unfold stamps. cbn [ts ohlcv]. split.
  - destruct intervalMs, (ts st); cbn in *; congruence.
  - apply Forall_app. split; [exact Hall|]. constructor; [exact Hts|constructor].
Qed.

Lemma iterate_stamps (trend volatility : float) (intervalMs : Interval) (n : nat) :
  forall (i : Z) (st : LoopState),
    stamps (match intervalMs with Ms _ => true | Prototype _ => false end) st ->
    exists st',
      iterate (fun _ st => Ok (step trend volatility intervalMs st)) n i st = Ok st'
      /\ stamps (match intervalMs with Ms _ => true | Prototype _ => false end) st'.
Proof.
  induction n as [|n IH]; intros i st Hs.
  - exists st. cbn. auto.
  - cbn [iterate bind]. apply IH. now apply step_stamps.
Qed.

Lemma shifted_text {T : Type} (d : Z) (cs : list (Candle T)) :
  Forall (fun c => numeric (timestamp c) = false) cs -> map (shifted d) cs = cs.
Proof.
  induction 1 as [|c cs Hc _ IH]; [reflexivity|]. cbn [map]. rewrite IH. f_equal.
  destruct c as [t o h l cl v]. unfold shifted. cbn in *. now destruct t.
Qed.

Lemma intervalMsOf_cases (timeframe : string) :
  if inherited timeframe
  then intervalMsOf timeframe = Prototype timeframe
  else exists ms, intervalMsOf timeframe = Ms ms /\ 0 < ms.
Proof.
  unfold intervalMsOf, property, msMap, assoc.
  repeat match goal with |- context [String.eqb ?a ?b] =>
           destruct (String.eqb a b) eqn:?
         end;
    try (apply String.eqb_eq in Heqb; subst timeframe; cbn; eexists; split; reflexivity);
    try (apply String.eqb_eq in Heqb0; subst timeframe; cbn; eexists; split; reflexivity);
    try (apply String.eqb_eq in Heqb1; subst timeframe; cbn; eexists; split; reflexivity);
    try (apply String.eqb_eq in Heqb2; subst timeframe; cbn; eexists; split; reflexivity).
  destruct (inherited timeframe); [reflexivity|]. eexists. split; reflexivity.
Qed.

End DemoClock.

(** C2 (as amended): two invocations of the generator with the same symbol,
    timeframe and limit produce the same opens, highs, lows, closes and
    volumes, bit for bit.  For a timeframe that is no property of
    [Object.prototype] every timestamp is a number counted back from the
    clock, so the second sequence is the first one with every timestamp
    moved by the time elapsed between the two invocations, and the
    sequences are identical when the clock reads the same.  For a timeframe
    that is such a property no timestamp is a number, none depends on the
    clock, and the two sequences are identical. *)
Theorem demo_data_same_up_to_clock (symbol timeframe : string) (limit now1 now2 : Z) :
  exists c1 c2,
    Demo.generateDemoData symbol timeframe limit now1 = Ok c1
    /\ Demo.generateDemoData symbol timeframe limit now2 = Ok c2
    /\ c2 = map (shifted (now2 - now1)) c1
    /\ Forall (fun c => numeric (timestamp c) = negb (inherited timeframe)) c1
    /\ (inherited timeframe = true -> c2 = c1).
Proof.
  unfold Demo.generateDemoData.
  destruct (Demo.rand (Demo.hashSeed (symbol ++ timeframe))) as [sd1 r1].
  destruct (Demo.rand sd1) as [sd2 r2]. cbv zeta.
  pose proof (intervalMsOf_cases timeframe) as Hi. unfold for_range.
  destruct (inherited timeframe).
  - rewrite Hi. cbn [back_from].
    match goal with
    | |- context [iterate (fun _ st => Ok (Demo.step ?tr ?vol ?m st)) ?n ?i ?init] =>
        destruct (iterate_stamps tr vol m n i init) as [st [E [_ Hall]]];
          [split; [reflexivity|constructor]|]
    end.
    cbn [negb]. rewrite E. cbn [bind]. exists (Demo.ohlcv st), (Demo.ohlcv st).
    repeat split; try assumption. now rewrite shifted_text.
  - destruct Hi as [ms [-> _]]. cbn [back_from].
    match goal with
    | |- context [iterate (fun _ st => Ok (Demo.step ?tr ?vol ?m st)) ?n ?i ?init] =>
        destruct (iterate_stamps tr vol m n i init) as [st [E [_ Hall]]];
          [split; [reflexivity|constructor]|]
    end.
    match goal with
    | |- context [iterate (fun _ st => Ok (Demo.step ?tr ?vol ?m st)) ?n ?i
                          {| Demo.seed := ?sd; Demo.price := ?p; Demo.ts := Time (now2 - ?k);
                             Demo.ohlcv := [] |}] =>
        destruct (iterate_same_but_clock tr vol ms (now2 - now1) n i
                    {| Demo.seed := sd; Demo.price := p; Demo.ts := Time (now1 - k);
                       Demo.ohlcv := [] |}
                    {| Demo.seed := sd; Demo.price := p; Demo.ts := Time (now2 - k);
                       Demo.ohlcv := [] |})
          as [t1 [t2 [E1 [E2 [_ [_ [_ Hc]]]]]]]
    end.
    { unfold same_but_clock. cbn. repeat split. f_equal. lia. }
    rewrite E1 in E. injection E as ->. rewrite E1, E2. cbn [bind negb].
    exists (Demo.ohlcv st), (Demo.ohlcv t2). repeat split; try assumption. discriminate.
Qed.

(** ** The properties at sample inputs *)

Local Open Scope string_scope.

(** C2, as stated, fails: the same arguments one millisecond apart give
    different timestamps. *)
Lemma demo_data_depends_on_clock :
  Demo.generateDemoData "BTCUSDT" "1h" 1 0 <> Demo.generateDemoData "BTCUSDT" "1h" 1 1.
Proof. vm_compute. intros E. discriminate E. Qed.

(** The split evidence is a HOLD at aggressive tolerance although the buy
    score, 2.88, exceeds both the threshold, 2.8, and the sell score, 2.08:
    the edge is 0.8.  The quiet buy is a BUY: 2.815 against a threshold of
    2.8 and a sell score of 0.715. *)
Lemma hold_without_edge_split_evidence :
  (exists sig a,
      generateSignal (T:=float) split_evidence "swing" "aggressive" 0 = Ok sig
      /\ assess (T:=float) split_evidence "aggressive" = Ok (Some a)
      /\ sig_signal sig = HOLD
      /\ as_threshold a = Some (dec 26 10 + dec 2 10)%js
      /\ buyScore (as_scores a) = dec 288 100
      /\ sellScore (as_scores a) = dec 208 100)
  /\ (exists sig a,
         generateSignal (T:=float) quiet_buy "swing" "aggressive" 0 = Ok sig
         /\ assess (T:=float) quiet_buy "aggressive" = Ok (Some a)
         /\ sig_signal sig = BUY
         /\ as_threshold a = Some (dec 26 10 + dec 2 10)%js
         /\ (dec 26 10 + dec 2 10 <=? buyScore (as_scores a))%js = true).
Proof.
  split.
  - eassert (E : generateSignal (T:=float) split_evidence "swing" "aggressive" 0 = Ok _)
      by (vm_compute; reflexivity).
    eassert (Ea : assess (T:=float) split_evidence "aggressive" = Ok (Some _))
      by (vm_compute; reflexivity).
    destruct (hold_without_edge _ _ _ _ _ E) as (a & Ha & Hhold & _).
    rewrite Ea in Ha. injection Ha as <-.
    do 2 eexists. split; [exact E|]. split; [exact Ea|].
    split; [apply Hhold; vm_compute; reflexivity|].
    repeat split; vm_compute; reflexivity.
  - eassert (E : generateSignal (T:=float) quiet_buy "swing" "aggressive" 0 = Ok _)
      by (vm_compute; reflexivity).
    eassert (Ea : assess (T:=float) quiet_buy "aggressive" = Ok (Some _))
      by (vm_compute; reflexivity).
    destruct (hold_without_edge _ _ _ _ _ E) as (a & Ha & _ & Hbuy & _).
    rewrite Ea in Ha. injection Ha as <-.
    destruct (Hbuy eq_refl) as ((t & Et & Hr) & _).
    do 2 eexists. split; [exact E|]. split; [exact Ea|].
    split; [reflexivity|]. split; [vm_compute; reflexivity|].
    cbn [as_threshold] in Et. vm_compute in Et. injection Et as <-.
    exact Hr.
Defined.

(** The split evidence is a HOLD with confidence 46.8, which is
    [42 + 0.8 * 6]; the quiet buy is a BUY with confidence 74.2, which is
    [2.815 * 13 + 2.1 * 16 + 2 * 2]; the rally is a BUY with confidence 95,
    the upper bound, for [4 * 13 + 4 * 16 + 3 * 2]. *)
Lemma confidence_formula_samples :
  (exists sig, generateSignal (T:=float) split_evidence "swing" "aggressive" 0 = Ok sig
               /\ sig_signal sig = HOLD /\ confidence sig = dec 468 10)
  /\ (exists sig, generateSignal (T:=float) quiet_buy "swing" "aggressive" 0 = Ok sig
                  /\ sig_signal sig = BUY /\ confidence sig = dec 742 10)
  /\ (exists sig, generateSignal (T:=float) rally "swing" "moderate" 0 = Ok sig
                  /\ sig_signal sig = BUY /\ confidence sig = of_Z 95).
Proof.
  split; [|split].
  - eassert (E : generateSignal (T:=float) split_evidence "swing" "aggressive" 0 = Ok _)
      by (vm_compute; reflexivity).
    eassert (Ea : assess (T:=float) split_evidence "aggressive" = Ok (Some _))
      by (vm_compute; reflexivity).
    destruct (confidence_formula _ _ _ _ _ E) as (a & Ha & Hc).
    rewrite Ea in Ha. injection Ha as <-.
    eexists. split; [exact E|]. split; [reflexivity|]. rewrite Hc.
    vm_compute. reflexivity.
  - eassert (E : generateSignal (T:=float) quiet_buy "swing" "aggressive" 0 = Ok _)
      by (vm_compute; reflexivity).
    eassert (Ea : assess (T:=float) quiet_buy "aggressive" = Ok (Some _))
      by (vm_compute; reflexivity).
    destruct (confidence_formula _ _ _ _ _ E) as (a & Ha & Hc).
    rewrite Ea in Ha. injection Ha as <-.
    eexists. split; [exact E|]. split; [reflexivity|]. rewrite Hc.
    vm_compute. reflexivity.
  - eassert (E : generateSignal (T:=float) rally "swing" "moderate" 0 = Ok _)
      by (vm_compute; reflexivity).
    eassert (Ea : assess (T:=float) rally "moderate" = Ok (Some _))
      by (vm_compute; reflexivity).
    destruct (confidence_formula _ _ _ _ _ E) as (a & Ha & Hc).
    rewrite Ea in Ha. injection Ha as <-.
    eexists. split; [exact E|]. split; [reflexivity|]. rewrite Hc.
    vm_compute. reflexivity.
Defined.


(** "constructor" as signal type. *)
Lemma generateSignal_throws_on_constructor :
  generateSignal one_candle "constructor" "moderate" 0
  = Fail (TypeError "targets[signalType] is not iterable").
Proof.
  apply (generateSignal_throws_on_inherited_type one_candle "constructor" "moderate" 0).
  reflexivity.
Defined.

(** One candle and the default signal type. *)
Lemma generateSignal_returns_one_candle :
  exists sig, generateSignal one_candle "swing" "moderate" 0 = Ok sig
              /\ nulls_when_short 1 (indicators sig).
Proof.
  apply (generateSignal_returns one_candle "swing" "moderate" 0).
  - discriminate.
  - reflexivity.
Defined.

Local Close Scope string_scope.

Lemma slice_suffix {A : Type} (l : list A) (n : Z) :
  0 < n <= len l -> slice l (- n) None = skipn (Z.to_nat (len l - n)) l.
Proof.
  intros Hn. unfold slice, rel_index. destruct (Z.ltb_spec (- n) 0); [|lia].
  rewrite Z.max_l by lia. replace (len l + - n) with (len l - n) by lia.
  apply firstn_all2. rewrite length_skipn. unfold len in *. lia.
Qed.

Section EmaFold.

Context {T : Type} `{Number T}.

Lemma sma_suffix (prices : list T) (period : Z) :
  0 < period <= len prices ->
  sma prices period
  = Some (div (sum (skipn (Z.to_nat (len prices - period)) prices)) (of_Z period)).
Proof.
  intros Hp. unfold sma. destruct (Z.ltb_spec (len prices) period); [lia|].
  now rewrite slice_suffix.
Qed.

(** What [analyzeIndicators] stores in the fields the rules read. *)
Lemma analyzeIndicators_fields (ohlcv : list (Candle T)) (ind : IndicatorSet T) :
  analyzeIndicators ohlcv = Ok ind ->
  let closes := map (@close T) ohlcv in
  currentPrice ind = at_index closes (len closes - 1)
  /\ rsi closes 14 = Ok (ind_rsi ind)
  /\ macd closes = Ok (ind_macd ind)
  /\ ema closes 20 = Ok (ema20 ind)
  /\ ema closes 50 = Ok (ema50 ind)
  /\ sma200 ind = (if len closes >=? 200 then sma closes 200 else None)
  /\ momentum closes 3 = Ok (momentum3 ind)
  /\ momentum closes 10 = Ok (momentum10 ind).
Proof.
  unfold analyzeIndicators. cbv zeta.
  destruct (rsi _ 14) as [r|]; cbn [bind]; [|discriminate].
  destruct (macd _) as [m|]; cbn [bind]; [|discriminate].
  destruct (ema _ 20) as [e20|]; cbn [bind]; [|discriminate].
  destruct (ema _ 50) as [e50|]; cbn [bind]; [|discriminate].
  destruct (atr _ 14) as [a|]; cbn [bind]; [|discriminate].
  destruct (momentum _ 3) as [m3|]; cbn [bind]; [|discriminate].
  destruct (momentum _ 10) as [m10|]; cbn [bind]; [|discriminate].
  intros E. injection E as <-. cbn. repeat split.
Qed.

End EmaFold.

(** * Further properties of the code *)

Local Open Scope Z_scope.

(** ** Empty input and unknown options *)

Lemma inherited_not_threshold {T : Type} `{Number T} (riskTolerance : string) :
  inherited riskTolerance = true -> assoc riskTolerance (@thresholds T _) = None.
Proof.
  unfold inherited. intros Hi. apply existsb_exists in Hi.
  destruct Hi as [k [Hk Ek]]. apply String.eqb_eq in Ek. subst k.
  cbn in Hk.
  repeat (destruct Hk as [<-|Hk]; [reflexivity|]). contradiction.
Qed.

Lemma generateSignal_defined {T : Type} `{Number T} (ohlcv : list (Candle T))
      (signalType riskTolerance : string) (now : Z) :
  ohlcv <> [] ->
  inherited signalType = false ->
  exists sig, generateSignal ohlcv signalType riskTolerance now = Ok sig.
Proof.
  intros Hne Hst. unfold generateSignal.
  destruct (analyzeIndicators_total ohlcv) as [ind [Ei [Hp _]]].
  destruct (prevMacdOf_total (map (@close T) ohlcv)) as [pm Epm].
  destruct (targetsOf_total signalType Hst) as [[[tp1 tp2] sl] Et].
  rewrite Ei. cbn [bind]. rewrite Epm. cbn [bind].
  destruct (currentPrice ind) as [price|] eqn:Eprice.
  - rewrite Et. cbn [bind]. eexists. reflexivity.
  - exfalso. apply Hne. now apply Hp.
Qed.

Local Open Scope string_scope.

(** An empty candle array makes [generateSignal] throw, whatever the
    options: the price is [undefined], every indicator is null, the
    arithmetic on the price yields NaN, and the first statement that
    throws is the destructuring of [targets[signalType]] for a signal type
    found on [Object.prototype], [price.toFixed(2)] otherwise. *)
Theorem generateSignal_empty_throws {T : Type} `{Number T}
        (signalType riskTolerance : string) (now : Z) :
  generateSignal (T:=T) [] signalType riskTolerance now
  = Fail (TypeError (if inherited signalType
                     then "targets[signalType] is not iterable"
                     else "cannot read properties of undefined (reading 'toFixed')")).
Proof.
  unfold generateSignal.
  destruct (analyzeIndicators_total (@nil (Candle T))) as [ind [Ei [Hp _]]].
  destruct (prevMacdOf_total (map (@close T) [])) as [pm Epm].
  rewrite Ei. cbn [bind]. rewrite Epm. cbn [bind]. rewrite (proj2 Hp eq_refl).
  destruct (inherited signalType) eqn:Hi.
  - now rewrite (targetsOf_inherited signalType Hi (inherited_not_target signalType Hi)).
  - destruct (targetsOf_total (T:=T) signalType Hi) as [t Et]. now rewrite Et.
Qed.

(** A signal type that is neither a key of [targets] nor a property of
    [Object.prototype] gives the result of "swing", and such a risk
    tolerance the result of "moderate": the [||] fallbacks. *)
Theorem unknown_options_fall_back {T : Type} `{Number T} (ohlcv : list (Candle T))
        (signalType riskTolerance : string) (now : Z) :
  (property (@targets T _) signalType = Missing ->
   generateSignal ohlcv signalType riskTolerance now
   = generateSignal ohlcv "swing" riskTolerance now)
  /\ (property (@thresholds T _) riskTolerance = Missing ->
      generateSignal ohlcv signalType riskTolerance now
      = generateSignal ohlcv signalType "moderate" now).
Proof.
  split; intros Hm; unfold generateSignal.
  - unfold targetsOf. rewrite Hm. reflexivity.
  - assert (Ht : forall regime v,
               thresholdOf (T:=T) riskTolerance regime v = thresholdOf "moderate" regime v).
    { intros regime v. unfold thresholdOf. rewrite Hm.
      change (property thresholds "moderate") with (Own (dec (T:=T) 36 10)).
      cbv beta iota. now destruct (truthy (dec 36 10)). }
    destruct (analyzeIndicators ohlcv) as [ind|e]; cbn [bind]; [|reflexivity].
    destruct (prevMacdOf (map (@close T) ohlcv)) as [pm|e]; cbn [bind]; [|reflexivity].
    destruct (currentPrice ind) as [price|]; [|reflexivity].
    now rewrite Ht.
Qed.

Lemma unknown_options_intraday_balanced :
  generateSignal one_candle "intraday" "balanced" 0
  = generateSignal one_candle "swing" "moderate" 0.
Proof.
  destruct (unknown_options_fall_back one_candle "intraday" "balanced" 0) as [H1 _].
  destruct (unknown_options_fall_back one_candle "swing" "balanced" 0) as [_ H2].
  rewrite H1, H2; reflexivity.
Defined.

(** A risk tolerance that names a property of [Object.prototype] -
    "constructor", "valueOf", ... - does not throw: the threshold is then a
    function or an object, every comparison of a score with it is false,
    and the signal is HOLD for every non-empty candle array. *)
Theorem inherited_risk_tolerance_holds {T : Type} `{Number T} (ohlcv : list (Candle T))
        (signalType riskTolerance : string) (now : Z) :
  ohlcv <> [] ->
  inherited signalType = false ->
  inherited riskTolerance = true ->
  exists sig, generateSignal ohlcv signalType riskTolerance now = Ok sig
              /\ sig_signal sig = HOLD.
Proof.
  intros Hne Hst Hrt.
  destruct (generateSignal_defined ohlcv signalType riskTolerance now Hne Hst)
    as [sig Hsig].
  exists sig. split; [assumption|].
  destruct (generateSignal_assess _ _ _ _ _ Hsig) as [a [Ha [Hd _]]].
  rewrite Hd. unfold assess in Ha.
  destruct (analyzeIndicators ohlcv) as [ind|e]; cbn [bind] in Ha; [|discriminate].
  destruct (prevMacdOf (map (@close T) ohlcv)) as [pm|e]; cbn [bind] in Ha;
    [|discriminate].
  destruct (currentPrice ind) as [price|]; [|discriminate].
  injection Ha as <-. cbn [as_scores as_threshold].
  assert (Ht : forall regime v, thresholdOf (T:=T) riskTolerance regime v = None).
  { intros regime v. unfold thresholdOf, property.
    rewrite (inherited_not_threshold riskTolerance Hrt), Hrt.
    destruct regime, v as [v|]; cbn; try destruct (ltb _ v); reflexivity. }
  rewrite Ht. unfold decide, reaches. reflexivity.
Qed.

Lemma inherited_risk_tolerance_constructor :
  exists sig, generateSignal one_candle "swing" "constructor" 0 = Ok sig
              /\ sig_signal sig = HOLD.
Proof.
  apply (inherited_risk_tolerance_holds one_candle "swing" "constructor" 0).
  - discriminate.
  - reflexivity.
  - reflexivity.
Defined.

Local Close Scope string_scope.

(** ** Array reads through [slice] and [map] *)

Local Open Scope Z_scope.

Lemma at_index_negative {A : Type} (l : list A) (i : Z) : i < 0 -> at_index l i = None.
Proof. intros Hi. unfold at_index. destruct (Z.ltb_spec i 0); [reflexivity|lia]. Qed.

Lemma at_index_beyond {A : Type} (l : list A) (i : Z) : len l <= i -> at_index l i = None.
Proof.
  intros Hi. unfold at_index, len in *. destruct (Z.ltb_spec i 0); [reflexivity|].
  apply nth_error_None. lia.
Qed.

Lemma at_index_in_range {A : Type} (l : list A) (i : Z) (a : A) :
  at_index l i = Some a -> 0 <= i < len l.
Proof.
  intros Ha. destruct (Z.lt_ge_cases i 0) as [Hneg|Hnn].
  - rewrite at_index_negative in Ha by assumption. discriminate.
  - destruct (Z.lt_ge_cases i (len l)) as [Hlt|Hge]; [lia|].
    rewrite at_index_beyond in Ha by assumption. discriminate.
Qed.

Lemma at_index_skipn_add {A : Type} (l : list A) (n : nat) (i : Z) :
  0 <= i -> at_index (skipn n l) i = at_index l (Z.of_nat n + i).
Proof.
  intros Hi. unfold at_index.
  destruct (Z.ltb_spec i 0); [lia|]. destruct (Z.ltb_spec (Z.of_nat n + i) 0); [lia|].
  rewrite nth_error_skipn. f_equal. lia.
Qed.

Lemma at_index_mapi_from {A B : Type} (f : A -> Z -> B) (xs : list A) :
  forall (k i : Z),
    at_index (mapi_from f k xs) i
    = option_map (fun x => f x (k + i)) (at_index xs i).
Proof.
  induction xs as [|x xs IH]; intros k i.
  - cbn [mapi_from]. unfold at_index. destruct (i <? 0); [reflexivity|].
    now destruct (Z.to_nat i).
  - destruct (Z.lt_ge_cases i 0) as [Hneg|Hnn].
    + now rewrite !at_index_negative by assumption.
    + cbn [mapi_from]. destruct (Z.eq_dec i 0) as [->|Hpos].
      * cbn. now rewrite Z.add_0_r.
      * assert (Hstep : forall (C : Type) (y : C) (ys : list C),
                   at_index (y :: ys) i = at_index ys (i - 1)).
        { intros C y ys. unfold at_index.
          destruct (Z.ltb_spec i 0); [lia|]. destruct (Z.ltb_spec (i - 1) 0); [lia|].
          replace (Z.to_nat i) with (Datatypes.S (Z.to_nat (i - 1))) by lia.
          reflexivity. }
        rewrite !Hstep, IH. destruct (at_index xs (i - 1)); cbn; [|reflexivity].
        do 2 f_equal. lia.
Qed.

Lemma at_index_mapi {A B : Type} (f : A -> Z -> B) (xs : list A) (i : Z) :
  at_index (mapi f xs) i = option_map (fun x => f x i) (at_index xs i).
Proof. unfold mapi. now rewrite at_index_mapi_from. Qed.

Lemma slice_to_end {A : Type} (l : list A) (start : Z) :
  slice l start None = skipn (Z.to_nat (rel_index (len l) start)) l.
Proof.
  unfold slice. apply firstn_all2. rewrite length_skipn.
  assert (0 <= rel_index (len l) start <= len l).
  { unfold rel_index. pose proof (len_nonneg l). destruct (Z.ltb_spec start 0); lia. }
  unfold len in *. lia.
Qed.

(** ** The simple average *)

(** [sma] reads the last [period] prices only, and is their [avg]; with
    period 0 it is not null: [slice(-0)] is the whole array, whose sum is
    divided by zero. *)
Theorem sma_reads_the_window {T : Type} `{Number T} (before window : list T) :
  (window <> [] -> sma (before ++ window) (len window) = avg window)
  /\ sma before 0 = Some (div (sum before) (of_Z 0)).
Proof.
  split.
  - intros Hw. assert (Hlen : 0 < len window).
    { unfold len. destruct window; [congruence|]. cbn [List.length]. lia. }
    rewrite sma_suffix by (rewrite len_app; pose proof (len_nonneg before); lia).
    unfold avg. destruct (Z.eqb_spec (len window) 0); [lia|].
    rewrite len_app. replace (len before + len window - len window) with (len before) by lia.
    unfold len at 1. rewrite Nat2Z.id, skipn_app, skipn_all, Nat.sub_diag. reflexivity.
  - unfold sma. pose proof (len_nonneg before).
    destruct (Z.ltb_spec (len before) 0); [lia|].
    change (- 0) with 0. rewrite slice_to_end. unfold rel_index.
    cbn [Z.ltb Z.compare]. rewrite Z.min_l by lia. reflexivity.
Qed.

Lemma sma_reads_the_window_sample :
  sma (T:=Q) ([5; 7] ++ [1; 2; 3])%Q 3 = avg [1; 2; 3]%Q.
Proof.
  apply (proj1 (sma_reads_the_window (T:=Q) [5; 7]%Q [1; 2; 3]%Q)). discriminate.
Defined.

(** ** The candles of a CoinGecko answer *)

(** [fetchFromCoinGecko] returns one candle for each of the last [limit]
    price points - for every price point when [limit] is 0, [slice(-0)]
    being the whole array, and for all but the first [-limit] when [limit]
    is negative.  Open and close are the price, high and low the price
    times 1.005 and 0.995.  The volume of the candle at position [i] of the
    result is read at position [i] of [total_volumes], counted from the
    start of that array and not from the start of the slice, and is 0 where
    that array ends. *)
Theorem coingecko_candles {T : Type} `{Number T} (data : MarketChart T) (limit : Z) :
  let ps := or_empty (prices data) in
  let vs := or_empty (total_volumes data) in
  let skipped :=
    if 0 <? limit then Z.max 0 (len ps - limit) else Z.min (- limit) (len ps) in
  len (fetchFromCoinGecko data limit) = len ps - skipped
  /\ forall (i : Z) (c : Candle T),
       at_index (fetchFromCoinGecko data limit) i = Some c ->
       exists p, at_index ps (skipped + i) = Some p
         /\ timestamp c = fst p /\ open c = snd p /\ close c = snd p
         /\ high c = mul (snd p) (dec 1005 1000)
         /\ low c = mul (snd p) (dec 995 1000)
         /\ volume c = match at_index vs i with
                       | Some v => snd v
                       | None => of_Z 0
                       end.
Proof.
  cbv zeta. unfold fetchFromCoinGecko.
  set (ps := or_empty (prices data)). set (vs := or_empty (total_volumes data)).
  set (skipped := if 0 <? limit then Z.max 0 (len ps - limit) else Z.min (- limit) (len ps)).
  assert (Hrel : rel_index (len ps) (- limit) = skipped).
  { subst skipped. unfold rel_index. pose proof (len_nonneg ps).
    destruct (Z.ltb_spec (- limit) 0), (Z.ltb_spec 0 limit); lia. }
  assert (Hsk : 0 <= skipped <= len ps).
  { subst skipped. pose proof (len_nonneg ps). destruct (Z.ltb_spec 0 limit); lia. }
  rewrite slice_to_end, Hrel. split.
  - rewrite mapi_length. unfold len. rewrite length_skipn. unfold len in Hsk. lia.
  - intros i c Hc. rewrite at_index_mapi in Hc.
    destruct (at_index (skipn (Z.to_nat skipped) ps) i) as [p|] eqn:Ep; [|discriminate].
    cbn [option_map] in Hc. injection Hc as <-.
    pose proof (at_index_in_range _ _ _ Ep) as Hi.
    rewrite at_index_skipn_add in Ep by lia. rewrite Z2Nat.id in Ep by lia.
    exists p. cbn. repeat split. exact Ep.
Qed.

(** ** The previous bar's MACD *)

(** The histogram of the previous bar exists from 36 closes on, although
    the guard of [prevMacd] is [closes.length > 30]: below that the MACD
    rule takes neither the "fresh crossover" nor the "strengthening"
    branch, and scores 1.1 or nothing. *)
Theorem previous_histogram_from_36 {T : Type} `{Number T} (closes : list T) :
  exists pm, prevMacdOf closes = Ok pm
    /\ (histogram pm = None <-> len closes < 36)
    /\ (len closes < 36 ->
        forall (m : Macd T) (st : ScoreState T),
          macdRule m pm st = st
          \/ macdRule m pm st = addBuy (dec 11 10) [Str "MACD remains bullish"] st
          \/ macdRule m pm st = addSell (dec 11 10) [Str "MACD remains bearish"] st
          \/ macdRule m pm st
             = push [Str "MACD near equilibrium - weak momentum conviction"] st).
Proof.
  assert (Hnone : forall pm : Macd T,
             histogram pm = None ->
             forall (m : Macd T) (st : ScoreState T),
               macdRule m pm st = st
               \/ macdRule m pm st = addBuy (dec 11 10) [Str "MACD remains bullish"] st
               \/ macdRule m pm st = addSell (dec 11 10) [Str "MACD remains bearish"] st
               \/ macdRule m pm st
                  = push [Str "MACD near equilibrium - weak momentum conviction"] st).
  { intros pm Hpm m st. unfold macdRule. rewrite Hpm.
    destruct (histogram m) as [h|]; [|now left].
    destruct (_ && _); [right; now left|].
    destruct (_ && _); [right; right; now left|]. right; right; now right. }
  unfold prevMacdOf. pose proof (len_nonneg closes) as Hnn.
  destruct (Z.gtb_spec (len closes) 30) as [Hgt|Hle].
  - destruct (macd_total (slice closes 0 (Some (-1)))) as [pm [Epm [_ [_ [_ Hh]]]]].
    assert (Hl : len (slice closes 0 (Some (-1))) = len closes - 1).
    { rewrite slice_length. unfold rel_index. cbn [Z.ltb Z.compare]. lia. }
    rewrite Hl in Hh. exists pm. split; [assumption|].
    split; [rewrite Hh; lia|]. intros Hlt. apply Hnone. apply Hh. lia.
  - exists no_macd. split; [reflexivity|]. cbn [no_macd histogram].
    split; [split; [lia|reflexivity]|]. intros _. now apply Hnone.
Qed.

(** ** The handler's whitelists *)

Local Open Scope string_scope.




Local Close Scope string_scope.

Local Open Scope Q_scope.

(** ** What [generateSignal] returns, field by field *)

Section SignalFields.

Context {T : Type} `{Number T}.
Local Open Scope js_scope.

Lemma generateSignal_fields (ohlcv : list (Candle T)) (signalType riskTolerance : string)
      (now : Z) (sig : Signal T) :
  generateSignal ohlcv signalType riskTolerance now = Ok sig ->
  exists a ind tp1Pct tp2Pct slPct,
    assess ohlcv riskTolerance = Ok (Some a)
    /\ analyzeIndicators ohlcv = Ok ind
    /\ targetsOf signalType = Ok (tp1Pct, tp2Pct, slPct)
    /\ as_scores a = scoringPass ind
                       match prevMacdOf (map (@close T) ohlcv) with
                       | Ok pm => pm
                       | Fail _ => no_macd
                       end (as_price a) (as_regime a)
    /\ as_threshold a = thresholdOf riskTolerance (as_regime a) (volatility20 ind)
    /\ sig_signal sig = decide (as_scores a) (as_threshold a)
    /\ confidence sig = toFixed 1 (confidenceOf (sig_signal sig) (as_scores a))
    /\ sig_currentPrice sig = toFixed 2 (as_price a)
    /\ (let price := as_price a in
        let dir := dirOf (sig_signal sig) in
        let atrPct := atrPctOf (atr14 ind) price in
        entryRange sig
        = (toFixed 2 (price * (of_Z 1 - entryPadPctOf atrPct)),
           toFixed 2 (price * (of_Z 1 + entryPadPctOf atrPct)))
        /\ takeProfit1 sig = toFixed 2 (price * (of_Z 1 + dir * tp1Pct))
        /\ takeProfit2 sig = toFixed 2 (price * (of_Z 1 + dir * tp2Pct))
        /\ stopLoss sig = toFixed 2 (price * (of_Z 1 - dir * dynamicSlPctOf atrPct slPct)))
    /\ sig_reasons sig
       = match sig_signal sig with
         | HOLD => reasons (as_scores a) ++ [holdReason]
         | _ => reasons (as_scores a)
         end
    /\ indicators sig = display ind
    /\ currentPrice ind = Some (as_price a)
    /\ as_regime a = regimeOf (trendBias (ema20 ind) (ema50 ind) (as_price a)).
Proof.
  unfold generateSignal, assess.
  destruct (analyzeIndicators ohlcv) as [ind|e]; cbn [bind]; [|discriminate].
  destruct (prevMacdOf (map (@close T) ohlcv)) as [pm|e]; cbn [bind]; [|discriminate].
  destruct (currentPrice ind) as [price|] eqn:Eprice.
  - destruct (targetsOf signalType) as [[[tp1 tp2] sl]|e]; cbn [bind]; [|discriminate].
    intros E. injection E as <-.
    eexists. exists ind, tp1, tp2, sl. split; [reflexivity|].
    cbn [as_price as_regime as_scores as_threshold sig_signal confidence
         sig_currentPrice entryRange takeProfit1 takeProfit2 stopLoss sig_reasons
         indicators].
    cbv zeta. repeat (split; [reflexivity|]). split; [repeat split|].
    split; [now destruct (decide _ _)|]. split; [reflexivity|].
    split; [assumption|reflexivity].
  - destruct (targetsOf signalType); cbn [bind]; discriminate.
Qed.

End SignalFields.

(** ** Order on exact numbers *)

Local Open Scope Q_scope.

Lemma exact_leb_false (a b : Q) : Qle_bool a b = false <-> b < a.
Proof.
  split.
  - intros E. apply Qnot_le_lt. intros Hle. apply Qle_bool_iff in Hle. congruence.
  - intros Hlt. destruct (Qle_bool a b) eqn:E; [|reflexivity].
    apply Qle_bool_iff in E. exfalso. now apply (Qlt_not_le b a).
Qed.

Lemma exact_min_cases (a b : Q) :
  (a <= b /\ Math_min a b = a) \/ (b < a /\ Math_min a b = b).
Proof.
  cbn [Math_min Exact.number]. destruct (Qle_bool a b) eqn:E.
  - left. split; [now apply Qle_bool_iff|reflexivity].
  - right. split; [now apply exact_leb_false|reflexivity].
Qed.

Lemma exact_max_cases (a b : Q) :
  (a <= b /\ Math_max a b = b) \/ (b < a /\ Math_max a b = a).
Proof.
  cbn [Math_max Exact.number]. destruct (Qle_bool a b) eqn:E.
  - left. split; [now apply Qle_bool_iff|reflexivity].
  - right. split; [now apply exact_leb_false|reflexivity].
Qed.

Ltac order_cases :=
  repeat match goal with
         | |- context [@Math_min Q _ ?a ?b] =>
             let E := fresh "E" in
             destruct (exact_min_cases a b) as [[? E]|[? E]]; rewrite E in *; clear E
         | |- context [@Math_max Q _ ?a ?b] =>
             let E := fresh "E" in
             destruct (exact_max_cases a b) as [[? E]|[? E]]; rewrite E in *; clear E
         | _ : context [@Math_min Q _ ?a ?b] |- _ =>
             let E := fresh "E" in
             destruct (exact_min_cases a b) as [[? E]|[? E]]; rewrite E in *; clear E
         | _ : context [@Math_max Q _ ?a ?b] |- _ =>
             let E := fresh "E" in
             destruct (exact_max_cases a b) as [[? E]|[? E]]; rewrite E in *; clear E
         end.

(** ** [clamp] at its edges *)

(** On exact numbers [clamp] returns a value between its bounds when they
    are in order, the value itself when it lies between them, and the lower
    bound when the bounds are swapped; on binary64 the clamp of NaN is
    NaN, whatever the bounds. *)
Theorem clamp_laws :
  (forall v lo hi : Q, lo <= hi -> lo <= clamp v lo hi <= hi)
  /\ (forall v lo hi : Q, lo <= v <= hi -> clamp v lo hi == v)
  /\ (forall v lo hi : Q, hi < lo -> clamp v lo hi = lo)
  /\ (forall lo hi : float, clamp PrimFloat.nan lo hi = PrimFloat.nan).
Proof.
  split; [|split; [|split]].
  - intros v lo hi Hle. unfold clamp. order_cases; lra.
  - intros v lo hi Hv. unfold clamp. order_cases; lra.
  - intros v lo hi Hlt. unfold clamp. order_cases; try reflexivity; lra.
  - intros lo hi. unfold clamp. cbn [Math_max Math_min Float64.number].
    unfold Float64.min.
    replace (PrimFloat.is_nan hi || PrimFloat.is_nan PrimFloat.nan)%bool with true
      by (symmetry; apply orb_true_r).
    unfold Float64.max. now rewrite orb_true_r.
Qed.

Lemma clamp_laws_confidence :
  clamp (T:=Q) 120 55 95 == 95 /\ clamp (T:=Q) 60 55 95 == 60
  /\ clamp (T:=Q) 60 95 55 = 95.
Proof.
  destruct clamp_laws as [Hb [Hv [Hs _]]].
  split; [|split].
  - destruct (Hb 120 55 95 ltac:(lra)) as [_ Hhi]. apply Qle_antisym; [exact Hhi|].
    vm_compute. discriminate.
  - apply Hv. lra.
  - apply Hs. lra.
Defined.

Local Open Scope Q_scope.

(** ** The reasons of a signal *)

Ltac rule_cases :=
  repeat match goal with
         | |- context [match ?x with _ => _ end] => destruct x
         end.

Section Reasons.

Context {T : Type} `{Number T}.

Ltac one_reason :=
  intros st; cbv zeta; rule_cases;
  cbn [reasons addBuy addSell push scale set_scores];
  first [ now left | right; eexists; split; [reflexivity|discriminate] ].

Lemma rsiRule_reason regime rsiVal : appends_at_most_one (rsiRule (T:=T) regime rsiVal).
Proof. unfold rsiRule. one_reason. Qed.

Lemma macdRule_reason macdVal prevMacd :
  appends_at_most_one (macdRule (T:=T) macdVal prevMacd).
Proof. unfold macdRule. one_reason. Qed.

Lemma bollingerTouchRule_reason regime bb price :
  appends_at_most_one (bollingerTouchRule (T:=T) regime bb price).
Proof. unfold bollingerTouchRule. one_reason. Qed.

Lemma bollingerWidthRule_reason bb : appends_at_most_one (bollingerWidthRule (T:=T) bb).
Proof. unfold bollingerWidthRule. one_reason. Qed.

Lemma emaRule_reason e20 e50 price : appends_at_most_one (emaRule (T:=T) e20 e50 price).
Proof. unfold emaRule. one_reason. Qed.

Lemma sma200Rule_reason s price : appends_at_most_one (sma200Rule (T:=T) s price).
Proof. unfold sma200Rule. one_reason. Qed.

Lemma momentumRule_reason m3 m10 : appends_at_most_one (momentumRule (T:=T) m3 m10).
Proof. unfold momentumRule. one_reason. Qed.

Lemma volumeRule_reason v : appends_at_most_one (volumeRule (T:=T) v).
Proof. unfold volumeRule. one_reason. Qed.

Lemma contradictionRule_reason : appends_at_most_one (contradictionRule (T:=T)).
Proof. unfold contradictionRule. one_reason. Qed.

Lemma run_reasons (steps : list (ScoreState T -> ScoreState T)) :
  Forall appends_at_most_one steps ->
  forall st, exists more,
      reasons (run steps st) = reasons st ++ more
      /\ (List.length more <= List.length steps)%nat
      /\ ~ In holdReason more.
Proof.
  intros Hall. induction Hall as [|step steps Hstep _ IH]; intros st.
  - exists []. cbn. rewrite app_nil_r. repeat split; [lia|tauto].
  - cbn [run fold_left]. destruct (IH (step st)) as [more [E [Hlen Hin]]].
    fold (run steps (step st)). rewrite E.
    destruct (Hstep st) as [Es|[r [Es Hr]]]; rewrite Es.
    + exists more. cbn [List.length]. repeat split; [lia|assumption].
    + exists (r :: more). rewrite <- app_assoc. cbn [app List.length].
      repeat split; [lia|]. intros [Hx|Hx]; [now apply Hr|now apply Hin].
Qed.

Lemma scoringPass_reasons (ind : IndicatorSet T) (prevMacd : Macd T) (price : T)
      (regime : Regime) :
  exists more,
    reasons (scoringPass ind prevMacd price regime) = regimeReason regime :: more
    /\ (List.length more <= 9)%nat
    /\ ~ In holdReason more.
Proof.
  unfold scoringPass, scoringSteps.
  match goal with |- context [run (?f :: ?steps) ?s0] =>
    change (run (f :: steps) s0) with (run steps (f s0));
    assert (Hall : Forall appends_at_most_one steps);
    [|destruct (run_reasons steps Hall (f s0)) as [more [E Hmore]]]
  end.
  - repeat apply Forall_cons; try apply Forall_nil.
    + apply rsiRule_reason.
    + apply macdRule_reason.
    + apply bollingerTouchRule_reason.
    + apply bollingerWidthRule_reason.
    + apply emaRule_reason.
    + apply sma200Rule_reason.
    + apply momentumRule_reason.
    + apply volumeRule_reason.
    + apply contradictionRule_reason.
  - exists more. split; [|exact Hmore]. rewrite E. now destruct regime.
Qed.

(** The reasons of a signal start with the line on the market regime, which
    up to ten more follow: at most one from each of the nine later steps of
    the scoring pass, and then the line on the insufficient edge, which is
    the last reason of every HOLD and is no reason of a BUY or SELL. *)
Theorem reasons_shape (ohlcv : list (Candle T)) (signalType riskTolerance : string)
        (now : Z) (sig : Signal T) :
  generateSignal ohlcv signalType riskTolerance now = Ok sig ->
  exists a rest,
    assess ohlcv riskTolerance = Ok (Some a)
    /\ sig_reasons sig = regimeReason (as_regime a) :: rest
    /\ (List.length rest <= 10)%nat
    /\ (sig_signal sig = HOLD -> last rest [] = holdReason)
    /\ (sig_signal sig <> HOLD -> ~ In holdReason (sig_reasons sig)).
Proof.
  intros Hsig.
  destruct (generateSignal_fields _ _ _ _ _ Hsig)
    as (a & ind & tp1 & tp2 & sl & Ha & _ & _ & Hscores & _ & _ & _ & _ & _ & Hr & _ & _ & _).
  rewrite Hscores in Hr.
  match type of Hr with context [scoringPass ?i ?pm ?p ?r] =>
    destruct (scoringPass_reasons i pm p r) as [more [E [Hlen Hin]]]
  end.
  rewrite E in Hr. exists a.
  destruct (sig_signal sig) eqn:Es.
  - exists more. rewrite Hr. split; [assumption|]. split; [reflexivity|].
    split; [lia|]. split; [discriminate|].
    intros _ [Hx|Hx]; [destruct (as_regime a); discriminate Hx|now apply Hin].
  - exists more. rewrite Hr. split; [assumption|]. split; [reflexivity|].
    split; [lia|]. split; [discriminate|].
    intros _ [Hx|Hx]; [destruct (as_regime a); discriminate Hx|now apply Hin].
  - exists (more ++ [holdReason]). rewrite Hr. split; [assumption|].
    split; [reflexivity|]. rewrite length_app. cbn [List.length].
    split; [lia|]. split; [|congruence]. intros _. apply last_last.
Qed.

End Reasons.

Local Open Scope string_scope.

Lemma reasons_shape_one_candle :
  exists sig,
    generateSignal one_candle "swing" "moderate" 0 = Ok sig
    /\ sig_reasons sig = [regimeReason range; holdReason].
Proof.
  eassert (E : generateSignal one_candle "swing" "moderate" 0 = Ok _)
    by (vm_compute; reflexivity).
  eexists. split; [exact E|].
  destruct (reasons_shape one_candle "swing" "moderate" 0 _ E)
    as (a & rest & Ha & Hr & _ & _ & _).
  reflexivity.
Defined.

Local Close Scope string_scope.

Local Open Scope Q_scope.

(** ** The synthetic candles *)

Local Open Scope Z_scope.

Lemma at_index_snoc {A : Type} (l : list A) (x c : A) (i : Z) :
  at_index (l ++ [x]) i = Some c ->
  at_index l i = Some c \/ (i = len l /\ c = x).
Proof.
  intros Hc. pose proof (at_index_in_range _ _ _ Hc) as Hi.
  rewrite len_app in Hi. change (len [x]) with 1 in Hi.
  unfold at_index in *. destruct (Z.ltb_spec i 0); [lia|].
  destruct (Z.lt_ge_cases i (len l)) as [Hlt|Hge].
  - left. rewrite nth_error_app1 in Hc by (unfold len in Hlt; lia). exact Hc.
  - right. assert (Ei : i = len l) by lia. split; [exact Ei|].
    rewrite nth_error_app2 in Hc by (unfold len in Ei; lia).
    replace (Z.to_nat i - List.length l)%nat with O in Hc by (unfold len in Ei; lia).
    cbn in Hc. congruence.
Qed.

Lemma step_fields (trend volatility : float) (intervalMs : Interval)
      (st : Demo.LoopState) :
  exists c, Demo.ohlcv (Demo.step trend volatility intervalMs st) = Demo.ohlcv st ++ [c]
            /\ timestamp c = Demo.ts st
            /\ Demo.ts (Demo.step trend volatility intervalMs st)
               = advance (Demo.ts st) intervalMs.
Proof.
  unfold Demo.step. destruct (Demo.rand (Demo.seed st)) as [sd1 r1].
  destruct (Demo.rand sd1) as [sd2 r2]. destruct (Demo.rand sd2) as [sd3 r3].
  destruct (Demo.rand sd3) as [sd4 r4]. destruct (Demo.rand sd4) as [sd5 r5].
  eexists. cbn [Demo.ohlcv Demo.ts]. split; [reflexivity|]. split; reflexivity.
Qed.

Lemma intervalMsOf_positive (timeframe : string) :
  inherited timeframe = false ->
  exists ms, Demo.intervalMsOf timeframe = Ms ms /\ 0 < ms.
Proof.
  intros Hi. pose proof (intervalMsOf_cases timeframe) as Hc. now rewrite Hi in Hc.
Qed.

(** For a timeframe that is no property of [Object.prototype] the generator
    returns [limit] candles (none for a limit below 1), one interval apart,
    the last one an interval before the clock: candle [i] is stamped
    [now - (limit - i) * intervalMs]. *)
Theorem demo_candles_are_evenly_spaced (symbol timeframe : string) (limit now : Z) :
  inherited timeframe = false ->
  exists ms candles,
    Demo.intervalMsOf timeframe = Ms ms /\ 0 < ms
    /\ Demo.generateDemoData symbol timeframe limit now = Ok candles
    /\ len candles = Z.max 0 limit
    /\ forall i c, at_index candles i = Some c ->
                   timestamp c = now - (limit - i) * ms.
Proof.
  intros Hi. destruct (intervalMsOf_positive timeframe Hi) as [ms [Ems Hms]].
  exists ms. unfold Demo.generateDemoData.
  destruct (Demo.rand (Demo.hashSeed (symbol ++ timeframe))) as [sd1 r1].
  destruct (Demo.rand sd1) as [sd2 r2]. rewrite Ems. cbv zeta. cbn [back_from].
  destruct (Z.le_gt_cases limit 0) as [Hle|Hpos].
  - rewrite for_range_empty by lia. cbn [bind Demo.ohlcv]. exists [].
    repeat split; try assumption; [cbn; lia|]. intros i c Hc. apply at_index_in_range in Hc. cbn in Hc. lia.
  - match goal with |- context [for_range 0 limit ?body ?init] =>
      destruct (for_range_invariant
                  (fun j (st : Demo.LoopState) =>
                     Demo.ts st = Time (now - limit * ms + j * ms)
                     /\ len (Demo.ohlcv st) = j
                     /\ forall i c, at_index (Demo.ohlcv st) i = Some c ->
                                    timestamp c = Time (now - limit * ms + i * ms))
                  body 0 limit init ltac:(lia))
        as [st [E [_ [Hlen Hts]]]]
    end.
    + cbn [Demo.ts Demo.ohlcv]. split; [f_equal; lia|]. split; [reflexivity|].
      intros i c Hc. apply at_index_in_range in Hc. cbn in Hc. lia.
    + intros j st Hj [Hts [Hlen Hall]]. eexists. split; [reflexivity|].
      match goal with |- context [Demo.step ?tr ?vol (Ms ms) st] =>
        destruct (step_fields tr vol (Ms ms) st) as [c [Eo [Ec Et]]]
      end.
      rewrite Eo, Et, Hts. cbn [advance]. split; [f_equal; lia|].
      split; [rewrite len_app; cbn; lia|].
      intros i c' Hc'. apply at_index_snoc in Hc'.
      destruct Hc' as [Hc'|[-> ->]]; [now apply Hall|]. rewrite Ec, Hts, Hlen. reflexivity.
    + rewrite E. cbn [bind]. exists (Demo.ohlcv st).
      repeat split; try assumption; [lia|].
      intros i c Hc. rewrite (Hts i c Hc). f_equal. lia.
Qed.

Local Open Scope string_scope.

Lemma demo_candles_one_hour :
  exists candles,
    Demo.generateDemoData "BTCUSDT" "1h" 3 10800000 = Ok candles
    /\ map (@timestamp float) candles = [Time 0; Time 3600000; Time 7200000].
Proof.
  destruct (demo_candles_are_evenly_spaced "BTCUSDT" "1h" 3 10800000 eq_refl)
    as (ms & candles & Ems & _ & E & Hlen & Hts).
  exists candles. split; [exact E|].
  injection Ems as <-.
  destruct candles as [|c0 [|c1 [|c2 [|c3 rest]]]];
    try (unfold len in Hlen; cbn [List.length] in Hlen; lia).
  cbn [map]. rewrite (Hts 0%Z c0 eq_refl), (Hts 1%Z c1 eq_refl), (Hts 2%Z c2 eq_refl).
  reflexivity.
Defined.

Local Close Scope string_scope.

Lemma iterate_step_length (trend volatility : float) (intervalMs : Interval) (n : nat) :
  forall (i : Z) (st : Demo.LoopState),
    exists st',
      iterate (fun _ st => Ok (Demo.step trend volatility intervalMs st)) n i st = Ok st'
      /\ List.length (Demo.ohlcv st') = (List.length (Demo.ohlcv st) + n)%nat.
Proof.
  induction n as [|n IH]; intros i st.
  - exists st. split; [reflexivity|lia].
  - cbn [iterate bind].
    destruct (IH (i + 1) (Demo.step trend volatility intervalMs st)) as [st' [E Hl]].
    exists st'. split; [exact E|].
    destruct (step_fields trend volatility intervalMs st) as [c [Eo _]].
    rewrite Hl, Eo, length_app. cbn [List.length]. lia.
Qed.

(** The last resort always answers: for a timeframe and a signal type that
    are no properties of [Object.prototype] and a limit of at least 1,
    [generateDemoData] returns candles on which [generateSignal] returns a
    signal, whatever the symbol, the risk tolerance and the clock. *)
Theorem synthetic_candles_give_a_signal (symbol timeframe signalType riskTolerance : string)
        (limit now clock : Z) :
  inherited timeframe = false ->
  inherited signalType = false ->
  1 <= limit ->
  exists candles sig,
    Demo.generateDemoData symbol timeframe limit now = Ok candles
    /\ len candles = limit
    /\ generateSignal candles signalType riskTolerance clock = Ok sig.
Proof.
  intros _ Hst Hlimit.
  unfold Demo.generateDemoData.
  destruct (Demo.rand (Demo.hashSeed (symbol ++ timeframe))) as [sd1 r1].
  destruct (Demo.rand sd1) as [sd2 r2]. cbv zeta. unfold for_range.
  match goal with |- context [iterate (fun _ st => Ok (Demo.step ?tr ?vol ?m st)) ?n ?i ?init] =>
    destruct (iterate_step_length tr vol m n i init) as [st [E Hl]]
  end.
  rewrite E. cbn [bind]. cbn [Demo.ohlcv List.length] in Hl.
  assert (Hlen : len (Demo.ohlcv st) = limit) by (unfold len; lia).
  destruct (generateSignal_defined (Demo.ohlcv st) signalType riskTolerance clock)
    as [sig Hsig]; [|assumption|].
  - intros Hnil. rewrite Hnil in Hlen. cbn in Hlen. lia.
  - exists (Demo.ohlcv st), sig. auto.
Qed.

Local Open Scope string_scope.

Lemma synthetic_candles_last_resort :
  exists candles sig,
    Demo.generateDemoData "BTCUSDT" "4h" 120 0 = Ok candles
    /\ len candles = 120
    /\ generateSignal candles "swing" "moderate" 0 = Ok sig.
Proof.
  apply (synthetic_candles_give_a_signal "BTCUSDT" "4h" "swing" "moderate" 120 0 0);
    [reflexivity|reflexivity|lia].
Defined.

Local Close Scope string_scope.

Local Open Scope Q_scope.

(** ** Fields that are never read *)

Local Open Scope Z_scope.

Section Unread.

Context {T : Type} `{Number T}.

Lemma iterate_ext {S : Type} (body body' : Z -> S -> result S) (n : nat) :
  (forall i s, body i s = body' i s) ->
  forall i s, iterate body n i s = iterate body' n i s.
Proof.
  intros Hb. induction n as [|n IH]; intros i s; [reflexivity|].
  cbn [iterate]. rewrite Hb. destruct (body' i s); [|reflexivity].
  cbn [bind]. apply IH.
Qed.

Lemma at_index_map {A B : Type} (f : A -> B) (l : list A) (i : Z) :
  at_index (map f l) i = option_map f (at_index l i).
Proof.
  unfold at_index. destruct (i <? 0); [reflexivity|]. apply nth_error_map.
Qed.

Lemma slice_map {A B : Type} (f : A -> B) (l : list A) (start : Z) (stop : option Z) :
  slice (map f l) start stop = map f (slice l start stop).
Proof.
  unfold slice. rewrite len_map. now rewrite skipn_map, firstn_map.
Qed.

Lemma closes_priced (ohlcv : list (Candle T)) :
  map (@close T) (map priced ohlcv) = map (@close T) ohlcv.
Proof. rewrite map_map. reflexivity. Qed.

Lemma atr_priced (ohlcv : list (Candle T)) (period : Z) :
  atr (map priced ohlcv) period = atr ohlcv period.
Proof.
  unfold atr. rewrite len_map. destruct (len ohlcv <? period + 1); [reflexivity|].
  f_equal. unfold for_range. apply iterate_ext. intros i trs.
  unfold candle. rewrite !at_index_map.
  destruct (at_index ohlcv i) as [c|]; [|reflexivity].
  destruct (at_index ohlcv (i - 1)) as [prev|]; reflexivity.
Qed.

Lemma analyzeIndicators_priced (ohlcv : list (Candle T)) :
  analyzeIndicators (map priced ohlcv) = analyzeIndicators ohlcv.
Proof.
  unfold analyzeIndicators. rewrite closes_priced, atr_priced, (slice_map priced), !len_map.
  rewrite (at_index_map priced), map_map.
  replace (map (fun x => volume (priced x)) (slice ohlcv (-20) None))
    with (map (@volume T) (slice ohlcv (-20) None)) by reflexivity.
  destruct (at_index ohlcv (len ohlcv - 1)); reflexivity.
Qed.

(** Neither the timestamp nor the open of a candle is read: candle
    arrays that agree on the highs, lows, closes and volumes give the same
    indicators and the same result, signal or error. *)
Theorem timestamp_and_open_are_unread (ohlcv ohlcv' : list (Candle T))
    (signalType riskTolerance : string) (now : Z) :
  map priced ohlcv = map priced ohlcv' ->
  analyzeIndicators ohlcv = analyzeIndicators ohlcv'
  /\ generateSignal ohlcv signalType riskTolerance now
     = generateSignal ohlcv' signalType riskTolerance now.
Proof.
  intros Hsame.
  assert (Hi : analyzeIndicators ohlcv = analyzeIndicators ohlcv').
  { now rewrite <- (analyzeIndicators_priced ohlcv), Hsame, analyzeIndicators_priced. }
  assert (Hc : map (@close T) ohlcv = map (@close T) ohlcv').
  { now rewrite <- (closes_priced ohlcv), Hsame, closes_priced. }
  split; [exact Hi|]. unfold generateSignal. now rewrite Hi, Hc.
Qed.

End Unread.

(** The closes of CoinGecko under timestamps and opens of another source. *)
Lemma timestamp_and_open_are_unread_sample :
  generateSignal (T:=float)
    [{| timestamp := 1; open := Float64.of_Z 90; high := Float64.of_Z 101;
        low := Float64.of_Z 99; close := Float64.of_Z 100; volume := Float64.of_Z 7 |}]
    "swing" "moderate" 0
  = generateSignal
      [{| timestamp := 2; open := Float64.of_Z 100; high := Float64.of_Z 101;
          low := Float64.of_Z 99; close := Float64.of_Z 100;
          volume := Float64.of_Z 7 |}]
      "swing" "moderate" 0.
Proof.
  apply (timestamp_and_open_are_unread (T:=float)). reflexivity.
Defined.

(** ** Empty answers *)

(** The chain of sources falls back on a rejected request only: an
    answer without candles (an empty array from Binance, no prices or an
    empty list of them from CoinGecko) is passed on as an empty array, on
    which [generateSignal] throws. *)
Theorem empty_answers_are_passed_on (binance : settled (list (Candle float)))
    (gecko : settled (MarketChart float)) (symbol timeframe : string) (limit now : Z)
    (signalType riskTolerance : string) :
  binance = fulfilled []
  \/ (binance = rejected
      /\ exists volumes, gecko = fulfilled {| prices := None; total_volumes := volumes |}
                         \/ gecko = fulfilled {| prices := Some [];
                                                 total_volumes := volumes |}) ->
  fetchOHLCV binance gecko symbol timeframe limit now = Ok []
  /\ exists message,
       generateSignal (T:=float) [] signalType riskTolerance now
       = Fail (TypeError message).
Proof.
  intros Hempty. split.
  - destruct Hempty as [-> | (-> & volumes & [-> | ->])]; [reflexivity| |].
    + unfold fetchOHLCV, fetchFromCoinGecko. cbn [prices or_empty].
      unfold slice. now rewrite skipn_nil, firstn_nil.
    + unfold fetchOHLCV, fetchFromCoinGecko. cbn [prices or_empty].
      unfold slice. now rewrite skipn_nil, firstn_nil.
  - unfold generateSignal. cbn. unfold targetsOf.
    destruct (property _ signalType); eexists; reflexivity.
Qed.

Lemma empty_answers_are_passed_on_gecko :
  fetchOHLCV rejected (fulfilled {| prices := None; total_volumes := None |})
    "BTCUSDT" "4h" 150 0 = Ok [].
Proof.
  apply (empty_answers_are_passed_on rejected
           (fulfilled {| prices := None; total_volumes := None |})
           "BTCUSDT" "4h" 150 0 "swing" "moderate").
  right. split; [reflexivity|]. exists None. now left.
Defined.

Local Open Scope Z_scope.

(** ** The scores a pass can reach *)

Section Reach.

Context {T : Type} `{Number T}.
Local Open Scope js_scope.

Lemma erase_addBuy (points : T) (reason : Reason T) (st : ScoreState T) :
  erase (addBuy points reason st) = addBuy points [] (erase st).
Proof. unfold erase, addBuy. cbn. now rewrite map_app. Qed.

Lemma erase_addSell (points : T) (reason : Reason T) (st : ScoreState T) :
  erase (addSell points reason st) = addSell points [] (erase st).
Proof. unfold erase, addSell. cbn. now rewrite map_app. Qed.

Lemma erase_push (reason : Reason T) (st : ScoreState T) :
  erase (push reason st) = push [] (erase st).
Proof. unfold erase, push. cbn. now rewrite map_app. Qed.

Lemma erase_scale (f : T) (st : ScoreState T) : erase (scale f st) = scale f (erase st).
Proof. reflexivity. Qed.

Lemma erase_erase (st : ScoreState T) : erase (erase st) = erase st.
Proof. unfold erase. cbn. now rewrite map_map. Qed.

Ltac outcome :=
  rewrite ?erase_scale, ?erase_addBuy, ?erase_addSell, ?erase_push;
  cbn [nth outcomes map In]; unfold keep, moderated; tauto.

Lemma regimeRule_follows regime : follows (T:=T) (regimeRule regime) [push []].
Proof. intros st. unfold regimeRule. outcome. Qed.

Lemma rsiRule_follows regime rsiVal :
  follows (T:=T) (rsiRule regime rsiVal) (nth 1 (outcomes regime) []).
Proof.
  intros st. unfold rsiRule. destruct rsiVal as [r|]; [|destruct regime; outcome].
  destruct regime; cbn [nth outcomes];
    repeat match goal with |- context [if ?c then _ else _] => destruct c end; outcome.
Qed.

Lemma macdRule_follows macdVal prevMacd regime :
  follows (T:=T) (macdRule macdVal prevMacd) (nth 2 (outcomes regime) []).
Proof.
  intros st. unfold macdRule. cbn [nth outcomes].
  destruct (histogram macdVal) as [h|]; [|outcome].
  destruct (histogram prevMacd) as [p|];
    repeat match goal with |- context [if ?c then _ else _] => destruct c end; outcome.
Qed.

Lemma bollingerTouchRule_follows regime bb price :
  follows (T:=T) (bollingerTouchRule regime bb price) (nth 3 (outcomes regime) []).
Proof.
  intros st. unfold bollingerTouchRule. cbn [nth outcomes].
  destruct (lower bb), (middle bb), (upper bb); try outcome.
  repeat match goal with |- context [if ?c then _ else _] => destruct c end; outcome.
Qed.

Lemma bollingerWidthRule_follows bb regime :
  follows (T:=T) (bollingerWidthRule bb) (nth 4 (outcomes regime) []).
Proof.
  intros st. unfold bollingerWidthRule. cbn [nth outcomes].
  destruct (lower bb), (middle bb), (upper bb); try outcome.
  repeat match goal with |- context [if ?c then _ else _] => destruct c end; outcome.
Qed.

Lemma emaRule_follows e20 e50 price regime :
  follows (T:=T) (emaRule e20 e50 price) (nth 5 (outcomes regime) []).
Proof.
  intros st. unfold emaRule. cbn [nth outcomes].
  destruct e20, e50; try outcome.
  repeat match goal with |- context [if ?c then _ else _] => destruct c end; outcome.
Qed.

Lemma sma200Rule_follows s price regime :
  follows (T:=T) (sma200Rule s price) (nth 6 (outcomes regime) []).
Proof.
  intros st. unfold sma200Rule. cbn [nth outcomes].
  destruct s; try outcome.
  repeat match goal with |- context [if ?c then _ else _] => destruct c end; outcome.
Qed.

Lemma momentumRule_follows m3 m10 regime :
  follows (T:=T) (momentumRule m3 m10) (nth 7 (outcomes regime) []).
Proof.
  intros st. unfold momentumRule. cbn [nth outcomes].
  destruct m3, m10; try outcome.
  repeat match goal with |- context [if ?c then _ else _] => destruct c end; outcome.
Qed.

Lemma volumeRule_follows v regime :
  follows (T:=T) (volumeRule v) (nth 8 (outcomes regime) []).
Proof.
  intros st. unfold volumeRule. cbn [nth outcomes].
  destruct v as [v|]; [|outcome].
  destruct (v >? dec 16 10).
  - right; left. unfold spike. cbn [push buyScore sellScore erase].
    repeat match goal with |- context [if ?c then _ else _] => destruct c end;
      unfold set_scores, erase; cbn; now rewrite map_app.
  - destruct (v <? dec 75 100); outcome.
Qed.

Lemma contradictionRule_follows regime :
  follows (T:=T) contradictionRule (nth 9 (outcomes regime) []).
Proof.
  intros st. cbn [nth outcomes map In]. left. unfold penalty, contradictionRule.
  cbn [erase buyScore sellScore].
  destruct (_ && _); [|now rewrite erase_erase].
  unfold push, set_scores, erase. cbn. now rewrite !map_app, map_map.
Qed.

Lemma scoringSteps_follow ind prevMacd price regime :
  Forall2 (follows (T:=T)) (scoringSteps ind prevMacd price regime) (outcomes regime).
Proof.
  unfold scoringSteps.
  pose proof (rsiRule_follows regime (ind_rsi ind)) as H1.
  pose proof (macdRule_follows (ind_macd ind) prevMacd regime) as H2.
  pose proof (bollingerTouchRule_follows regime (ind_bollingerBands ind) price) as H3.
  pose proof (bollingerWidthRule_follows (ind_bollingerBands ind) regime) as H4.
  pose proof (emaRule_follows (ema20 ind) (ema50 ind) price regime) as H5.
  pose proof (sma200Rule_follows (sma200 ind) price regime) as H6.
  pose proof (momentumRule_follows (momentum3 ind) (momentum10 ind) regime) as H7.
  pose proof (volumeRule_follows (volumeRatio ind) regime) as H8.
  pose proof (contradictionRule_follows regime) as H9.
  repeat (constructor; [first [apply regimeRule_follows|assumption]|]). constructor.
Qed.

Lemma Forall2_firstn {A B : Type} (R : A -> B -> Prop) (k : nat) :
  forall l l', Forall2 R l l' -> Forall2 R (firstn k l) (firstn k l').
Proof.
  induction k as [|k IH]; intros l l' Hl; [constructor|].
  destruct Hl; cbn [firstn]; constructor; auto.
Qed.

Lemma Forall2_skipn {A B : Type} (R : A -> B -> Prop) (k : nat) :
  forall l l', Forall2 R l l' -> Forall2 R (skipn k l) (skipn k l').
Proof.
  induction k as [|k IH]; intros l l' Hl; [assumption|].
  destruct Hl; cbn [skipn]; [constructor|auto].
Qed.

(** What holds of every outcome holds of the accumulator after the steps,
    but for the text of its reasons. *)
Lemma always_run steps effects (P : ScoreState T -> bool) :
  Forall2 (follows (T:=T)) steps effects ->
  forall st, always effects P (erase st) = true -> P (erase (run steps st)) = true.
Proof.
  induction 1 as [|step fs steps effects Hstep _ IH]; intros st HP; [assumption|].
  cbn [run fold_left]. apply IH. cbn [always] in HP.
  rewrite forallb_forall in HP. specialize (Hstep st). apply in_map_iff in Hstep.
  destruct Hstep as [f [<- Hf]]. now apply HP.
Qed.

Lemma always_prefix ind prevMacd price regime k (P : ScoreState T -> bool) :
  always (firstn k (outcomes regime)) P (erase initial) = true ->
  P (erase (run (firstn k (scoringSteps ind prevMacd price regime)) initial)) = true.
Proof.
  apply always_run. apply Forall2_firstn, scoringSteps_follow.
Qed.

Lemma always_scoringPass ind prevMacd price regime (P : ScoreState T -> bool) :
  always (outcomes regime) P (erase initial) = true ->
  P (erase (scoringPass ind prevMacd price regime)) = true.
Proof. apply always_run, scoringSteps_follow. Qed.

Lemma run_app (steps steps' : list (ScoreState T -> ScoreState T)) (st : ScoreState T) :
  run (steps ++ steps') st = run steps' (run steps st).
Proof. unfold run. apply fold_left_app. Qed.

Lemma thresholdOf_table (riskTolerance : string) (regime : Regime) (v : option T) :
  thresholdOf riskTolerance regime v = thresholdOf "conservative" regime v
  \/ thresholdOf riskTolerance regime v = thresholdOf "moderate" regime v
  \/ thresholdOf riskTolerance regime v = thresholdOf "aggressive" regime v
  \/ thresholdOf riskTolerance regime v = thresholdOf "constructor" regime v.
Proof.
  unfold thresholdOf, property, thresholds, assoc.
  destruct (String.eqb_spec riskTolerance "conservative") as [->|_]; [now left|].
  destruct (String.eqb_spec riskTolerance "moderate") as [->|_]; [now right; left|].
  destruct (String.eqb_spec riskTolerance "aggressive") as [->|_];
    [now right; right; left|].
  destruct (inherited riskTolerance); [now right; right; right|].
  right; left. cbn [String.eqb Ascii.eqb Bool.eqb]. cbv beta iota.
  now destruct (truthy (dec 36 10)).
Qed.

End Reach.

(** ** The scores on binary64 *)

Section Binary64Scores.

Local Open Scope js_scope.

Lemma erase_nonnegative (st : ScoreState float) : nonnegative (erase st) = nonnegative st.
Proof. reflexivity. Qed.

(** C6: on binary64 both scores are at least 0 after every step of the
    scoring pass, for every indicator set and so for every candle array; in
    particular after the contradiction penalty, which takes 0.35 times the
    smaller score from each when both are positive. *)
Theorem scores_stay_nonnegative :
  (forall (ind : IndicatorSet float) (prevMacd : Macd float) (price : float)
          (regime : Regime) (k : nat),
      let st := run (firstn k (scoringSteps ind prevMacd price regime)) initial in
      (of_Z 0 <=? buyScore st) = true /\ (of_Z 0 <=? sellScore st) = true)
  /\ (forall (ohlcv : list (Candle float)) (riskTolerance : string)
             (a : Assessment float),
         assess ohlcv riskTolerance = Ok (Some a) ->
         (of_Z 0 <=? buyScore (as_scores a)) = true
         /\ (of_Z 0 <=? sellScore (as_scores a)) = true)
  /\ (forall (ind : IndicatorSet float) (prevMacd : Macd float) (price : float)
             (regime : Regime),
         let st := run (firstn 9 (scoringSteps ind prevMacd price regime)) initial in
         (buyScore st >? of_Z 0) = true -> (sellScore st >? of_Z 0) = true ->
         let overlap := Math_min (buyScore st) (sellScore st) * dec 35 100 in
         buyScore (contradictionRule st) = buyScore st - overlap
         /\ sellScore (contradictionRule st) = sellScore st - overlap
         /\ (of_Z 0 <=? buyScore st - overlap) = true
         /\ (of_Z 0 <=? sellScore st - overlap) = true).
Proof.
  assert (Hall : forallb (fun k => forallb (fun regime =>
                                              always (T:=float) (firstn k (outcomes regime))
                                                nonnegative (erase initial))
                                           regimes)
                         (seq 0 11) = true) by (vm_compute; reflexivity).
  assert (Hrun : forall (ind : IndicatorSet float) prevMacd price regime k,
             nonnegative (run (firstn k (scoringSteps ind prevMacd price regime)) initial)
             = true).
  { intros ind prevMacd price regime k. rewrite <- erase_nonnegative.
    apply always_prefix.
    assert (Hk : exists k', In k' (seq 0 11)
                            /\ firstn k (outcomes (T:=float) regime)
                               = firstn k' (outcomes regime)).
    { destruct (Nat.le_gt_cases k 10) as [Hle|Hgt].
      - exists k. split; [apply in_seq; lia|reflexivity].
      - exists 10%nat. split; [apply in_seq; lia|].
        rewrite !firstn_all2; [reflexivity|cbn; lia|cbn; lia]. }
    destruct Hk as [k' [Hin ->]].
    rewrite forallb_forall in Hall. specialize (Hall k' Hin).
    rewrite forallb_forall in Hall. apply Hall. destruct regime; cbn; tauto. }
  assert (Hsplit : forall st : ScoreState float,
             nonnegative st = true ->
             (of_Z 0 <=? buyScore st) = true /\ (of_Z 0 <=? sellScore st) = true).
  { intros st Hst. unfold nonnegative in Hst. now apply andb_true_iff in Hst. }
  split; [intros; apply Hsplit, Hrun|]. split.
  - intros ohlcv riskTolerance a. unfold assess.
    destruct (analyzeIndicators ohlcv) as [ind|e]; cbn [bind]; [|discriminate].
    destruct (prevMacdOf (map (@close float) ohlcv)) as [pm|e]; cbn [bind];
      [|discriminate].
    destruct (currentPrice ind) as [price|]; [|discriminate].
    intros E. injection E as <-. cbn [as_scores]. unfold scoringPass.
    rewrite <- (firstn_all (scoringSteps _ _ _ _)). apply Hsplit, Hrun.
  - intros ind prevMacd price regime st Hb Hs overlap.
    pose proof (Hsplit _ (Hrun ind prevMacd price regime 10%nat)) as H10.
    change (firstn 10 (scoringSteps ind prevMacd price regime))
      with (firstn 9 (scoringSteps ind prevMacd price regime) ++ [contradictionRule])
      in H10.
    rewrite run_app in H10. change (run [contradictionRule] ?s) with (contradictionRule s) in H10.
    fold st in H10. unfold contradictionRule in H10 |- *.
    rewrite Hb, Hs in H10 |- *. cbn [andb push set_scores buyScore sellScore] in H10 |- *.
    fold overlap in H10. tauto.
Qed.

Lemma decided (ohlcv : list (Candle float)) (signalType riskTolerance : string)
      (now : Z) (sig : Signal float) :
  generateSignal ohlcv signalType riskTolerance now = Ok sig ->
  exists a ind prevMacd,
    assess ohlcv riskTolerance = Ok (Some a)
    /\ analyzeIndicators ohlcv = Ok ind
    /\ currentPrice ind = Some (as_price a)
    /\ as_regime a = regimeOf (trendBias (ema20 ind) (ema50 ind) (as_price a))
    /\ as_scores a = scoringPass ind prevMacd (as_price a) (as_regime a)
    /\ prevMacd = match prevMacdOf (map (@close float) ohlcv) with
                  | Ok pm => pm
                  | Fail _ => no_macd
                  end
    /\ as_threshold a = thresholdOf riskTolerance (as_regime a) (volatility20 ind)
    /\ sig_signal sig = decide (as_scores a) (as_threshold a)
    /\ confidence sig = toFixed 1 (confidenceOf (sig_signal sig) (as_scores a))
    /\ sig_reasons sig = match sig_signal sig with
                         | HOLD => reasons (as_scores a) ++ [holdReason]
                         | _ => reasons (as_scores a)
                         end.
Proof.
  intros Hsig.
  destruct (generateSignal_fields _ _ _ _ _ Hsig)
    as (a & ind & tp1 & tp2 & sl & Ha & Hi & Ht & Hscores & Hth & Hd & Hconf & Hcp & Hlv
        & Hr & Hind & Hcur & Hreg).
  exists a, ind. eexists. repeat split; eassumption || reflexivity.
Qed.

(** On binary64 the confidence of every signal is a number between 42 and
    65 for HOLD and between 55 and 95 for BUY and SELL. *)
Theorem confidence_range (ohlcv : list (Candle float)) (signalType riskTolerance : string)
        (now : Z) (sig : Signal float) :
  generateSignal ohlcv signalType riskTolerance now = Ok sig ->
  (match sig_signal sig with HOLD => of_Z 42 | _ => of_Z 55 end <=? confidence sig) = true
  /\ (confidence sig <=? match sig_signal sig with HOLD => of_Z 65 | _ => of_Z 95 end)
     = true.
Proof.
  intros Hsig.
  destruct (decided _ _ _ _ _ Hsig)
    as (a & ind & pm & _ & _ & _ & _ & Hscores & _ & _ & _ & Hconf & _).
  assert (Hall : forallb (fun regime => always (T:=float) (outcomes regime) confident
                                          (erase initial))
                         regimes = true) by (vm_compute; reflexivity).
  rewrite forallb_forall in Hall.
  assert (Hc : confident (erase (as_scores a)) = true).
  { rewrite Hscores. apply always_scoringPass. apply Hall.
    destruct (as_regime a); cbn; tauto. }
  unfold confident in Hc. rewrite forallb_forall in Hc.
  specialize (Hc (sig_signal sig)). rewrite Hconf.
  change (confidenceOf (sig_signal sig) (erase (as_scores a)))
    with (confidenceOf (sig_signal sig) (as_scores a)) in Hc.
  destruct (sig_signal sig); (lapply Hc; [|cbn; tauto]); intros Hb;
    apply andb_true_iff in Hb; exact Hb.
Qed.

Lemma thresholdOf_volatility (regime : Regime) (v : option float) :
  (forall riskTolerance,
      thresholdOf riskTolerance regime v = thresholdOf riskTolerance regime None)
  \/ (forall riskTolerance,
         thresholdOf riskTolerance regime v
         = thresholdOf riskTolerance regime (Some (of_Z 1))).
Proof.
  destruct v as [v|]; [|now left].
  destruct (v >? dec 25 1000) eqn:E.
  - right. intros riskTolerance. unfold thresholdOf. rewrite E.
    now change (of_Z 1 >? dec 25 1000) with true.
  - left. intros riskTolerance. unfold thresholdOf. now rewrite E.
Qed.

Lemma thresholdOf_listed (riskTolerance : string) (regime : Regime) (v : option float) :
  In (thresholdOf riskTolerance regime v) (thresholdsIn regime).
Proof.
  unfold thresholdsIn. cbn [flat_map app].
  destruct (thresholdOf_volatility regime v) as [Hv|Hv];
    destruct (thresholdOf_table riskTolerance regime v) as [E|[E|[E|E]]];
    rewrite E, Hv; cbn [In]; tauto.
Qed.

Lemma scoringPass_twice_indicated (ind : IndicatorSet float) (prevMacd : Macd float)
      (price : float) (regime : Regime) :
  twice_indicated regime (erase (scoringPass ind prevMacd price regime)) = true.
Proof.
  assert (Hall : forallb (fun regime => always (T:=float) (outcomes regime)
                                          (twice_indicated regime)
                                          (erase initial))
                         regimes = true) by (vm_compute; reflexivity).
  rewrite forallb_forall in Hall. apply always_scoringPass. apply Hall.
  destruct regime; cbn; tauto.
Qed.

(** On binary64 no single indication makes a trade: a BUY rests on at
    least two pieces of buy evidence and a SELL on at least two pieces of
    sell evidence, whatever the risk tolerance, and gives at least three
    reasons. *)
Theorem trade_needs_two_indications (ohlcv : list (Candle float))
        (signalType riskTolerance : string) (now : Z) (sig : Signal float) :
  generateSignal ohlcv signalType riskTolerance now = Ok sig ->
  sig_signal sig <> HOLD ->
  exists a, assess ohlcv riskTolerance = Ok (Some a)
    /\ (2 <= match sig_signal sig with
             | SELL => sellEvidence (as_scores a)
             | _ => buyEvidence (as_scores a)
             end)%Z
    /\ (3 <= List.length (sig_reasons sig))%nat.
Proof.
  intros Hsig Htrade.
  destruct (decided _ _ _ _ _ Hsig)
    as (a & ind & pm & Ha & _ & _ & _ & Hscores & _ & Hth & Hd & _ & Hr).
  exists a. split; [assumption|].
  pose proof (scoringPass_twice_indicated ind pm (as_price a) (as_regime a)) as Hc.
  rewrite <- Hscores in Hc. unfold twice_indicated in Hc. rewrite forallb_forall in Hc.
  specialize (Hc (as_threshold a)). lapply Hc; [|rewrite Hth; apply thresholdOf_listed].
  change (decide (erase (as_scores a)) (as_threshold a))
    with (decide (as_scores a) (as_threshold a)).
  rewrite <- Hd. cbn [erase buyEvidence sellEvidence reasons]. unfold len.
  rewrite length_map, Hr.
  destruct (sig_signal sig); [| |contradiction]; intros Hb;
    apply andb_true_iff in Hb; destruct Hb as [H2 H3]; lia.
Qed.

(** On binary64 a stricter risk tolerance never adds a trade: a BUY or SELL
    under "conservative" is the same signal under "moderate", and one under
    "moderate" the same under "aggressive". *)
Theorem stricter_tolerance_never_adds_trades (ohlcv : list (Candle float))
        (signalType : string) (now : Z) (sc sm sa : Signal float) :
  generateSignal ohlcv signalType "conservative" now = Ok sc ->
  generateSignal ohlcv signalType "moderate" now = Ok sm ->
  generateSignal ohlcv signalType "aggressive" now = Ok sa ->
  (sig_signal sc <> HOLD -> sig_signal sm = sig_signal sc)
  /\ (sig_signal sm <> HOLD -> sig_signal sa = sig_signal sm).
Proof.
  intros Hc Hm Ha.
  destruct (decided _ _ _ _ _ Hc)
    as (ac & ind & pm & _ & Hi & Hp & Hreg & Hscores & Hpm & Hth & Hd & _).
  destruct (decided _ _ _ _ _ Hm)
    as (am & ind' & pm' & _ & Hi' & Hp' & Hreg' & Hscores' & Hpm' & Hth' & Hd' & _).
  destruct (decided _ _ _ _ _ Ha)
    as (aa & ind'' & pm'' & _ & Hi'' & Hp'' & Hreg'' & Hscores'' & Hpm'' & Hth'' & Hd'' & _).
  assert (ind' = ind) by congruence. assert (ind'' = ind) by congruence. subst ind' ind''.
  subst pm pm' pm''.
  assert (Epm : as_price am = as_price ac) by congruence.
  assert (Epa : as_price aa = as_price ac) by congruence.
  assert (Erm : as_regime am = as_regime ac) by congruence.
  assert (Era : as_regime aa = as_regime ac) by congruence.
  rewrite Epm, Erm in Hscores'. rewrite Epa, Era in Hscores''.
  rewrite Erm in Hth'. rewrite Era in Hth''.
  rewrite <- Hscores in Hscores', Hscores''.
  rewrite Hd, Hd', Hd'', Hscores', Hscores'', Hth, Hth', Hth''.
  assert (Hall : forallb (fun regime => always (T:=float) (outcomes regime) (graded regime)
                                          (erase initial))
                         regimes = true) by (vm_compute; reflexivity).
  rewrite forallb_forall in Hall.
  assert (Hg : graded (as_regime ac) (erase (as_scores ac)) = true).
  { rewrite Hscores. apply always_scoringPass. apply Hall.
    destruct (as_regime ac); cbn; tauto. }
  unfold graded in Hg. rewrite forallb_forall in Hg.
  destruct (thresholdOf_volatility (as_regime ac) (volatility20 ind)) as [Hv|Hv];
    rewrite !Hv;
    [specialize (Hg None (or_introl eq_refl))
    |specialize (Hg (Some (of_Z 1)) (or_intror (or_introl eq_refl)))];
    apply andb_true_iff in Hg; destruct Hg as [H1 H2];
    change (decide (erase ?s) ?t) with (decide s t) in H1, H2;
    (split; intros Hne;
     [destruct (decide (as_scores ac) (thresholdOf "conservative" _ _)),
        (decide (as_scores ac) (thresholdOf "moderate" _ _));
      try reflexivity; try discriminate; contradiction
     |destruct (decide (as_scores ac) (thresholdOf "moderate" _ _)),
        (decide (as_scores ac) (thresholdOf "aggressive" _ _));
      try reflexivity; try discriminate; contradiction]).
Qed.

(** On binary64 the volume rule and the contradiction penalty never turn a
    lead into a deficit: the score that is the larger after the momentum
    rule is at least as large as the other one at the decision, and scores
    that are equal stay equal. *)
Theorem lead_is_never_reversed (ind : IndicatorSet float) (prevMacd : Macd float)
        (price : float) (regime : Regime) :
  let before := run (firstn 8 (scoringSteps ind prevMacd price regime)) initial in
  let after := scoringPass ind prevMacd price regime in
  ((sellScore before <? buyScore before) = true ->
   (sellScore after <=? buyScore after) = true)
  /\ ((buyScore before <? sellScore before) = true ->
      (buyScore after <=? sellScore after) = true)
  /\ ((buyScore before === sellScore before) = true ->
      (buyScore after === sellScore after) = true).
Proof.
  cbv zeta.
  set (before := run (firstn 8 (scoringSteps ind prevMacd price regime)) initial).
  assert (Hall : forallb (fun regime =>
                            always (T:=float) (firstn 8 (outcomes regime))
                              (fun st => always (skipn 8 (outcomes regime)) (lead_kept st) st)
                              (erase initial))
                         regimes = true) by (vm_compute; reflexivity).
  rewrite forallb_forall in Hall.
  assert (H8 : always (skipn 8 (outcomes regime)) (lead_kept (erase before))
                 (erase before) = true).
  { apply (always_prefix ind prevMacd price regime 8
             (fun st => always (skipn 8 (outcomes regime)) (lead_kept st) st)).
    apply Hall. destruct regime; cbn; tauto. }
  assert (Hk : lead_kept (erase before)
                 (erase (run (skipn 8 (scoringSteps ind prevMacd price regime)) before))
               = true).
  { apply (always_run (skipn 8 (scoringSteps ind prevMacd price regime))
             (skipn 8 (outcomes regime)) (lead_kept (erase before)));
      [apply Forall2_skipn, scoringSteps_follow|exact H8]. }
  assert (Ea : run (skipn 8 (scoringSteps ind prevMacd price regime)) before
               = scoringPass ind prevMacd price regime).
  { unfold before, scoringPass. rewrite <- run_app. now rewrite firstn_skipn. }
  rewrite Ea in Hk. unfold lead_kept in Hk. cbn [erase buyScore sellScore] in Hk.
  apply andb_true_iff in Hk. destruct Hk as [Hk H3].
  apply andb_true_iff in Hk. destruct Hk as [H1 H2].
  repeat split; intros E; rewrite E in *; assumption.
Qed.

End Binary64Scores.

(** The quiet buy: confidence 74.2. *)
Lemma confidence_range_quiet_buy :
  exists sig, generateSignal (T:=float) quiet_buy "swing" "aggressive" 0 = Ok sig
              /\ sig_signal sig = BUY
              /\ leb (of_Z 55) (confidence sig) = true
              /\ leb (confidence sig) (of_Z 95) = true.
Proof.
  eassert (E : generateSignal (T:=float) quiet_buy "swing" "aggressive" 0 = Ok _)
    by (vm_compute; reflexivity).
  eexists. split; [exact E|]. split; [reflexivity|].
  exact (confidence_range _ _ _ _ _ E).
Defined.

(** The quiet buy rests on two pieces of buy evidence. *)
Lemma trade_needs_two_indications_quiet_buy :
  exists sig a, generateSignal (T:=float) quiet_buy "swing" "aggressive" 0 = Ok sig
                /\ assess (T:=float) quiet_buy "aggressive" = Ok (Some a)
                /\ sig_signal sig = BUY
                /\ (2 <= buyEvidence (as_scores a))%Z.
Proof.
  eassert (E : generateSignal (T:=float) quiet_buy "swing" "aggressive" 0 = Ok _)
    by (vm_compute; reflexivity).
  destruct (trade_needs_two_indications _ _ _ _ _ E ltac:(discriminate))
    as (a & Ha & H2 & _).
  eexists. exists a. split; [exact E|]. split; [exact Ha|]. split; [reflexivity|exact H2].
Defined.

(** The rally is a HOLD at conservative tolerance and the same BUY at the
    other two. *)
Lemma stricter_tolerance_rally :
  exists sc sm sa,
    generateSignal (T:=float) rally "swing" "conservative" 0 = Ok sc
    /\ generateSignal (T:=float) rally "swing" "moderate" 0 = Ok sm
    /\ generateSignal (T:=float) rally "swing" "aggressive" 0 = Ok sa
    /\ sig_signal sc = HOLD /\ sig_signal sm = BUY /\ sig_signal sa = BUY.
Proof.
  eassert (Ec : generateSignal (T:=float) rally "swing" "conservative" 0 = Ok _)
    by (vm_compute; reflexivity).
  eassert (Em : generateSignal (T:=float) rally "swing" "moderate" 0 = Ok _)
    by (vm_compute; reflexivity).
  eassert (Ea : generateSignal (T:=float) rally "swing" "aggressive" 0 = Ok _)
    by (vm_compute; reflexivity).
  destruct (stricter_tolerance_never_adds_trades _ _ _ _ _ _ Ec Em Ea) as [_ Hma].
  do 3 eexists. split; [exact Ec|]. split; [exact Em|]. split; [exact Ea|].
  split; [reflexivity|]. split; [reflexivity|]. apply Hma. discriminate.
Defined.

(** ** Signs on binary64

    The sign of a sum, a quotient, a square root: read off the
    specification of the operations, in which the sign bit of a rounded
    result is the one passed to the rounding. *)

Section Binary64Signs.

Lemma iter_pos_invariant {A : Type} (f : A -> A) (Inv : A -> Prop) :
  (forall x, Inv x -> Inv (f x)) ->
  forall (n : positive) (x : A), Inv x -> Inv (iter_pos f n x).
Proof.
  intros Hf. induction n as [n IH|n IH|]; intros x Hx; cbn [iter_pos]; auto.
Qed.

Lemma shr_1_nonneg (mrs : shr_record) : 0 <= shr_m mrs -> 0 <= shr_m (shr_1 mrs).
Proof.
  destruct mrs as [m r s]. cbn [shr_m]. intros Hm. unfold shr_1.
  destruct m as [|[p|p|]|p]; cbn [shr_m]; lia.
Qed.

Lemma shr_fexp_nonneg (m e : Z) (l : location) :
  0 <= m -> 0 <= shr_m (fst (shr_fexp prec emax m e l)).
Proof.
  intros Hm. unfold shr_fexp, shr.
  assert (H0 : 0 <= shr_m (shr_record_of_loc m l)) by (now destruct l as [|[]]).
  destruct (fexp prec emax (Zdigits2 m + e) - e) as [|n|n]; cbn [fst]; try assumption.
  now apply iter_pos_invariant; [apply shr_1_nonneg|].
Qed.

Lemma round_nearest_even_nonneg (m : Z) (l : location) :
  0 <= m -> 0 <= round_nearest_even m l.
Proof.
  intros Hm. unfold round_nearest_even. destruct l as [|[]]; try lia.
  destruct (Z.even m); lia.
Qed.

(** A rounded result carries the sign it is given. *)
Lemma binary_round_aux_sign (s : bool) (m e : Z) (l : location) :
  0 <= m ->
  match binary_round_aux prec emax s m e l with
  | S754_zero s' | S754_infinity s' | S754_finite s' _ _ => s' = s
  | S754_nan => False
  end.
Proof.
  intros Hm. unfold binary_round_aux.
  pose proof (shr_fexp_nonneg m e l Hm) as H1.
  destruct (shr_fexp prec emax m e l) as [mrs' e']. cbn [fst] in H1.
  pose proof (shr_fexp_nonneg _ e' loc_Exact
                (round_nearest_even_nonneg _ (loc_of_shr_record mrs') H1)) as H2.
  destruct (shr_fexp prec emax _ e' loc_Exact) as [mrs'' e'']. cbn [fst] in H2.
  destruct (shr_m mrs'') as [|p|p]; [reflexivity| |lia].
  now destruct (e'' <=? emax - prec).
Qed.

Lemma binary_round_sign (s : bool) (m : positive) (e : Z) :
  match binary_round prec emax s m e with
  | S754_zero s' | S754_infinity s' | S754_finite s' _ _ => s' = s
  | S754_nan => False
  end.
Proof.
  unfold binary_round. destruct (shl_align m e _) as [mz ez].
  now apply binary_round_aux_sign.
Qed.

Lemma SFadd_unsigned (x y : spec_float) :
  unsigned x = true -> unsigned y = true -> unsigned (SF64add x y) = true.
Proof.
  destruct x as [sx|sx| |sx mx ex], y as [sy|sy| |sy my ey]; cbn;
    try destruct sx; try destruct sy; cbn; try discriminate; try reflexivity.
  intros _ _.
  match goal with |- context [binary_round prec emax false ?m ?e] =>
    pose proof (binary_round_sign false m e) as Hs;
    destruct (binary_round prec emax false m e)
  end; cbn; try subst; reflexivity || contradiction.
Qed.

Lemma SFdiv_unsigned (x y : spec_float) :
  unsigned x = true -> unsigned y = true -> unsigned (SF64div x y) = true.
Proof.
  destruct x as [sx|sx| |sx mx ex], y as [sy|sy| |sy my ey]; cbn;
    try destruct sx; try destruct sy; cbn; try discriminate; try reflexivity.
  intros _ _. unfold SFdiv_core_binary.
  match goal with |- context [Z.div_eucl ?a ?b] =>
    pose proof (Z.div_eucl_eq a b ltac:(lia)) as Hq;
    pose proof (Z.mod_pos_bound a b ltac:(lia)) as Hr;
    unfold Z.modulo in Hr;
    assert (Ha : 0 <= a) by (destruct (ex - ey - _); [lia|apply Z.shiftl_nonneg; lia|lia]);
    destruct (Z.div_eucl a b) as [q r]
  end.
  assert (Hq0 : 0 <= q) by nia.
  match goal with |- context [binary_round_aux prec emax false ?m ?e ?l] =>
    pose proof (binary_round_aux_sign false m e l Hq0) as Hs;
    destruct (binary_round_aux prec emax false m e l)
  end; cbn; try subst; reflexivity || contradiction.
Qed.

Lemma SFsqrt_not_negative (x : spec_float) :
  match SF64sqrt x with
  | S754_finite true _ _ | S754_infinity true => False
  | _ => True
  end.
Proof.
  destruct x as [s|[|]| |[|] m e]; cbn; try exact I.
  unfold SFsqrt_core_binary.
  match goal with |- context [Z.sqrtrem ?a] =>
    pose proof (Z.sqrtrem_spec a) as Hq; destruct (Z.sqrtrem a) as [q r]
  end.
  assert (Hq0 : 0 <= q).
  { match type of Hq with (0 <= ?a -> _) =>
      destruct (Z.le_gt_cases 0 a) as [Ha|Ha]
    end.
    - specialize (Hq Ha). cbv zeta in Hq. lia.
    - exfalso. revert Ha. destruct (e - 2 * _); [lia| |lia].
      intros Ha. pose proof (Z.shiftl_nonneg (Z.pos m) (Z.pos p)). lia. }
  match goal with |- context [binary_round_aux prec emax false ?m ?e ?l] =>
    pose proof (binary_round_aux_sign false m e l Hq0) as Hs;
    destruct (binary_round_aux prec emax false m e l)
  end; try exact I; try subst; try exact I; contradiction.
Qed.

Lemma of_Z_plus (n : Z) : 0 <= n -> plus (Prim2SF (Float64.of_Z n)) = true.
Proof.
  intros Hn. unfold Float64.of_Z. destruct (Z.ltb_spec n 0); [lia|].
  rewrite FloatAxioms.of_uint63_spec. pose proof (to_Z_bounded (Uint63.of_Z n)) as Hb.
  destruct (to_Z (Uint63.of_Z n)) as [|p|p]; [reflexivity| |lia].
  cbn [binary_normalize]. pose proof (binary_round_sign false p 0) as Hs.
  destruct (binary_round prec emax false p 0); cbn; try subst; reflexivity || contradiction.
Qed.

Lemma plus_unsigned (x : spec_float) : plus x = true -> unsigned x = true.
Proof. now destruct x. Qed.

(** [x < 0] is false of an unsigned value. *)
Lemma unsigned_not_below_zero (x : float) :
  unsigned (Prim2SF x) = true -> PrimFloat.ltb x (Float64.of_Z 0) = false.
Proof.
  rewrite FloatAxioms.ltb_spec. change (Prim2SF (Float64.of_Z 0)) with (S754_zero false).
  destruct (Prim2SF x) as [s|s| |s m e]; cbn; try destruct s; try discriminate;
    reflexivity.
Qed.

Lemma sqrt_not_below_zero (x : float) :
  PrimFloat.ltb (PrimFloat.sqrt x) (Float64.of_Z 0) = false.
Proof.
  rewrite FloatAxioms.ltb_spec, FloatAxioms.sqrt_spec. change (Prim2SF (Float64.of_Z 0)) with (S754_zero false).
  pose proof (SFsqrt_not_negative (Prim2SF x)) as Hs.
  destruct (SF64sqrt (Prim2SF x)) as [s|[|]| |[|] m e]; cbn; reflexivity || contradiction.
Qed.

Lemma Float64_max_unsigned (a b : float) :
  unsigned (Prim2SF b) = true -> unsigned (Prim2SF (Float64.max a b)) = true.
Proof.
  intros Hb. unfold Float64.max.
  destruct (PrimFloat.is_nan a || PrimFloat.is_nan b); [reflexivity|].
  destruct (PrimFloat.ltb a b); [assumption|].
  destruct (PrimFloat.ltb b a) eqn:Eba.
  - rewrite FloatAxioms.ltb_spec in Eba. revert Hb Eba.
    destruct (Prim2SF a) as [sa|sa| |sa ma ea], (Prim2SF b) as [sb|sb| |sb mb eb]; cbn;
      try destruct sa; try destruct sb; cbn; try discriminate; reflexivity.
  - destruct (get_sign a) eqn:Es; [assumption|].
    unfold get_sign, PrimFloat.is_zero in Es. rewrite FloatAxioms.eqb_spec in Es.
    change (Prim2SF zero) with (S754_zero false) in Es.
    destruct (SFeqb (Prim2SF a) (S754_zero false)) eqn:Ez.
    + rewrite FloatAxioms.ltb_spec, FloatAxioms.div_spec in Es.
      change (Prim2SF one) with (S754_finite false 4503599627370496 (-52)) in Es.
      change (Prim2SF zero) with (S754_zero false) in Es.
      revert Ez Es. destruct (Prim2SF a) as [sa|sa| |sa ma ea]; cbn; try destruct sa;
        cbn; try discriminate; reflexivity.
    + rewrite FloatAxioms.ltb_spec in Es.
      change (Prim2SF zero) with (S754_zero false) in Es. revert Es.
      destruct (Prim2SF a) as [sa|sa| |sa ma ea]; cbn; try destruct sa; cbn;
        try discriminate; reflexivity.
Qed.

Lemma abs_unsigned (x : float) : unsigned (Prim2SF (PrimFloat.abs x)) = true.
Proof. rewrite FloatAxioms.abs_spec. now destruct (Prim2SF x). Qed.

Lemma add_unsigned (x y : float) :
  unsigned (Prim2SF x) = true -> unsigned (Prim2SF y) = true ->
  unsigned (Prim2SF (PrimFloat.add x y)) = true.
Proof. rewrite FloatAxioms.add_spec. apply SFadd_unsigned. Qed.

Lemma div_unsigned (x y : float) :
  unsigned (Prim2SF x) = true -> unsigned (Prim2SF y) = true ->
  unsigned (Prim2SF (PrimFloat.div x y)) = true.
Proof. rewrite FloatAxioms.div_spec. apply SFdiv_unsigned. Qed.

Lemma sum_unsigned (xs : list float) :
  Forall (fun x => unsigned (Prim2SF x) = true) xs ->
  unsigned (Prim2SF (sum xs)) = true.
Proof.
  unfold sum.
  assert (Hacc : forall acc, unsigned (Prim2SF acc) = true ->
                             Forall (fun x => unsigned (Prim2SF x) = true) xs ->
                             unsigned (Prim2SF (fold_left (fun s v => add s v) xs acc))
                             = true).
  { induction xs as [|x xs IH]; intros acc Hacc Hxs; [assumption|].
    cbn [fold_left]. inversion Hxs; subst. apply IH; [|assumption].
    now apply add_unsigned. }
  apply Hacc. reflexivity.
Qed.

End Binary64Signs.

(** On binary64 the average true range is never below 0, whatever the
    candles hold: each true range is the larger of a number and an absolute
    value, and the sum and the quotient of such values have a clear sign
    bit or are NaN. *)
Theorem atr_nonneg (ohlcv : list (Candle float)) (period : Z) (a : float) :
  atr ohlcv period = Ok (Some a) -> ltb a (of_Z 0) = false.
Proof.
  unfold atr. destruct (len ohlcv <? period + 1); [discriminate|].
  destruct (Z.le_gt_cases (len ohlcv - period) (len ohlcv)) as [Hle|Hgt].
  - match goal with |- context [for_range ?lo ?hi ?b ?e] =>
      assert (Hinv : forall s, for_range lo hi b e = Ok s ->
                               Forall (fun x => unsigned (Prim2SF x) = true) s)
    end.
    { unfold for_range.
      generalize (Z.to_nat (len ohlcv - (len ohlcv - period))) (len ohlcv - period).
      assert (Hgen : forall (n : nat) (i : Z) (trs s : list float),
                 Forall (fun x => unsigned (Prim2SF x) = true) trs ->
                 iterate
                   (fun i trs =>
                      c <- candle ohlcv i ;;
                      prev <- candle ohlcv (i - 1) ;;
                      Ok (trs ++ [Math_max
                                    (Math_max (sub (high c) (low c))
                                       (Math_abs (sub (high c) (close prev))))
                                    (Math_abs (sub (low c) (close prev)))]))
                   n i trs = Ok s ->
                 Forall (fun x => unsigned (Prim2SF x) = true) s).
      { induction n as [|n IH]; intros i trs s Htrs; cbn [iterate].
        - now intros [= <-].
        - destruct (candle ohlcv i) as [c|]; cbn [bind]; [|discriminate].
          destruct (candle ohlcv (i - 1)) as [prev|]; cbn [bind]; [|discriminate].
          apply IH. apply Forall_app. split; [assumption|]. constructor; [|constructor].
          apply Float64_max_unsigned, abs_unsigned. }
      intros n i s. apply Hgen. constructor. }
    destruct (for_range _ _ _ _) as [trs|]; cbn [bind]; [|discriminate].
    specialize (Hinv trs eq_refl). unfold avg.
    destruct (len trs =? 0); [discriminate|]. intros [= <-].
    apply unsigned_not_below_zero. apply div_unsigned; [now apply sum_unsigned|].
    apply plus_unsigned, of_Z_plus. unfold len. lia.
  - rewrite for_range_empty by lia. cbn [bind avg len List.length Z.of_nat Z.eqb].
    discriminate.
Qed.

(** Two candles whose highs lie below their lows: the true range of the
    second one is 2. *)
Lemma atr_nonneg_crossed :
  atr crossed_candles 1 = Ok (Some (of_Z 2))
  /\ ltb (of_Z 2) (of_Z 0 : float) = false.
Proof.
  assert (E : atr crossed_candles 1 = Ok (Some (of_Z 2))) by (vm_compute; reflexivity).
  split; [exact E|]. exact (atr_nonneg _ _ _ E).
Defined.

(** On binary64 the deviation is null for no value and is never below 0. *)
Theorem stdDev_sign (values : list float) :
  match stdDev values with
  | None => values = []
  | Some s => values <> [] /\ ltb s (of_Z 0) = false
  end.
Proof.
  unfold stdDev. destruct values as [|v values]; [reflexivity|].
  replace (len (v :: values) =? 0) with false
    by (symmetry; apply Z.eqb_neq; unfold len; cbn [List.length]; lia).
  split; [discriminate|]. apply sqrt_not_below_zero.
Qed.

Section Binary64Values.

Lemma pow2_pos (e : Z) : (0 < pow2 e)%Q.
Proof. unfold pow2. apply Qpower_0_lt. reflexivity. Qed.

Lemma pow2_add (a b : Z) : (pow2 (a + b) == pow2 a * pow2 b)%Q.
Proof. unfold pow2. apply Qpower_plus. discriminate. Qed.

Lemma pow2_Z (k : Z) : 0 <= k -> (pow2 k == inject_Z (2 ^ k))%Q.
Proof. intros Hk. unfold pow2. now rewrite Zpower_Qpower. Qed.

Lemma pow2_succ (e : Z) : (pow2 (e + 1) == 2 * pow2 e)%Q.
Proof. rewrite pow2_add. change (pow2 1) with 2%Q. ring. Qed.

Lemma pow2_le (a b : Z) : a <= b -> (pow2 a <= pow2 b)%Q.
Proof.
  intros Hab. replace b with (a + (b - a)) by lia. rewrite pow2_add.
  rewrite (pow2_Z (b - a)) by lia.
  assert (H1 : (1 <= inject_Z (2 ^ (b - a)))%Q).
  { change 1%Q with (inject_Z 1). rewrite <- Zle_Qle.
    pose proof (Z.pow_pos_nonneg 2 (b - a)). lia. }
  pose proof (pow2_pos a). nra.
Qed.

Lemma pow2_lt_inv (a b : Z) : (pow2 a < pow2 b)%Q -> a < b.
Proof.
  intros H. destruct (Z.lt_ge_cases a b) as [|Hge]; [assumption|].
  apply pow2_le in Hge. lra.
Qed.

Lemma value_pow2 (k e : Z) : 0 <= k -> (value (2 ^ k) e == pow2 (k + e))%Q.
Proof. intros Hk. unfold value. rewrite pow2_add, (pow2_Z k) by assumption. reflexivity. Qed.

Lemma value_0 (e : Z) : (value 0 e == 0)%Q.
Proof. unfold value. ring. Qed.

Lemma value_le (a b e : Z) : a <= b -> (value a e <= value b e)%Q.
Proof.
  intros Hab. unfold value. rewrite Zle_Qle in Hab. pose proof (pow2_pos e). nra.
Qed.

Lemma value_lt (a b e : Z) : a < b -> (value a e < value b e)%Q.
Proof.
  intros Hab. unfold value. rewrite Zlt_Qlt in Hab. pose proof (pow2_pos e). nra.
Qed.

Lemma value_pos (m e : Z) : 0 < m -> (0 < value m e)%Q.
Proof. intros Hm. rewrite <- (value_0 e). now apply value_lt. Qed.

Lemma value_lt_inv (a b e : Z) : (value a e < value b e)%Q -> a < b.
Proof.
  intros H. destruct (Z.lt_ge_cases a b) as [|Hge]; [assumption|].
  apply (value_le _ _ e) in Hge. lra.
Qed.

Lemma value_le_inv (a b e : Z) : (value a e <= value b e)%Q -> a <= b.
Proof.
  intros H. destruct (Z.le_gt_cases a b) as [|Hgt]; [assumption|].
  apply (value_lt _ _ e) in Hgt. lra.
Qed.

Lemma value_shift (m k e : Z) : 0 <= k -> (value (m * 2 ^ k) e == value m (k + e))%Q.
Proof.
  intros Hk. unfold value. rewrite pow2_add, inject_Z_mult, (pow2_Z k) by assumption. ring.
Qed.

Lemma value_add (a b e : Z) : (value (a + b) e == value a e + value b e)%Q.
Proof. unfold value. rewrite inject_Z_plus. ring. Qed.

Lemma value_double (m e : Z) : (value (2 * m) e == value m (e + 1))%Q.
Proof. unfold value. rewrite inject_Z_mult, pow2_succ. ring. Qed.

(** *** The number of digits *)

Lemma digits2_pos_bounds (m : positive) :
  2 ^ (Zpos (digits2_pos m) - 1) <= Zpos m < 2 ^ Zpos (digits2_pos m).
Proof.
  induction m as [m IH|m IH|]; cbn [digits2_pos]; [| |cbn; lia];
    rewrite Pos2Z.inj_succ;
    replace (Z.succ (Zpos (digits2_pos m)) - 1) with (Z.succ (Zpos (digits2_pos m) - 1))
      by lia;
    rewrite !Z.pow_succ_r by lia; lia.
Qed.

Lemma digits2_pos_le (m : positive) (k : Z) :
  Zpos m < 2 ^ k -> Zpos (digits2_pos m) <= k.
Proof.
  intros Hm. pose proof (digits2_pos_bounds m) as [Hlo _].
  destruct (Z.le_gt_cases (Zpos (digits2_pos m)) k) as [|Hgt]; [assumption|].
  destruct (Z.le_gt_cases 0 k) as [Hk|Hk].
  - pose proof (Z.pow_le_mono_r 2 k (Zpos (digits2_pos m) - 1)). lia.
  - rewrite Z.pow_neg_r in Hm by lia. lia.
Qed.

Lemma digits2_pos_ge (m : positive) (k : Z) :
  2 ^ (k - 1) <= Zpos m -> k <= Zpos (digits2_pos m).
Proof.
  intros Hm. pose proof (digits2_pos_bounds m) as [_ Hhi].
  destruct (Z.le_gt_cases k (Zpos (digits2_pos m))) as [|Hgt]; [assumption|].
  pose proof (Z.pow_le_mono_r 2 (Zpos (digits2_pos m)) (k - 1)). lia.
Qed.

Lemma value_digits (m : positive) (e : Z) :
  (pow2 (Zpos (digits2_pos m) - 1 + e) <= value (Zpos m) e
   /\ value (Zpos m) e < pow2 (Zpos (digits2_pos m) + e))%Q.
Proof.
  pose proof (digits2_pos_bounds m) as [Hlo Hhi].
  rewrite <- !value_pow2 by lia. split; [now apply value_le|now apply value_lt].
Qed.

Lemma fexp_eq (k : Z) : fexp prec emax k = Z.max (k - 53) (-1074).
Proof. reflexivity. Qed.

(** *** Shifting a mantissa right *)

Lemma shr_1_encloses (x : Q) (mrs : shr_record) (e : Z) :
  encloses x mrs e -> encloses x (shr_1 mrs) (e + 1).
Proof.
  destruct mrs as [m r s]. unfold encloses, within. cbn [shr_m shr_r shr_s].
  intros (Hm & [Hlo Hhi] & Hflag).
  pose proof (pow2_pos e) as Hp.
  destruct m as [|[p|p|]|p]; [| | | |lia]; cbn [shr_1 shr_m shr_r shr_s].
  - rewrite value_0 in *. split; [lia|]. split; [split; [lra|]|].
    + apply Qlt_le_trans with (1 := Hhi). change (0 + 1) with 1.
      rewrite <- value_double. apply value_le. lia.
    + rewrite orb_false_l. assumption.
  - assert (E : Zpos p~1 = 2 * Zpos p + 1) by lia. rewrite E in *.
    replace (2 * Zpos p + 1 + 1) with (2 * (Zpos p + 1)) in Hhi by lia.
    rewrite value_double in Hhi. rewrite value_add, value_double in Hlo.
    pose proof (value_pos 1 e ltac:(lia)).
    split; [lia|]. split; [split; [lra|assumption]|]. intros _. lra.
  - assert (E : Zpos p~0 = 2 * Zpos p) by lia. rewrite E in *.
    rewrite value_double in Hlo, Hflag.
    assert (Hlt : (value (2 * Zpos p + 1) e < value (2 * (Zpos p + 1)) e)%Q)
      by (apply value_lt; lia).
    rewrite value_double in Hlt.
    split; [lia|]. split; [split; [lra|lra]|]. rewrite orb_false_l. assumption.
  - change (1 + 1) with (2 * 1) in Hhi. rewrite value_double in Hhi.
    pose proof (value_pos 1 e ltac:(lia)).
    rewrite value_0. split; [lia|]. split; [split; [lra|assumption]|]. intros _. lra.
Qed.

Lemma iter_pos_shr_1 (P : shr_record -> Z -> Prop) :
  (forall mrs e, P mrs e -> P (shr_1 mrs) (e + 1)) ->
  forall (p : positive) (mrs : shr_record) (e : Z),
    P mrs e -> P (iter_pos shr_1 p mrs) (e + Zpos p).
Proof.
  intros Hstep. induction p as [p IH|p IH|]; intros mrs e Hm; cbn [iter_pos].
  - replace (e + Zpos p~1) with (e + 1 + Zpos p + Zpos p) by lia. auto.
  - replace (e + Zpos p~0) with (e + Zpos p + Zpos p) by lia. auto.
  - auto.
Qed.

Lemma shr_record_of_loc_encloses (x : Q) (m e : Z) (l : location) :
  0 <= m -> within m e x -> (l <> loc_Exact -> (value m e < x)%Q) ->
  encloses x (shr_record_of_loc m l) e.
Proof.
  intros Hm Hw Hl. unfold encloses.
  destruct l as [|[]]; cbn [shr_record_of_loc shr_m shr_r shr_s orb];
    (split; [assumption|split; [assumption|]]); intros H;
    try discriminate H; apply Hl; discriminate.
Qed.

Lemma shr_m_shr_1 (m : Z) (r s : bool) :
  shr_m (shr_1 (Build_shr_record m r s)) = shr_m (shr_1 (Build_shr_record m false false)).
Proof. now destruct m as [|[p|p|]|[p|p|]]. Qed.

Lemma shr_1_within (x : Q) (mrs : shr_record) (e : Z) :
  0 <= shr_m mrs -> within (shr_m mrs) e x -> within (shr_m (shr_1 mrs)) (e + 1) x.
Proof.
  destruct mrs as [m r s]. cbn [shr_m]. intros Hm Hw. rewrite shr_m_shr_1.
  apply (shr_1_encloses x (Build_shr_record m false false) e).
  unfold encloses. cbn [shr_m shr_r shr_s orb].
  split; [assumption|split; [assumption|discriminate]].
Qed.

Lemma shr_m_of_loc (m : Z) (l : location) : shr_m (shr_record_of_loc m l) = m.
Proof. now destruct l as [|[]]. Qed.

Lemma bounded_facts (m : positive) (e : Z) :
  bounded prec emax m e = true ->
  e = Z.max (Zpos (digits2_pos m) + e - 53) (-1074) /\ e <= 971.
Proof.
  unfold bounded, canonical_mantissa. rewrite andb_true_iff, Z.eqb_eq, Z.leb_le, fexp_eq.
  intros [E H]. split; [now symmetry|exact H].
Qed.

(** The first shift of the rounding: it brings the exponent to the one of
    the format, and the mantissa below 2^53, and to 2^52 at least unless
    the exponent is the least one. *)
Lemma shr_fexp_floor (x : Q) (m e : Z) (l : location) :
  0 <= m -> e <= fexp prec emax (Zdigits2 m + e) ->
  within m e x -> (l <> loc_Exact -> (value m e < x)%Q) ->
  encloses x (fst (shr_fexp prec emax m e l)) (snd (shr_fexp prec emax m e l))
  /\ -1074 <= snd (shr_fexp prec emax m e l)
  /\ shr_m (fst (shr_fexp prec emax m e l)) < 2 ^ 53
  /\ (-1074 < snd (shr_fexp prec emax m e l)
      -> 2 ^ 52 <= shr_m (fst (shr_fexp prec emax m e l))).
Proof.
  intros Hm Hprec Hw Hl. unfold shr_fexp, shr. rewrite fexp_eq in *.
  pose proof (shr_record_of_loc_encloses x m e l Hm Hw Hl) as H0.
  assert (Hd : m = 0 /\ Zdigits2 m = 0
               \/ exists p, m = Zpos p /\ Zdigits2 m = Zpos (digits2_pos p)).
  { destruct m as [|p|p]; [now left|right; now exists p|lia]. }
  destruct (Z.max (Zdigits2 m + e - 53) (-1074) - e) as [|n|n] eqn:En; cbn [fst snd];
    [| |lia].
  - split; [assumption|]. rewrite shr_m_of_loc. split; [lia|].
    destruct Hd as [[-> Ed]|[p [-> Ed]]]; rewrite Ed in En.
    + split; lia.
    + pose proof (digits2_pos_bounds p) as [Hlo Hhi]. split.
      * apply Z.lt_le_trans with (1 := Hhi). apply Z.pow_le_mono_r; lia.
      * intros He. replace (Zpos (digits2_pos p)) with 53 in Hlo by lia. exact Hlo.
  - destruct (iter_pos_shr_1
                (fun mrs e' => encloses x mrs e' /\ within (shr_m mrs) e' (value m e))
                ltac:(intros mrs e' [He Hw']; split;
                      [now apply shr_1_encloses|apply shr_1_within; [apply He|exact Hw']])
                n (shr_record_of_loc m l) e) as [He1 [Hlo1 Hhi1]].
    { split; [assumption|]. rewrite shr_m_of_loc. split; [apply Qle_refl|].
      apply value_lt. lia. }
    set (mrs := iter_pos shr_1 n (shr_record_of_loc m l)) in *.
    set (e1 := e + Zpos n) in *.
    split; [assumption|]. split; [lia|].
    destruct Hd as [[Em Ed]|[p [Em Ed]]]; rewrite Ed in En.
    + split; [|lia]. subst m. rewrite value_0 in Hlo1. rewrite <- (value_0 e1) in Hlo1.
      apply value_le_inv in Hlo1. lia.
    + pose proof (value_digits p e) as [Hlo Hhi]. rewrite <- Em in Hlo, Hhi. split.
      * apply (value_lt_inv _ _ e1). rewrite value_pow2 by lia.
        apply Qle_lt_trans with (1 := Hlo1). apply Qlt_le_trans with (1 := Hhi).
        apply pow2_le. lia.
      * intros He. assert (Hlt : (value (2 ^ 52) e1 < value (shr_m mrs + 1) e1)%Q).
        { rewrite value_pow2 by lia. apply Qle_lt_trans with (2 := Hhi1).
          apply Qle_trans with (2 := Hlo). apply pow2_le. lia. }
        apply value_lt_inv in Hlt. lia.
Qed.

(** A binary64 number above [m1 * 2^e1] is a multiple of [2^e1]. *)
Lemma grid (m1 e1 : Z) (mv : positive) (ev : Z) :
  bounded prec emax mv ev = true ->
  -1074 <= e1 -> (-1074 < e1 -> 2 ^ 52 <= m1) ->
  (value m1 e1 < value (Zpos mv) ev)%Q ->
  (value (m1 + 1) e1 <= value (Zpos mv) ev)%Q.
Proof.
  intros Hb He1 Hm1 Hlt. destruct (bounded_facts mv ev Hb) as [Ev _].
  assert (Hle : e1 <= ev).
  { destruct (Z.eq_dec e1 (-1074)) as [->|Hne]; [lia|].
    pose proof (value_digits mv ev) as [_ Hhi].
    assert (Hp : (pow2 (52 + e1) < pow2 (Zpos (digits2_pos mv) + ev))%Q).
    { rewrite <- value_pow2 by lia. apply Qle_lt_trans with (value m1 e1).
      - apply value_le. lia.
      - lra. }
    apply pow2_lt_inv in Hp. lia. }
  assert (E : (value (Zpos mv) ev == value (Zpos mv * 2 ^ (ev - e1)) e1)%Q).
  { rewrite value_shift by lia. now replace (ev - e1 + e1) with ev by lia. }
  rewrite E in *. apply value_lt_inv in Hlt. apply value_le. lia.
Qed.

Lemma round_nearest_even_cases (mrs : shr_record) :
  round_nearest_even (shr_m mrs) (loc_of_shr_record mrs) = shr_m mrs
  \/ (round_nearest_even (shr_m mrs) (loc_of_shr_record mrs) = shr_m mrs + 1
      /\ shr_r mrs = true).
Proof.
  destruct mrs as [m [|] [|]]; cbn; try destruct (Z.even m); auto.
Qed.

(** The second shift of the rounding renormalises a mantissa that was
    rounded up to 2^53, and leaves every other one as it is. *)
Lemma shr_fexp_exact (m e : Z) :
  0 <= m <= 2 ^ 53 -> -1074 <= e -> (-1074 < e -> 2 ^ 52 <= m) ->
  (value (shr_m (fst (shr_fexp prec emax m e loc_Exact)))
         (snd (shr_fexp prec emax m e loc_Exact)) == value m e)%Q
  /\ 0 <= shr_m (fst (shr_fexp prec emax m e loc_Exact)) < 2 ^ 53
  /\ (-1074 < snd (shr_fexp prec emax m e loc_Exact)
      -> 2 ^ 52 <= shr_m (fst (shr_fexp prec emax m e loc_Exact))).
Proof.
  intros Hm He Hn. unfold shr_fexp, shr. rewrite fexp_eq.
  destruct (Z.eq_dec m (2 ^ 53)) as [->|Hne].
  - change (Zdigits2 (2 ^ 53)) with 54.
    replace (Z.max (54 + e - 53) (-1074) - e) with 1 by lia.
    change (2 ^ 53) with 9007199254740992.
    cbn [iter_pos shr_record_of_loc fst snd shr_1 shr_m]. split; [|split].
    + rewrite <- value_double. reflexivity.
    + lia.
    + lia.
  - assert (Hd : Zdigits2 m <= 53).
    { destruct m as [|p|p]; [cbn; lia| |lia]. apply digits2_pos_le. lia. }
    destruct (Z.max (Zdigits2 m + e - 53) (-1074) - e) as [|n|n] eqn:En; [| lia |];
      cbn [fst snd shr_record_of_loc shr_m]; (split; [reflexivity|split; [lia|assumption]]).
Qed.

Lemma bounded_below_pow2 (mv : positive) (ev : Z) :
  bounded prec emax mv ev = true -> (value (Zpos mv) ev < pow2 (53 + ev))%Q.
Proof.
  intros Hb. destruct (bounded_facts mv ev Hb) as [Ev _].
  pose proof (value_digits mv ev) as [_ Hhi]. apply Qlt_le_trans with (1 := Hhi).
  apply pow2_le. lia.
Qed.

(** Rounding a number that lies within the step above a mantissa with
    digits enough. *)
Lemma binary_round_aux_rounded (x : Q) (m e : Z) (l : location) :
  0 <= m -> e <= fexp prec emax (Zdigits2 m + e) ->
  within m e x -> (l <> loc_Exact -> (value m e < x)%Q) ->
  rounded x (binary_round_aux prec emax false m e l).
Proof.
  intros Hm Hprec Hw Hl. unfold binary_round_aux.
  pose proof (shr_fexp_floor x m e l Hm Hprec Hw Hl) as (Henc & He1 & Hlt1 & Hn1).
  destruct (shr_fexp prec emax m e l) as [mrs e1]. cbn [fst snd] in *.
  destruct Henc as (Hm1 & [Hlo Hhi] & Hflag).
  set (m2 := round_nearest_even (shr_m mrs) (loc_of_shr_record mrs)).
  assert (H2 : shr_m mrs <= m2 <= shr_m mrs + 1
               /\ (m2 = shr_m mrs + 1 -> (value (shr_m mrs) e1 < x)%Q)).
  { destruct (round_nearest_even_cases mrs) as [E|[E Hr]]; fold m2 in E; rewrite E.
    - split; [lia|]. intros; lia.
    - split; [lia|]. intros _. apply Hflag. now rewrite Hr. }
  destruct H2 as [Hm2 Hup].
  pose proof (shr_fexp_exact m2 e1 ltac:(lia) He1 ltac:(intros; specialize (Hn1 H); lia))
    as (Eval & Hm3 & Hn3).
  destruct (shr_fexp prec emax m2 e1 loc_Exact) as [mrs3 e3]. cbn [fst snd] in *.
  intros mv ev Hb. pose proof (value_pos (Zpos mv) ev ltac:(lia)) as Hv.
  assert (Hlow : (value (Zpos mv) ev <= x -> value (Zpos mv) ev <= value m2 e1)%Q).
  { intros Hx. apply Qle_trans with (value (shr_m mrs) e1); [|apply value_le; lia].
    apply Qnot_lt_le. intros Hc. pose proof (grid _ _ _ _ Hb He1 Hn1 Hc). lra. }
  assert (Hupp : (x <= value (Zpos mv) ev -> value m2 e1 <= value (Zpos mv) ev)%Q).
  { intros Hx. destruct (Z.eq_dec m2 (shr_m mrs + 1)) as [E|Hne].
    - rewrite E. apply (grid _ _ _ _ Hb He1 Hn1). specialize (Hup E). lra.
    - replace m2 with (shr_m mrs) by lia. lra. }
  destruct (shr_m mrs3) as [|p|p] eqn:E3; [| |lia].
  - rewrite value_0 in Eval. split; [|easy]. intros Hx. specialize (Hlow Hx).
    cbn [above]. lra.
  - destruct (e3 <=? emax - prec) eqn:Ee.
    + cbn [above below]. split; intros Hx; [specialize (Hlow Hx)|specialize (Hupp Hx)]; lra.
    + split; [easy|]. intros Hx. specialize (Hupp Hx). cbn [below].
      apply Z.leb_gt in Ee. change (emax - prec) with 971 in Ee.
      destruct (bounded_facts mv ev Hb) as [_ Hev].
      pose proof (bounded_below_pow2 mv ev Hb) as Hbelow.
      assert (Hp : (pow2 (53 + ev) <= value (Zpos p) e3)%Q).
      { apply Qle_trans with (pow2 (52 + e3)); [apply pow2_le; lia|].
        rewrite <- value_pow2 by lia. apply value_le. lia. }
      lra.
Qed.

Lemma rounded_ext (x x' : Q) (z : spec_float) :
  (x == x')%Q -> rounded x z -> rounded x' z.
Proof.
  intros E Hr mv ev Hb. destruct (Hr mv ev Hb) as [Ha Hbl].
  split; intros Hx; [apply Ha|apply Hbl]; lra.
Qed.

Lemma shl_align_spec (m : positive) (e e' : Z) :
  snd (shl_align m e e') = Z.min e e'
  /\ Zpos (fst (shl_align m e e')) = Zpos m * 2 ^ (e - Z.min e e').
Proof.
  unfold shl_align. destruct (e' - e) as [|d|d] eqn:Ed; cbn [fst snd].
  - replace (Z.min e e') with e by lia. rewrite Z.sub_diag. split; lia.
  - replace (Z.min e e') with e by lia. rewrite Z.sub_diag. split; lia.
  - replace (Z.min e e') with e' by lia. split; [reflexivity|].
    change (Pos.iter xO m d) with (shift_pos d m). rewrite shift_pos_correct.
    change (Z.pow_pos 2 d) with (2 ^ Zpos d). replace (e - e') with (Zpos d) by lia. lia.
Qed.

Lemma shl_align_value (m : positive) (e e' : Z) :
  (value (Zpos (fst (shl_align m e e'))) (snd (shl_align m e e')) == value (Zpos m) e)%Q.
Proof.
  destruct (shl_align_spec m e e') as [-> ->]. rewrite value_shift by lia.
  now replace (e - Z.min e e' + Z.min e e') with e by lia.
Qed.

(** Rounding a mantissa and an exponent. *)
Lemma binary_round_rounded (m : positive) (e : Z) :
  rounded (value (Zpos m) e) (binary_round prec emax false m e).
Proof.
  unfold binary_round.
  pose proof (shl_align_spec m e (fexp prec emax (Zpos (digits2_pos m) + e))) as [Ee Em].
  pose proof (shl_align_value m e (fexp prec emax (Zpos (digits2_pos m) + e))) as Ev.
  destruct (shl_align m e _) as [mz ez]. cbn [fst snd] in *.
  apply binary_round_aux_rounded.
  - lia.
  - cbn [Zdigits2]. rewrite fexp_eq in *.
    assert (Hd : Zpos (digits2_pos m) + (e - ez) <= Zpos (digits2_pos mz)).
    { apply digits2_pos_ge. rewrite Em, <- Ee.
      pose proof (digits2_pos_bounds m) as [Hlo _].
      replace (Zpos (digits2_pos m) + (e - ez) - 1)
        with (Zpos (digits2_pos m) - 1 + (e - ez)) by lia.
      rewrite Z.pow_add_r by lia. apply Z.mul_le_mono_nonneg_r; [|assumption].
      apply Z.pow_nonneg. lia. }
    lia.
  - split; [rewrite Ev; apply Qle_refl|]. rewrite <- Ev. apply value_lt. lia.
  - intros H. now contradiction H.
Qed.

Lemma binary_normalize_rounded (m e : Z) :
  0 < m -> rounded (value m e) (binary_normalize prec emax m e false).
Proof.
  intros Hm. destruct m as [|p|p]; [lia| |lia]. apply binary_round_rounded.
Qed.

(** *** The order of binary64 and the order of the values *)

Lemma SFleb_value (m1 : positive) (e1 : Z) (m2 : positive) (e2 : Z) :
  bounded prec emax m1 e1 = true -> bounded prec emax m2 e2 = true ->
  (value (Zpos m1) e1 <= value (Zpos m2) e2)%Q ->
  SFleb (S754_finite false m1 e1) (S754_finite false m2 e2) = true.
Proof.
  intros H1 H2 Hle. unfold SFleb, SFcompare.
  destruct (Z.compare_spec e1 e2) as [->|Hlt|Hgt]; [|reflexivity|].
  - apply value_le_inv in Hle. change (Pos.compare_cont Eq m1 m2) with (m1 ?= m2)%positive.
    destruct (Pos.compare_spec m1 m2); try reflexivity. lia.
  - exfalso. destruct (bounded_facts m1 e1 H1) as [E1 _].
    pose proof (value_digits m1 e1) as [Hlo _].
    pose proof (bounded_below_pow2 m2 e2 H2) as Hhi.
    assert (Hp : (pow2 (53 + e2) <= pow2 (Zpos (digits2_pos m1) - 1 + e1))%Q)
      by (apply pow2_le; destruct (bounded_facts m2 e2 H2); lia).
    lra.
Qed.

Lemma SFltb_value (m1 : positive) (e1 : Z) (m2 : positive) (e2 : Z) :
  bounded prec emax m1 e1 = true -> bounded prec emax m2 e2 = true ->
  SFltb (S754_finite false m1 e1) (S754_finite false m2 e2) = true ->
  (value (Zpos m1) e1 < value (Zpos m2) e2)%Q.
Proof.
  intros H1 H2. unfold SFltb, SFcompare.
  destruct (Z.compare_spec e1 e2) as [->|Hlt|Hgt]; [| |discriminate].
  - change (Pos.compare_cont Eq m1 m2) with (m1 ?= m2)%positive.
    destruct (Pos.compare_spec m1 m2); try discriminate. intros _. apply value_lt. lia.
  - intros _. destruct (bounded_facts m2 e2 H2) as [E2 _].
    pose proof (value_digits m2 e2) as [Hlo _].
    pose proof (bounded_below_pow2 m1 e1 H1) as Hhi.
    assert (Hp : (pow2 (53 + e1) <= pow2 (Zpos (digits2_pos m2) - 1 + e2))%Q)
      by (apply pow2_le; destruct (bounded_facts m1 e1 H1); lia).
    lra.
Qed.

Lemma below_leb (mv : positive) (ev : Z) (z : spec_float) :
  bounded prec emax mv ev = true -> valid_binary z = true -> below mv ev z ->
  SFleb z (S754_finite false mv ev) = true.
Proof.
  intros Hb Hz Ha. destruct z as [[|]|s| |[|] m e]; cbn [below] in Ha; try contradiction.
  - reflexivity.
  - now apply SFleb_value.
Qed.

(** *** Sums, differences and quotients of positive numbers *)

Lemma SFadd_rounded (mx : positive) (ex : Z) (my : positive) (ey : Z) :
  rounded (value (Zpos mx) ex + value (Zpos my) ey)
    (SF64add (S754_finite false mx ex) (S754_finite false my ey)).
Proof.
  unfold SF64add, SFadd. cbn [cond_Zopp].
  pose proof (shl_align_spec mx ex (Z.min ex ey)) as [_ Ex].
  pose proof (shl_align_spec my ey (Z.min ex ey)) as [_ Ey].
  rewrite Z.min_assoc, Z.min_id in Ex.
  rewrite (Z.min_comm ex ey), Z.min_assoc, Z.min_id, (Z.min_comm ey ex) in Ey.
  apply rounded_ext with (value (Zpos (fst (shl_align mx ex (Z.min ex ey)))
                                 + Zpos (fst (shl_align my ey (Z.min ex ey))))
                                (Z.min ex ey)).
  - rewrite value_add, Ex, Ey, !value_shift by lia.
    replace (ex - Z.min ex ey + Z.min ex ey) with ex by lia.
    now replace (ey - Z.min ex ey + Z.min ex ey) with ey by lia.
  - apply binary_normalize_rounded. lia.
Qed.

Lemma SFsub_rounded (mx : positive) (ex : Z) (my : positive) (ey : Z) :
  (value (Zpos my) ey <= value (Zpos mx) ex)%Q ->
  SF64sub (S754_finite false mx ex) (S754_finite false my ey) = S754_zero false
  \/ rounded (value (Zpos mx) ex - value (Zpos my) ey)
       (SF64sub (S754_finite false mx ex) (S754_finite false my ey)).
Proof.
  intros Hle. unfold SF64sub, SFsub. cbn [cond_Zopp].
  pose proof (shl_align_spec mx ex (Z.min ex ey)) as [_ Ex].
  pose proof (shl_align_spec my ey (Z.min ex ey)) as [_ Ey].
  rewrite Z.min_assoc, Z.min_id in Ex.
  rewrite (Z.min_comm ex ey), Z.min_assoc, Z.min_id, (Z.min_comm ey ex) in Ey.
  set (a := Zpos (fst (shl_align mx ex (Z.min ex ey)))) in *.
  set (b := Zpos (fst (shl_align my ey (Z.min ex ey)))) in *.
  assert (Ea : (value a (Z.min ex ey) == value (Zpos mx) ex)%Q).
  { rewrite Ex, value_shift by lia.
    now replace (ex - Z.min ex ey + Z.min ex ey) with ex by lia. }
  assert (Eb : (value b (Z.min ex ey) == value (Zpos my) ey)%Q).
  { rewrite Ey, value_shift by lia.
    now replace (ey - Z.min ex ey + Z.min ex ey) with ey by lia. }
  assert (Hab : b <= a) by (apply (value_le_inv _ _ (Z.min ex ey)); lra).
  destruct (Z.eq_dec a b) as [E|Hne].
  - left. rewrite E, Z.sub_diag. reflexivity.
  - right. apply rounded_ext with (value (a - b) (Z.min ex ey)).
    + replace (a - b) with (a + - b) by lia. rewrite value_add, <- Ea, <- Eb.
      unfold value. rewrite inject_Z_opp. ring.
    + apply binary_normalize_rounded. lia.
Qed.

Lemma new_location_exact (nb_steps k : Z) :
  new_location nb_steps k <> loc_Exact -> k <> 0.
Proof.
  unfold new_location, new_location_even, new_location_odd. intros H ->.
  destruct (Z.even nb_steps); now apply H.
Qed.

Lemma SFdiv_rounded (x : Q) (mx : positive) (ex : Z) (my : positive) (ey : Z) :
  (x * value (Zpos my) ey == value (Zpos mx) ex)%Q ->
  rounded x (SF64div (S754_finite false mx ex) (S754_finite false my ey)).
Proof.
  intros Hx. unfold SF64div, SFdiv, SFdiv_core_binary. cbn [xorb Zdigits2].
  rewrite fexp_eq.
  set (d1 := Zpos (digits2_pos mx)). set (d2 := Zpos (digits2_pos my)).
  set (e' := Z.min (Z.max (d1 + ex - (d2 + ey) - 53) (-1074)) (ex - ey)).
  set (s := ex - ey - e').
  assert (Hs : 0 <= s) by (unfold s, e'; lia).
  assert (Em : match s with
               | 0 => Zpos mx
               | Zpos _ => Z.shiftl (Zpos mx) s
               | Zneg _ => 0
               end = Zpos mx * 2 ^ s).
  { destruct s as [|p|p] eqn:Es; [lia| |lia]. now rewrite Z.shiftl_mul_pow2. }
  rewrite Em. clear Em.
  pose proof (Z_div_mod (Zpos mx * 2 ^ s) (Zpos my) ltac:(lia)) as Hdiv.
  destruct (Z.div_eucl (Zpos mx * 2 ^ s) (Zpos my)) as [q r]. destruct Hdiv as [Eq Hr].
  pose proof (digits2_pos_bounds mx) as [Hlo1 Hhi1]. fold d1 in Hlo1, Hhi1.
  pose proof (digits2_pos_bounds my) as [Hlo2 Hhi2]. fold d2 in Hlo2, Hhi2.
  assert (Hp : 0 < 2 ^ s) by (apply Z.pow_pos_nonneg; lia).
  assert (Hq : 0 <= q) by nia.
  assert (Hval : (x * inject_Z (Zpos my) == value q e' * inject_Z (Zpos my) + value r e')%Q).
  { assert (E1 : (value (Zpos mx * 2 ^ s) e' == value (Zpos mx) ex * / pow2 ey)%Q).
    { rewrite value_shift by lia. unfold value. replace (s + e') with (ex + - ey) by lia.
      rewrite pow2_add. unfold pow2. rewrite Qpower_opp. ring. }
    rewrite Eq in E1. rewrite value_add in E1.
    assert (E2 : (value (Zpos my * q) e' == value q e' * inject_Z (Zpos my))%Q).
    { unfold value. rewrite inject_Z_mult. ring. }
    rewrite E2 in E1. rewrite E1, <- Hx. unfold value. field.
    pose proof (pow2_pos ey). lra. }
  assert (Hmy : (0 < inject_Z (Zpos my))%Q) by (change 0%Q with (inject_Z 0); rewrite <- Zlt_Qlt; lia).
  apply binary_round_aux_rounded.
  - assumption.
  - rewrite fexp_eq. destruct (Z.le_gt_cases e' (-1074)) as [|He]; [lia|].
    assert (Hk : 53 <= d1 + s - d2) by (unfold s, e' in *; lia).
    assert (Hq2 : 2 ^ (d1 + s - d2 - 1) <= q).
    { assert (Hlt : 2 ^ (d1 + s - d2 - 1) * 2 ^ d2 < (q + 1) * 2 ^ d2).
      { rewrite <- Z.pow_add_r by (unfold d2; lia).
        replace (d1 + s - d2 - 1 + d2) with (d1 - 1 + s) by lia.
        rewrite Z.pow_add_r by (unfold d1; lia). nia. }
      apply Z.mul_lt_mono_pos_r in Hlt; [lia|]. apply Z.pow_pos_nonneg; unfold d2; lia. }
    destruct q as [|pq|pq]; [|cbn [Zdigits2]|lia].
    + pose proof (Z.pow_pos_nonneg 2 (d1 + s - d2 - 1)). lia.
    + pose proof (digits2_pos_ge pq (d1 + s - d2) Hq2). unfold s, e' in *. lia.
  - assert (H0 : (0 <= value r e')%Q).
    { rewrite <- (value_0 e'). apply value_le. lia. }
    assert (H1 : (value r e' < value (Zpos my) e')%Q) by (apply value_lt; lia).
    assert (H2 : (value (q + 1) e' * inject_Z (Zpos my)
                  == value q e' * inject_Z (Zpos my) + value (Zpos my) e')%Q).
    { rewrite value_add. unfold value. ring. }
    split; nra.
  - intros Hl. apply new_location_exact in Hl.
    assert (H0 : (0 < value r e')%Q) by (apply value_pos; lia).
    nra.
Qed.

End Binary64Values.

(** ** RSI on binary64 *)

Section Binary64Rsi.

Local Open Scope js_scope.

Lemma Prim2SF_1 : Prim2SF (Float64.of_Z 1) = S754_finite false 4503599627370496 (-52).
Proof. reflexivity. Qed.

Lemma Prim2SF_100 : Prim2SF (Float64.of_Z 100) = S754_finite false 7036874417766400 (-46).
Proof. reflexivity. Qed.

Lemma value_1 : (value 4503599627370496 (-52) == 1)%Q.
Proof. reflexivity. Qed.

Lemma value_100 : (value 7036874417766400 (-46) == 100)%Q.
Proof. reflexivity. Qed.

(** A value that is neither below nor above 0 is a zero. *)
Lemma zero_of_order (d : float) :
  (of_Z 0 <=? d) = true -> (d >? of_Z 0) = false -> is_zero (Prim2SF d) = true.
Proof.
  cbn [leb ltb Float64.number]. rewrite FloatAxioms.leb_spec, FloatAxioms.ltb_spec.
  change (Prim2SF (Float64.of_Z 0)) with (S754_zero false).
  destruct (Prim2SF d) as [s|s| |s m e]; cbn; try destruct s; cbn; try discriminate;
    reflexivity.
Qed.

Lemma sub_zero (l d : float) :
  Prim2SF l = S754_zero false -> is_zero (Prim2SF d) = true ->
  Prim2SF (PrimFloat.sub l d) = S754_zero false.
Proof.
  intros El Hd. rewrite FloatAxioms.sub_spec, El.
  destruct (Prim2SF d) as [s|s| |s m e]; try discriminate. now destruct s.
Qed.

Lemma above_zero_unsigned (d : float) :
  PrimFloat.ltb (Float64.of_Z 0) d = true -> unsigned (Prim2SF d) = true.
Proof.
  rewrite FloatAxioms.ltb_spec. change (Prim2SF (Float64.of_Z 0)) with (S754_zero false).
  destruct (Prim2SF d) as [s|s| |s m e]; cbn; try destruct s; cbn; try discriminate;
    reflexivity.
Qed.

(** Taking away a value that is not above 0 leaves the sign bit clear. *)
Lemma sub_unsigned (l d : float) :
  unsigned (Prim2SF l) = true -> PrimFloat.ltb (Float64.of_Z 0) d = false ->
  unsigned (Prim2SF (PrimFloat.sub l d)) = true.
Proof.
  rewrite FloatAxioms.ltb_spec, FloatAxioms.sub_spec.
  change (Prim2SF (Float64.of_Z 0)) with (S754_zero false).
  destruct (Prim2SF l) as [sl|sl| |sl ml el], (Prim2SF d) as [sd|sd| |sd md ed]; cbn;
    try destruct sl; try destruct sd; cbn; try discriminate; try reflexivity.
  intros _ _.
  match goal with |- context [binary_round prec emax false ?m ?e] =>
    pose proof (binary_round_sign false m e) as Hs;
    destruct (binary_round prec emax false m e)
  end; cbn; try subst; reflexivity || contradiction.
Qed.

(** The positive integers below 2^63 are positive numbers of binary64. *)
Lemma of_Z_positive (n : Z) :
  0 < n < 2 ^ 63 ->
  above 4503599627370496 (-52) (Prim2SF (Float64.of_Z n)).
Proof.
  intros Hn. unfold Float64.of_Z. destruct (Z.ltb_spec n 0); [lia|].
  rewrite FloatAxioms.of_uint63_spec, Uint63.of_Z_spec.
  rewrite Z.mod_small by (change wB with (2 ^ 63); lia).
  apply (binary_normalize_rounded n 0 ltac:(lia) 4503599627370496%positive (-52) eq_refl).
  rewrite value_1. unfold value. change (pow2 0) with 1%Q.
  assert (H1 : (inject_Z 1 <= inject_Z n)%Q) by (rewrite <- Zle_Qle; lia).
  change (inject_Z 1) with 1%Q in H1. lra.
Qed.

(** [1 + x] is NaN, or 1 at least. *)
Lemma add_one_above (x : float) :
  unsigned (Prim2SF x) = true ->
  Prim2SF (PrimFloat.add (Float64.of_Z 1) x) = S754_nan
  \/ above 4503599627370496 (-52) (Prim2SF (PrimFloat.add (Float64.of_Z 1) x)).
Proof.
  rewrite FloatAxioms.add_spec, Prim2SF_1.
  destruct (Prim2SF x) as [[|]|[|]| |[|] m e]; cbn [unsigned negb]; try discriminate;
    intros _.
  - right. cbn. apply Qle_refl.
  - right. exact I.
  - now left.
  - right. apply (SFadd_rounded 4503599627370496 (-52) m e 4503599627370496%positive (-52) eq_refl).
    rewrite value_1. pose proof (value_pos (Zpos m) e ltac:(lia)). lra.
Qed.

(** [100 / y] for [y] that is NaN or 1 at least: NaN, or 100 at most. *)
Lemma div_hundred_below (y : float) :
  Prim2SF y = S754_nan \/ above 4503599627370496 (-52) (Prim2SF y) ->
  Prim2SF (PrimFloat.div (Float64.of_Z 100) y) = S754_nan
  \/ below 7036874417766400 (-46) (Prim2SF (PrimFloat.div (Float64.of_Z 100) y)).
Proof.
  rewrite FloatAxioms.div_spec, Prim2SF_100.
  destruct (Prim2SF y) as [s|[|]| |[|] m e]; cbn [above];
    intros [Hy|Hy]; try discriminate Hy; try contradiction.
  - right. exact I.
  - now left.
  - right. rewrite value_1 in Hy. pose proof (value_pos (Zpos m) e ltac:(lia)) as Hp.
    apply (SFdiv_rounded (100 / value (Zpos m) e) 7036874417766400 (-46) m e).
    + rewrite value_100. field. lra.
    + reflexivity.
    + rewrite value_100. apply Qle_shift_div_r; [assumption|]. lra.
Qed.

(** [100 - q] for [q] that is NaN or from 0 to 100. *)
Lemma sub_hundred_below (q : float) :
  Prim2SF q = S754_nan \/ below 7036874417766400 (-46) (Prim2SF q) ->
  Prim2SF (PrimFloat.sub (Float64.of_Z 100) q) = S754_nan
  \/ below 7036874417766400 (-46) (Prim2SF (PrimFloat.sub (Float64.of_Z 100) q)).
Proof.
  rewrite FloatAxioms.sub_spec, Prim2SF_100.
  destruct (Prim2SF q) as [[|]|s| |[|] m e]; cbn [below];
    intros [Hq|Hq]; try discriminate Hq; try contradiction.
  - right. cbn. apply Qle_refl.
  - now left.
  - right. destruct (SFsub_rounded 7036874417766400 (-46) m e Hq) as [E|Hr].
    + rewrite E. exact I.
    + apply (Hr 7036874417766400%positive (-46) eq_refl).
      pose proof (value_pos (Zpos m) e ltac:(lia)). lra.
Qed.

Lemma below_hundred_range (r : float) :
  below 7036874417766400 (-46) (Prim2SF r) ->
  PrimFloat.leb (Float64.of_Z 0) r = true /\ PrimFloat.leb r (Float64.of_Z 100) = true.
Proof.
  intros Hb. rewrite !FloatAxioms.leb_spec, Prim2SF_100.
  change (Prim2SF (Float64.of_Z 0)) with (S754_zero false). split.
  - destruct (Prim2SF r) as [[|]|s| |[|] m e]; cbn [below] in Hb; try contradiction;
      reflexivity.
  - apply below_leb; [reflexivity|apply FloatAxioms.Prim2SF_valid|assumption].
Qed.

Lemma nan_differs (r : float) : Prim2SF r = S754_nan -> PrimFloat.eqb r r = false.
Proof. intros E. now rewrite FloatAxioms.eqb_spec, E. Qed.

(** The RSI of binary64 prices: a number, not null, that is NaN or lies
    from 0 to 100, and 100 when no delta of the window is below 0. *)
Lemma rsi_on_binary64 (prices : list float) (period : Z) :
  (0 < period < 2 ^ 53)%Z ->
  (period + 1 <= len prices)%Z ->
  exists r, rsi prices period = Ok (Some r)
    /\ ((r === r) = false \/ ((of_Z 0 <=? r) = true /\ (r <=? of_Z 100) = true))
    /\ ((forall i a b, (len prices - period <= i < len prices)%Z ->
                       at_index prices i = Some a ->
                       at_index prices (i - 1) = Some b ->
                       (of_Z 0 <=? a - b) = true) ->
        r = of_Z 100).
Proof.
  intros Hp Hlen. unfold rsi.
  destruct (Z.ltb_spec (len prices) (period + 1)) as [Hlt|_]; [lia|].
  match goal with |- context [for_range ?lo ?hi ?body ?init] =>
    destruct (for_range_invariant
                (fun _ (gl : float * float) =>
                   unsigned (Prim2SF (fst gl)) = true
                   /\ unsigned (Prim2SF (snd gl)) = true
                   /\ ((forall i a b, (len prices - period <= i < len prices)%Z ->
                                      at_index prices i = Some a ->
                                      at_index prices (i - 1) = Some b ->
                                      (of_Z 0 <=? a - b) = true) ->
                       Prim2SF (snd gl) = S754_zero false))
                body lo hi init ltac:(lia)
                ltac:(split; [reflexivity|split; [reflexivity|intros _; reflexivity]]))
      as [[g l] [E (Hg & Hl & Hzero)]]
  end.
  - intros j [g l] Hj (Hg & Hl & Hzero).
    destruct (get_in_range prices j ltac:(lia)) as [a [Ea Ia]].
    destruct (get_in_range prices (j - 1) ltac:(lia)) as [b [Eb Ib]].
    rewrite Ea. cbn [bind]. rewrite Eb. cbn [bind]. eexists. split; [reflexivity|].
    cbn [fst snd] in *.
    destruct (a - b >? of_Z 0) eqn:Ed; cbn [fst snd].
    + split; [|split; assumption]. apply add_unsigned; [assumption|].
      now apply above_zero_unsigned.
    + split; [assumption|]. split; [now apply sub_unsigned|].
      intros Hall. apply sub_zero; [now apply Hzero|].
      apply zero_of_order; [|assumption]. now apply (Hall j).
  - rewrite E. cbn [bind]. cbn [fst snd] in *.
    pose proof (of_Z_positive period ltac:(lia)) as Hpos.
    assert (Hpu : unsigned (Prim2SF (Float64.of_Z period)) = true)
      by (apply plus_unsigned, of_Z_plus; lia).
    destruct (l / of_Z period === of_Z 0) eqn:Ez.
    + eexists. split; [reflexivity|]. split; [|reflexivity]. right.
      split; reflexivity.
    + eexists. split; [reflexivity|]. split.
      * assert (Hrs : unsigned (Prim2SF (PrimFloat.div (PrimFloat.div g (Float64.of_Z period))
                                           (PrimFloat.div l (Float64.of_Z period))))
                      = true)
          by (apply div_unsigned; apply div_unsigned; assumption).
        destruct (sub_hundred_below _ (div_hundred_below _ (add_one_above _ Hrs)))
          as [Hn|Hb].
        -- left. now apply nan_differs.
        -- right. now apply below_hundred_range.
      * intros Hall. exfalso. specialize (Hzero Hall).
        cbn [eqb div of_Z Float64.number] in Ez.
        rewrite FloatAxioms.eqb_spec, FloatAxioms.div_spec, Hzero in Ez.
        change (Prim2SF (Float64.of_Z 0)) with (S754_zero false) in Ez.
        destruct (Prim2SF (Float64.of_Z period)) as [s|[|]| |[|] m e];
          cbn [above] in Hpos; try contradiction; discriminate Ez.
Qed.


End Binary64Rsi.



(** ** Rising closes on binary64 *)

Section Binary64Rising.

Local Open Scope js_scope.

Lemma SFltb_negative (m1 : positive) (e1 : Z) (m2 : positive) (e2 : Z) :
  SFltb (S754_finite true m1 e1) (S754_finite true m2 e2)
  = SFltb (S754_finite false m2 e2) (S754_finite false m1 e1).
Proof.
  unfold SFltb, SFcompare. rewrite (Z.compare_antisym e1 e2).
  destruct (e1 ?= e2)%Z; cbn [CompOpp]; try reflexivity.
  change (Pos.compare_cont Eq m1 m2) with (m1 ?= m2)%positive.
  change (Pos.compare_cont Eq m2 m1) with (m2 ?= m1)%positive.
  rewrite (Pos.compare_antisym m1 m2). now destruct (m1 ?= m2)%positive.
Qed.

Lemma binary_normalize_plus (m e : Z) :
  (0 < m)%Z -> plus (binary_normalize prec emax m e false) = true.
Proof.
  intros Hm. destruct m as [|p|p]; [lia| |lia]. cbn [binary_normalize].
  pose proof (binary_round_sign false p e) as Hs.
  destruct (binary_round prec emax false p e); cbn; try subst; reflexivity || contradiction.
Qed.

Lemma aligned_less (mx : positive) (ex : Z) (my : positive) (ey ez : Z) :
  (ez <= ex)%Z -> (ez <= ey)%Z ->
  (value (Zpos mx) ex < value (Zpos my) ey)%Q ->
  (Zpos (fst (shl_align mx ex ez)) < Zpos (fst (shl_align my ey ez)))%Z.
Proof.
  intros Hx Hy Hlt.
  pose proof (shl_align_value mx ex ez) as Ex.
  pose proof (shl_align_value my ey ez) as Ey.
  destruct (shl_align_spec mx ex ez) as [Sx _].
  destruct (shl_align_spec my ey ez) as [Sy _].
  rewrite Sx in Ex. rewrite Sy in Ey.
  replace (Z.min ex ez) with ez in Ex by lia.
  replace (Z.min ey ez) with ez in Ey by lia.
  apply (value_lt_inv _ _ ez). lra.
Qed.

(** The difference of a number and a smaller one has a clear sign bit: it
    is +0, positive or +Infinity, and never NaN. *)
Lemma sub_of_less (x y : float) :
  PrimFloat.ltb x y = true -> plus (Prim2SF (PrimFloat.sub y x)) = true.
Proof.
  rewrite FloatAxioms.ltb_spec, FloatAxioms.sub_spec.
  pose proof (FloatAxioms.Prim2SF_valid x) as Vx.
  pose proof (FloatAxioms.Prim2SF_valid y) as Vy.
  destruct (Prim2SF x) as [sx|sx| |sx mx ex], (Prim2SF y) as [sy|sy| |sy my ey];
    try destruct sx; try destruct sy; try (cbn [SFltb SFcompare]; discriminate);
    try (intros _; reflexivity); cbn [valid_binary] in Vx, Vy.
  - rewrite SFltb_negative. intros Hlt. apply SFltb_value in Hlt; [|assumption..].
    unfold SF64sub, SFsub. cbn [cond_Zopp]. apply binary_normalize_plus.
    pose proof (aligned_less my ey mx ex (Z.min ey ex) ltac:(lia) ltac:(lia) Hlt). lia.
  - intros _. unfold SF64sub, SFsub. cbn [cond_Zopp]. apply binary_normalize_plus. lia.
  - intros Hlt. apply SFltb_value in Hlt; [|assumption..].
    unfold SF64sub, SFsub. cbn [cond_Zopp]. apply binary_normalize_plus.
    pose proof (aligned_less mx ex my ey (Z.min ey ex) ltac:(lia) ltac:(lia) Hlt). lia.
Qed.

Lemma plus_not_below_zero (d : float) :
  plus (Prim2SF d) = true -> PrimFloat.leb (Float64.of_Z 0) d = true.
Proof.
  rewrite FloatAxioms.leb_spec. change (Prim2SF (Float64.of_Z 0)) with (S754_zero false).
  destruct (Prim2SF d) as [s|s| |s m e]; cbn; try destruct s; cbn; try discriminate;
    reflexivity.
Qed.

Lemma increasing_at_index (xs : list float) (i : Z) (a b : float) :
  increasing xs = true ->
  at_index xs i = Some a -> at_index xs (i - 1) = Some b -> (b <? a) = true.
Proof.
  unfold at_index. destruct (Z.ltb_spec i 0) as [|Hi]; [discriminate|].
  destruct (Z.ltb_spec (i - 1) 0) as [|Hi1]; [discriminate|].
  replace (Z.to_nat i) with (S (Z.to_nat (i - 1))) by lia.
  generalize (Z.to_nat (i - 1)). clear. intros n. revert xs.
  induction n as [|n IH]; intros [|x [|y xs]]; cbn [increasing nth_error];
    intros Hinc Ha Hb; try discriminate.
  - apply andb_true_iff in Hinc. destruct Hinc as [H _].
    injection Ha as <-. injection Hb as <-. exact H.
  - apply andb_true_iff in Hinc. destruct Hinc as [_ H]. exact (IH (y :: xs) H Ha Hb).
Qed.

Lemma erase_sell_indicated (st : ScoreState float) :
  sell_indicated (erase st) = sell_indicated st.
Proof. reflexivity. Qed.

(** The RSI rule at 100 counts for the sell side, and the later steps keep
    the indication and a sell score above 0. *)
Lemma overbought_sell_indicated (ind : IndicatorSet float) (prevMacd : Macd float)
      (price : float) (regime : Regime) :
  ind_rsi ind = Some (of_Z 100) ->
  sell_indicated (scoringPass ind prevMacd price regime) = true.
Proof.
  intros Hr. rewrite <- erase_sell_indicated. unfold scoringPass.
  change (scoringSteps ind prevMacd price regime)
    with (firstn 2 (scoringSteps ind prevMacd price regime)
          ++ skipn 2 (scoringSteps ind prevMacd price regime)).
  rewrite run_app.
  apply (always_run (skipn 2 (scoringSteps ind prevMacd price regime))
           (skipn 2 (outcomes regime)) sell_indicated).
  - apply Forall2_skipn, scoringSteps_follow.
  - cbn [firstn scoringSteps run fold_left]. rewrite Hr.
    destruct regime; vm_compute; reflexivity.
Qed.

(** C9 (as amended): on binary64, for 300 candles whose closes are strictly
    increasing, the RSI is exactly 100, and the RSI rule therefore counts
    for the sell side in every regime: at the decision the sell side has an
    indication and a score above 0, and the signal is SELL only when a
    second rule counts for the sell side as well.  Neither the regime nor
    the signal follows from the rise. *)
Theorem rising_series_verdict (ohlcv : list (Candle float))
        (signalType riskTolerance : string) (now : Z) (sig : Signal float) :
  len ohlcv = 300%Z ->
  increasing (map (@close float) ohlcv) = true ->
  generateSignal ohlcv signalType riskTolerance now = Ok sig ->
  exists a ind,
    assess ohlcv riskTolerance = Ok (Some a)
    /\ analyzeIndicators ohlcv = Ok ind
    /\ ind_rsi ind = Some (of_Z 100)
    /\ sig_signal sig = decide (as_scores a) (as_threshold a)
    /\ (1 <= sellEvidence (as_scores a))%Z
    /\ (of_Z 0 <? sellScore (as_scores a)) = true
    /\ (sig_signal sig = SELL -> (2 <= sellEvidence (as_scores a))%Z).
Proof.
  intros Hlen Hinc Hsig.
  destruct (decided _ _ _ _ _ Hsig)
    as (a & ind & pm & Ha & Hi & _ & _ & Hscores & _ & Hth & Hd & _).
  destruct (analyzeIndicators_fields ohlcv ind Hi) as [_ [Fr _]]. cbv zeta in Fr.
  assert (Er : ind_rsi ind = Some (of_Z 100)).
  { destruct (rsi_on_binary64 (map (@close float) ohlcv) 14 ltac:(lia)
                ltac:(rewrite len_map; lia)) as [r [E [_ H100]]].
    rewrite E in Fr. injection Fr as <-. f_equal. apply H100.
    intros i x y _ Hx Hy. apply plus_not_below_zero, sub_of_less.
    exact (increasing_at_index _ _ _ _ Hinc Hx Hy). }
  exists a, ind. split; [exact Ha|]. split; [exact Hi|]. split; [exact Er|].
  split; [exact Hd|].
  pose proof (overbought_sell_indicated ind pm (as_price a) (as_regime a) Er) as Hs.
  rewrite <- Hscores in Hs. unfold sell_indicated in Hs. apply andb_true_iff in Hs.
  destruct Hs as [H1 H2].
  split; [now apply Z.leb_le|]. split; [exact H2|]. intros Hsell.
  pose proof (scoringPass_twice_indicated ind pm (as_price a) (as_regime a)) as Hc.
  rewrite <- Hscores in Hc. unfold twice_indicated in Hc. rewrite forallb_forall in Hc.
  specialize (Hc (as_threshold a)). lapply Hc; [|rewrite Hth; apply thresholdOf_listed].
  change (decide (erase (as_scores a)) (as_threshold a))
    with (decide (as_scores a) (as_threshold a)).
  rewrite <- Hd, Hsell. cbn [erase sellEvidence]. intros Hb.
  apply andb_true_iff in Hb. destruct Hb as [Hb _]. now apply Z.leb_le.
Qed.

End Binary64Rising.

Local Open Scope string_scope.

(** The slowing rise: the RSI is 100, the sell side scores, and the signal
    is SELL. *)
Lemma rising_series_verdict_slowing_rise :
  exists sig a,
    generateSignal (T:=float) slowing_rise "swing" "aggressive" 0 = Ok sig
    /\ assess (T:=float) slowing_rise "aggressive" = Ok (Some a)
    /\ sig_signal sig = SELL
    /\ (2 <= sellEvidence (as_scores a))%Z.
Proof.
  eassert (E : generateSignal (T:=float) slowing_rise "swing" "aggressive" 0 = Ok _)
    by (vm_compute; reflexivity).
  destruct (rising_series_verdict slowing_rise "swing" "aggressive" 0 _
              ltac:(vm_compute; reflexivity) ltac:(vm_compute; reflexivity) E)
    as (a & ind & Ha & _ & _ & _ & _ & _ & He).
  eexists. exists a. split; [exact E|]. split; [exact Ha|]. split; [reflexivity|].
  apply He. reflexivity.
Defined.

(** C9, as stated, fails on binary64: the slowing rise is strictly
    increasing, its regime is range, not uptrend, and the signal is SELL. *)
Lemma rising_series_sells :
  len (slowing_rise (T:=float)) = 300%Z
  /\ increasing (map (@close float) slowing_rise) = true
  /\ match generateSignal (T:=float) slowing_rise "swing" "aggressive" 0,
           assess (T:=float) slowing_rise "aggressive" with
     | Ok sig, Ok (Some a) => sig_signal sig = SELL /\ as_regime a = range
     | _, _ => False
     end.
Proof.
  split; [vm_compute; reflexivity|]. split; [vm_compute; reflexivity|].
  vm_compute; split; reflexivity.
Qed.

Local Close Scope string_scope.
